(** * The Cloud Functions emulator: invocation gateway and worker supervisor

    A shallow embedding of [src/emulator/functionsEmulator.ts]: the request
    handler of [FunctionsEmulator.start], [InvokeRuntime], [waitForLog],
    the trigger loader of [connect] with its diagnostic worker,
    [addFirestoreTrigger] and [stop]; then [getTriggers], the log handlers
    [handleRuntimeLog] and [handleSystemLog], and [askInstallNodeVersion].

    The program is event driven.  Promises are modelled by their state
    (pending, resolved or rejected), event emitters by the ordered list of
    their listeners, and the event loop by a step function that handles one
    callback of the environment (a chunk on a worker pipe, the exit of the
    worker, an event of the proxied response) and then runs the
    continuations of the [async] handler that have become runnable. *)

From Stdlib Require Import ZArith Ascii String List Bool Lia.
From stdpp Require Import gmap strings list fin_maps pretty.

Set Warnings "-register-all".
Local Open Scope string_scope.
Local Open Scope Z_scope.

(** ** JavaScript values that the code handles *)

(** Outcome of a call that may raise. *)
Inductive JsError : Type :=
| SyntaxError          (* JSON.parse on malformed text *)
| TypeError            (* property access on undefined *)
| ERR_HTTP_HEADERS_SENT (* setHeader once the head is on the wire *)
| ERR_STREAM_WRITE_AFTER_END
| NoReason.            (* reject() without an argument *)

Inductive Result (A : Type) : Type :=
| Ok (a : A)
| Throw (e : JsError).
Arguments Ok {A} a.
Arguments Throw {A} e.

(** The state of a promise.  [resolve] and [reject] only act on a pending
    promise: a settled promise ignores every later call. *)
Inductive Promise (A : Type) : Type :=
| Pending
| Resolved (a : A)
| Rejected (e : JsError).
Arguments Pending {A}.
Arguments Resolved {A} a.
Arguments Rejected {A} e.

Definition resolve {A} (p : Promise A) (a : A) : Promise A :=
  match p with
  | Pending => Resolved a
  | _ => p
  end.

Definition is_pending {A} (p : Promise A) : bool :=
  match p with
  | Pending => true
  | _ => false
  end.

(** ** JSON.parse

    The request body and the sibling's answer go through [JSON.parse].  The
    parsed value is an opaque tree: numbers and strings keep their lexemes,
    since the emulator never computes with them. *)
Module Json.

Inductive JSON : Type :=
| JNull
| JBool (b : bool)
| JNumber (lexeme : string)
| JString (raw : string)
| JArray (items : list JSON)
| JObject (members : list (string * JSON)).

Inductive token : Type :=
| TLBrace | TRBrace | TLBracket | TRBracket | TColon | TComma
| TWord (w : string)      (* a literal name or a number *)
| TStr (raw : string).

Definition dquote : ascii := "034"%char.

(** [quoted s] is [s] between double quotes. *)
Definition quoted (s : string) : string := String dquote (s ++ String dquote "").

Definition is_ws (c : ascii) : bool :=
  match c with
  | " "%char | "009"%char | "010"%char | "013"%char => true
  | _ => false
  end.

Definition is_digit (c : ascii) : bool :=
  let n := nat_of_ascii c in (48 <=? n)%nat && (n <=? 57)%nat.

Definition is_hex (c : ascii) : bool :=
  let n := nat_of_ascii c in
  is_digit c || ((65 <=? n)%nat && (n <=? 70)%nat)
             || ((97 <=? n)%nat && (n <=? 102)%nat).

Definition is_lower (c : ascii) : bool :=
  let n := nat_of_ascii c in (97 <=? n)%nat && (n <=? 122)%nat.

(** Characters of a number or of [null], [true], [false]. *)
Definition is_word (c : ascii) : bool :=
  is_digit c || is_lower c ||
  match c with
  | "-"%char | "+"%char | "."%char | "E"%char => true
  | _ => false
  end.

Definition is_escape (c : ascii) : bool :=
  match c with
  | "034"%char | "\"%char | "/"%char | "b"%char | "f"%char
  | "n"%char | "r"%char | "t"%char => true
  | _ => false
  end.

Definition snoc (s : string) (c : ascii) : string := s ++ String c "".

Definition punct (c : ascii) : option token :=
  match c with
  | "{"%char => Some TLBrace
  | "}"%char => Some TRBrace
  | "["%char => Some TLBracket
  | "]"%char => Some TRBracket
  | ":"%char => Some TColon
  | ","%char => Some TComma
  | _ => None
  end.

Inductive lex_mode : Type :=
| LIdle
| LWord (acc : string)
| LStr (acc : string)
| LEsc (acc : string)
| LHex (acc : string) (left : nat).

(** One pass over the text; [out] holds the tokens read so far, last first. *)
Fixpoint lex (m : lex_mode) (out : list token) (s : string)
  : option (list token) :=
  match s with
  | EmptyString =>
      match m with
      | LIdle => Some (rev out)
      | LWord w => Some (rev (TWord w :: out))
      | _ => None
      end
  | String c rest =>
      match m with
      | LIdle =>
          if is_ws c then lex LIdle out rest
          else if Ascii.eqb c dquote then lex (LStr "") out rest
          else if is_word c then lex (LWord (String c "")) out rest
          else match punct c with
               | Some t => lex LIdle (t :: out) rest
               | None => None
               end
      | LWord w =>
          if is_word c then lex (LWord (snoc w c)) out rest
          else if is_ws c then lex LIdle (TWord w :: out) rest
          else match punct c with
               | Some t => lex LIdle (t :: TWord w :: out) rest
               | None => None
               end
      | LStr acc =>
          if Ascii.eqb c dquote then lex LIdle (TStr acc :: out) rest
          else if Ascii.eqb c "\"%char then lex (LEsc (snoc acc c)) out rest
          else if (nat_of_ascii c <? 32)%nat then None
          else lex (LStr (snoc acc c)) out rest
      | LEsc acc =>
          if Ascii.eqb c "u"%char then lex (LHex (snoc acc c) 4) out rest
          else if is_escape c then lex (LStr (snoc acc c)) out rest
          else None
      | LHex acc n =>
          if is_hex c
          then match n with
               | 1%nat => lex (LStr (snoc acc c)) out rest
               | _ => lex (LHex (snoc acc c) (pred n)) out rest
               end
          else None
      end
  end.

(** The number grammar: an optional minus sign; then a single zero, or a
    nonzero digit with more digits; then an optional fraction (a dot and one
    digit or more); then an optional exponent (e or E, an optional sign and one
    digit or more). *)
Inductive num_state : Type :=
| NStart | NMinus | NZero | NInt | NDot | NFrac | NE | NESign | NExp | NBad.

Definition num_step (q : num_state) (c : ascii) : num_state :=
  let e := Ascii.eqb c "e"%char || Ascii.eqb c "E"%char in
  let sign := Ascii.eqb c "-"%char || Ascii.eqb c "+"%char in
  match q with
  | NStart =>
      if Ascii.eqb c "-"%char then NMinus
      else if Ascii.eqb c "0"%char then NZero
      else if is_digit c then NInt else NBad
  | NMinus =>
      if Ascii.eqb c "0"%char then NZero
      else if is_digit c then NInt else NBad
  | NZero =>
      if Ascii.eqb c "."%char then NDot else if e then NE else NBad
  | NInt =>
      if is_digit c then NInt
      else if Ascii.eqb c "."%char then NDot else if e then NE else NBad
  | NDot => if is_digit c then NFrac else NBad
  | NFrac => if is_digit c then NFrac else if e then NE else NBad
  | NE => if sign then NESign else if is_digit c then NExp else NBad
  | NESign => if is_digit c then NExp else NBad
  | NExp => if is_digit c then NExp else NBad
  | NBad => NBad
  end.

Fixpoint num_run (q : num_state) (s : string) : num_state :=
  match s with
  | EmptyString => q
  | String c rest => num_run (num_step q c) rest
  end.

Definition is_number (w : string) : bool :=
  match num_run NStart w with
  | NZero | NInt | NFrac | NExp => true
  | _ => false
  end.

Definition word_value (w : string) : option JSON :=
  if String.eqb w "null" then Some JNull
  else if String.eqb w "true" then Some (JBool true)
  else if String.eqb w "false" then Some (JBool false)
  else if is_number w then Some (JNumber w)
  else None.

(** Recursive descent over the tokens.  Each call spends one unit of fuel;
    [2 * length ts + 2] units are enough for every text. *)
Fixpoint parse_value (fuel : nat) (ts : list token)
  : option (JSON * list token) :=
  match fuel with
  | O => None
  | S f =>
      match ts with
      | TWord w :: r =>
          match word_value w with
          | Some v => Some (v, r)
          | None => None
          end
      | TStr s :: r => Some (JString s, r)
      | TLBracket :: TRBracket :: r => Some (JArray [], r)
      | TLBracket :: r => parse_items f [] r
      | TLBrace :: TRBrace :: r => Some (JObject [], r)
      | TLBrace :: r => parse_members f [] r
      | _ => None
      end
  end
with parse_items (fuel : nat) (acc : list JSON) (ts : list token)
  : option (JSON * list token) :=
  match fuel with
  | O => None
  | S f =>
      match parse_value f ts with
      | Some (v, TComma :: r) => parse_items f (v :: acc) r
      | Some (v, TRBracket :: r) => Some (JArray (rev (v :: acc)), r)
      | _ => None
      end
  end
with parse_members (fuel : nat) (acc : list (string * JSON)) (ts : list token)
  : option (JSON * list token) :=
  match fuel with
  | O => None
  | S f =>
      match ts with
      | TStr k :: TColon :: r =>
          match parse_value f r with
          | Some (v, TComma :: r') => parse_members f ((k, v) :: acc) r'
          | Some (v, TRBrace :: r') => Some (JObject (rev ((k, v) :: acc)), r')
          | _ => None
          end
      | _ => None
      end
  end.

(** [JSON.parse text]: [None] stands for the [SyntaxError] it raises. *)
Definition parse (text : string) : option JSON :=
  match lex LIdle [] text with
  | Some ts =>
      match parse_value (2 * length ts + 2) ts with
      | Some (v, []) => Some v
      | _ => None
      end
  | None => None
  end.

End Json.
Export Json.

(** ** Data model ([types.ts], [functionsEmulatorShared.ts])

    Only the declarations of these types are used by the emulator; the
    records below list the fields that [functionsEmulator.ts] reads. *)

Record EventTrigger : Type := {
  service : option string;
  resource : string;
}.

Record EmulatedTriggerDefinition : Type := {
  name : string;
  httpsTrigger : bool;                   (* truthiness of the optional field *)
  eventTrigger : option EventTrigger;
}.

Record EmulatedTrigger : Type := {
  definition : EmulatedTriggerDefinition;
}.

(** The [data] object of a log record ([any] in the source). *)
Record LogData : Type := {
  socketPath : option string;
  triggers : option (gmap string EmulatedTrigger);
  triggerDefinitions : option (list EmulatedTriggerDefinition);
}.

Definition no_data : LogData :=
  {| socketPath := None; triggers := None; triggerDefinitions := None |}.

Record EmulatorLog : Type := {
  level : string;
  type : string;
  text : string;
  data : LogData;
}.

(** [new EmulatorLog("SYSTEM", "runtime-status", "killed")] *)
Definition killedLog : EmulatorLog :=
  {| level := "SYSTEM"; type := "runtime-status"; text := "killed";
     data := no_data |}.

Record FunctionsRuntimeBundle : Type := {
  ports_firestore : option Z;
  proto : option JSON;
  cwd : string;
  triggerId : string;
  projectId : string;
  disabled_features : option (list string);
}.

(** What the callback of [request.put] is called with. *)
Inductive PutReply : Type :=
| PutError (err : string)      (* the callback gets [err] *)
| PutBody (body : string).     (* the callback gets the answer's body *)

(** Code of the repository that is outside [functionsEmulator.ts], and the
    systems that the emulator talks to: the development holds for every
    choice of these. *)
Class External : Type := {
  (* EmulatorLog.fromJSON of types.ts: one line of a worker pipe *)
  fromJSON : string -> EmulatorLog;
  (* getFunctionRegion of functionsEmulatorShared.ts *)
  getFunctionRegion : EmulatedTriggerDefinition -> string;
  (* JSON.stringify on a trigger definition *)
  stringify_definition : EmulatedTriggerDefinition -> string;
  (* EmulatorRegistry.getPort(Emulators.FIRESTORE) *)
  firestorePort : option Z;
  (* process.env *)
  process_env : gmap string string;
  (* Constants.SERVICE_FIRESTORE of constants.ts *)
  SERVICE_FIRESTORE : string;
  (* JSON.stringify({ eventTrigger: definition.eventTrigger }) *)
  stringify_bundle : option EventTrigger -> string;
  (* clc.bold *)
  clc_bold : string -> string;
  (* what the callback of request.put(url, { body }) is called with *)
  request_put : string -> string -> PutReply;
}.

(** ** waitForLog *)

(** The listener that [waitForLog] attaches to the emitter; [p] is the state
    of the promise it returns.  Nothing in [waitForLog] calls [reject]. *)
Definition waitForLog_listener (lvl ty : string)
    (filter : option (EmulatorLog -> bool))
    (el : EmulatorLog) (p : Promise EmulatorLog) : Promise EmulatorLog :=
  let levelTypeMatch := String.eqb (level el) lvl && String.eqb (type el) ty in
  let filterMatch :=
    match filter with
    | Some f => f el
    | None => true
    end in
  if levelTypeMatch && filterMatch then resolve p el else p.

(** What a worker makes observable: records on its event stream and its
    exit. *)
Inductive RuntimeEvent : Type :=
| Log (el : EmulatorLog)
| Exit (code : Z).

(** The promise of [waitForLog] after the runtime events [evs].  The only
    subscription is the one on "log": an exit reaches no code of the
    waiter. *)
Definition waitForLog_on (lvl ty : string)
    (filter : option (EmulatorLog -> bool))
    (p : Promise EmulatorLog) (ev : RuntimeEvent) : Promise EmulatorLog :=
  match ev with
  | Log el => waitForLog_listener lvl ty filter el p
  | Exit _ => p
  end.

Definition waitForLog (lvl ty : string)
    (filter : option (EmulatorLog -> bool))
    (evs : list RuntimeEvent) : Promise EmulatorLog :=
  fold_left (waitForLog_on lvl ty filter) evs Pending.

(** The filter of the [ready] waiter in [InvokeRuntime]. *)
Definition ready_filter (log : EmulatorLog) : bool := String.eqb (text log) "ready".

(** ** The outbound response

    [res] is an express response on top of Node's [http.ServerResponse].
    [headers] holds the headers that the emulator sets, under their
    lower-cased names as Node keeps them; the entity headers that express
    derives from the body in [send] are not tracked.  [wire] is what has gone
    out to the client, oldest first. *)
Inductive HeaderVal : Type :=
| One (v : string)
| Many (vs : list string).

Inductive Wire : Type :=
| Head (status : Z) (hs : gmap string HeaderVal)
| Chunk (bytes : string)
| Fin.

Record Response : Type := {
  statusCode : Z;
  headers : gmap string HeaderVal;
  headersSent : bool;
  finished : bool;
  wire : list Wire;
}.

Definition lower_ascii (c : ascii) : ascii :=
  let n := nat_of_ascii c in
  if (65 <=? n)%nat && (n <=? 90)%nat then ascii_of_nat (n + 32) else c.

Fixpoint toLowerCase (s : string) : string :=
  match s with
  | EmptyString => EmptyString
  | String c r => String (lower_ascii c) (toLowerCase r)
  end.

(** [res.status(code)]: an assignment to [statusCode]. *)
Definition res_status (code : Z) (r : Response) : Response :=
  {| statusCode := code; headers := headers r; headersSent := headersSent r;
     finished := finished r; wire := wire r |}.

(** [res.setHeader(key, val)] raises once the head is out. *)
Definition res_setHeader (key : string) (val : HeaderVal) (r : Response)
  : Result Response :=
  if headersSent r then Throw ERR_HTTP_HEADERS_SENT
  else Ok {| statusCode := statusCode r;
             headers := <[toLowerCase key := val]> (headers r);
             headersSent := false; finished := finished r; wire := wire r |}.

(** The head goes out with the first byte or with the end. *)
Definition flush_head (r : Response) : Response :=
  if headersSent r then r
  else {| statusCode := statusCode r; headers := headers r;
          headersSent := true; finished := finished r;
          wire := wire r ++ [Head (statusCode r) (headers r)] |}.

(** [res.write(buf)]: after the end nothing is written and the response
    emits an error that nobody listens to. *)
Definition res_write (buf : string) (r : Response) : Result Response :=
  if finished r then Throw ERR_STREAM_WRITE_AFTER_END
  else let r1 := flush_head r in
       Ok {| statusCode := statusCode r1; headers := headers r1;
             headersSent := true; finished := false;
             wire := wire r1 ++ [Chunk buf] |}.

(** [res.end()]: a second call returns at once. *)
Definition res_end (r : Response) : Response :=
  if finished r then r
  else let r1 := flush_head r in
       {| statusCode := statusCode r1; headers := headers r1;
          headersSent := true; finished := true;
          wire := wire r1 ++ [Fin] |}.

(** [res.send(body)] of express sets entity headers through [setHeader]
    before it ends the response with the body: it raises when the head is
    already out. *)
Definition res_send (body : string) (r : Response) : Result Response :=
  if headersSent r then Throw ERR_HTTP_HEADERS_SENT
  else Ok {| statusCode := statusCode r; headers := headers r;
             headersSent := true; finished := true;
             wire := wire r ++ [Head (statusCode r) (headers r); Chunk body; Fin] |}.

(** [res.json(obj)] is [res.send] on the serialized object. *)
Definition res_json (serialized : string) (r : Response) : Result Response :=
  res_send serialized r.

(** [JSON.stringify({ status: "acknowledged" })] *)
Definition acknowledged : string :=
  "{" ++ quoted "status" ++ ":" ++ quoted "acknowledged" ++ "}".

(** The response as the handler gets it: the CORS middleware has set three
    headers, nothing has been sent. *)
Definition cors_headers : gmap string HeaderVal :=
  <[toLowerCase "Access-Control-Allow-Methods" := One "GET,OPTIONS,POST"]>
  (<[toLowerCase "Access-Control-Allow-Headers" :=
       One "Origin, X-Requested-With, Content-Type, Authorization, Accept"]>
  (<[toLowerCase "Access-Control-Allow-Origin" := One "*"]> ∅)).

Definition fresh_response : Response :=
  {| statusCode := 200; headers := cors_headers; headersSent := false;
     finished := false; wire := [] |}.

Definition is_fin (x : Wire) : bool :=
  match x with
  | Fin => true
  | _ => false
  end.

Definition is_head (x : Wire) : bool :=
  match x with
  | Head _ _ => true
  | _ => false
  end.

(** How often the response was ended, and how often a head went out. *)
Definition count_fin (w : list Wire) : nat := length (List.filter is_fin w).
Definition count_head (w : list Wire) : nat := length (List.filter is_head w).

(** The reply that the client has received in full: status and body. *)
Definition body_of (w : list Wire) : string :=
  fold_right (fun x acc => match x with Chunk b => b ++ acc | _ => acc end) "" w.

Definition reply (r : Response) : option (Z * string) :=
  match wire r with
  | Head st _ :: rest => if finished r then Some (st, body_of rest) else None
  | _ => None
  end.

(** ** InvokeRuntime: spawning the worker *)

(** Object spread [{ ...base, ...over }]: every own property of [over] is
    copied onto [base], replacing what [base] has under the same key. *)
Definition spread {A} (base over : gmap string A) : gmap string A := over ∪ base.

Record InvokeOpts : Type := {
  serializedTriggers : option string;
  opts_env : option (gmap string string);
}.

(** [opts = opts || {}] *)
Definition no_opts : InvokeOpts :=
  {| serializedTriggers := None; opts_env := None |}.

Record SpawnOptions : Type := {
  env : gmap string string;
  spawn_cwd : string;
}.

Record Spawn : Type := {
  command : string;
  script : string;                         (* relative to __dirname *)
  arg_bundle : FunctionsRuntimeBundle;     (* passed as JSON.stringify(frb) *)
  arg_triggers : string;
  options : SpawnOptions;
}.

(** [{ env: { node: nodeBinary, ...opts.env, ...process.env }, cwd: frb.cwd }] *)
Definition spawn_options `{External} (nodeBinary : string)
    (frb : FunctionsRuntimeBundle) (opts : InvokeOpts) : SpawnOptions :=
  {| env := spread (spread {[ "node" := nodeBinary ]} (default ∅ (opts_env opts)))
                   process_env;
     spawn_cwd := cwd frb |}.

Definition spawn_worker `{External} (nodeBinary : string)
    (frb : FunctionsRuntimeBundle) (opts : InvokeOpts) : Spawn :=
  {| command := nodeBinary;
     script := "functionsEmulatorRuntime";
     arg_bundle := frb;
     arg_triggers := default "" (serializedTriggers opts);
     options := spawn_options nodeBinary frb opts |}.

(** ** InvokeRuntime: framing of the worker pipes *)

Definition newline : ascii := "010"%char.

(** [value.split("\n")]: never empty. *)
Fixpoint split_lines (value : string) : list string :=
  match value with
  | EmptyString => [EmptyString]
  | String c rest =>
      if Ascii.eqb c newline then EmptyString :: split_lines rest
      else match split_lines rest with
           | l :: ls => String c l :: ls
           | [] => [String c EmptyString]
           end
  end.

(** What the supervisor does, in order, on the data of a pipe. *)
Inductive Action : Type :=
| Emit (log : EmulatorLog)          (* emitter.emit("log", log) *)
| Kill (signal : option string).    (* runtime.kill(signal) *)

(** The body of the [forEach] for one complete line. *)
Definition line_actions `{External} (line : string) : list Action :=
  let log := fromJSON line in
  Emit log ::
  (if String.eqb (level log) "FATAL" then [Emit killedLog; Kill None] else []).

(** The data callback, for [buffer.value] as it is after [+= buf]. *)
Definition data_actions `{External} (value : string) : list Action :=
  let lines := split_lines value in
  if (1 <? length lines)%nat
  then flat_map line_actions (List.removelast lines)
  else [].

(** [lines[lines.length - 1]] *)
Definition last_line (value : string) : string :=
  List.last (split_lines value) EmptyString.

(** ** The state of one invocation *)

Inductive Pipe : Type := Stdout | Stderr.

(** The fields of the runtime instance and the state captured by the
    closures of [InvokeRuntime]. *)
Record Runtime : Type := {
  stdout_value : string;
  stderr_value : string;
  events : list EmulatorLog;          (* all that was emitted, oldest first *)
  kills : list (option string);       (* calls of runtime.kill *)
  readyLog : Promise EmulatorLog;     (* the waiter below [ready] *)
  ready : Promise unit;
  metadata_socketPath : option string;
  exit : Promise Z;
}.

Record Request : Type := {
  method : string;
  url : string;
  req_headers : list (string * HeaderVal);
  trigger_name : string;              (* req.params.trigger_name *)
  rawBody : string;
}.

(** The request to the worker over its socket. *)
Record ClientRequest : Type := {
  rq_method : string;
  rq_path : string;
  rq_headers : list (string * HeaderVal);
  rq_socketPath : option string;
  rq_body : option string;            (* written and ended by the handler *)
}.

(** The worker's response: its head. *)
Record IncomingMessage : Type := {
  im_statusCode : option Z;
  im_headers : list (string * HeaderVal);
}.

(** Where the [async] handler is suspended. *)
Inductive Phase : Type :=
| AwaitReady
| AwaitTriggerLog
| AwaitExitAck          (* event trigger: await runtime.exit, then res.json *)
| AwaitExitProxy        (* HTTP trigger: the last await of the handler *)
| Returned
| Failed (e : JsError). (* the handler raised: its promise is rejected *)

Record Invocation : Type := {
  req : Request;
  spawns : list Spawn;
  runtime : Runtime;
  triggerLog : Promise EmulatorLog;
  phase : Phase;
  res : Response;
  tracked : list string;              (* track(EVENT_INVOKE, _) *)
  runtimeReq : option ClientRequest;
  runtimeRes : option IncomingMessage;
  uncaught : option JsError;          (* an exception left a callback *)
}.

Definition fresh_runtime : Runtime :=
  {| stdout_value := EmptyString; stderr_value := EmptyString; events := [];
     kills := []; readyLog := Pending; ready := Pending;
     metadata_socketPath := None; exit := Pending |}.

Definition set_buffer (p : Pipe) (v : string) (rt : Runtime) : Runtime :=
  {| stdout_value := match p with Stdout => v | Stderr => stdout_value rt end;
     stderr_value := match p with Stderr => v | Stdout => stderr_value rt end;
     events := events rt; kills := kills rt; readyLog := readyLog rt;
     ready := ready rt; metadata_socketPath := metadata_socketPath rt;
     exit := exit rt |}.

Definition buffer_value (p : Pipe) (rt : Runtime) : string :=
  match p with
  | Stdout => stdout_value rt
  | Stderr => stderr_value rt
  end.

Definition set_events (v : list EmulatorLog) (rt : Runtime) : Runtime :=
  {| stdout_value := stdout_value rt; stderr_value := stderr_value rt;
     events := v; kills := kills rt; readyLog := readyLog rt;
     ready := ready rt; metadata_socketPath := metadata_socketPath rt;
     exit := exit rt |}.

Definition set_kills (v : list (option string)) (rt : Runtime) : Runtime :=
  {| stdout_value := stdout_value rt; stderr_value := stderr_value rt;
     events := events rt; kills := v; readyLog := readyLog rt;
     ready := ready rt; metadata_socketPath := metadata_socketPath rt;
     exit := exit rt |}.

Definition set_readyLog (v : Promise EmulatorLog) (rt : Runtime) : Runtime :=
  {| stdout_value := stdout_value rt; stderr_value := stderr_value rt;
     events := events rt; kills := kills rt; readyLog := v;
     ready := ready rt; metadata_socketPath := metadata_socketPath rt;
     exit := exit rt |}.

Definition set_ready (sp : option string) (rt : Runtime) : Runtime :=
  {| stdout_value := stdout_value rt; stderr_value := stderr_value rt;
     events := events rt; kills := kills rt; readyLog := readyLog rt;
     ready := Resolved tt; metadata_socketPath := sp;
     exit := exit rt |}.

Definition set_exit (v : Promise Z) (rt : Runtime) : Runtime :=
  {| stdout_value := stdout_value rt; stderr_value := stderr_value rt;
     events := events rt; kills := kills rt; readyLog := readyLog rt;
     ready := ready rt; metadata_socketPath := metadata_socketPath rt;
     exit := v |}.

Definition set_runtime (v : Runtime) (st : Invocation) : Invocation :=
  {| req := req st; spawns := spawns st; runtime := v;
     triggerLog := triggerLog st; phase := phase st; res := res st;
     tracked := tracked st; runtimeReq := runtimeReq st;
     runtimeRes := runtimeRes st; uncaught := uncaught st |}.

Definition set_triggerLog (v : Promise EmulatorLog) (st : Invocation) : Invocation :=
  {| req := req st; spawns := spawns st; runtime := runtime st;
     triggerLog := v; phase := phase st; res := res st;
     tracked := tracked st; runtimeReq := runtimeReq st;
     runtimeRes := runtimeRes st; uncaught := uncaught st |}.

Definition set_phase (v : Phase) (st : Invocation) : Invocation :=
  {| req := req st; spawns := spawns st; runtime := runtime st;
     triggerLog := triggerLog st; phase := v; res := res st;
     tracked := tracked st; runtimeReq := runtimeReq st;
     runtimeRes := runtimeRes st; uncaught := uncaught st |}.

Definition set_res (v : Response) (st : Invocation) : Invocation :=
  {| req := req st; spawns := spawns st; runtime := runtime st;
     triggerLog := triggerLog st; phase := phase st; res := v;
     tracked := tracked st; runtimeReq := runtimeReq st;
     runtimeRes := runtimeRes st; uncaught := uncaught st |}.

Definition set_tracked (v : list string) (st : Invocation) : Invocation :=
  {| req := req st; spawns := spawns st; runtime := runtime st;
     triggerLog := triggerLog st; phase := phase st; res := res st;
     tracked := v; runtimeReq := runtimeReq st;
     runtimeRes := runtimeRes st; uncaught := uncaught st |}.

Definition set_runtimeReq (v : option ClientRequest) (st : Invocation) : Invocation :=
  {| req := req st; spawns := spawns st; runtime := runtime st;
     triggerLog := triggerLog st; phase := phase st; res := res st;
     tracked := tracked st; runtimeReq := v;
     runtimeRes := runtimeRes st; uncaught := uncaught st |}.

Definition set_runtimeRes (v : option IncomingMessage) (st : Invocation) : Invocation :=
  {| req := req st; spawns := spawns st; runtime := runtime st;
     triggerLog := triggerLog st; phase := phase st; res := res st;
     tracked := tracked st; runtimeReq := runtimeReq st;
     runtimeRes := v; uncaught := uncaught st |}.

Definition set_uncaught (v : option JsError) (st : Invocation) : Invocation :=
  {| req := req st; spawns := spawns st; runtime := runtime st;
     triggerLog := triggerLog st; phase := phase st; res := res st;
     tracked := tracked st; runtimeReq := runtimeReq st;
     runtimeRes := runtimeRes st; uncaught := v |}.

(** A listener on the worker's response: the response as the listener
    leaves it, and the exception with which it ends, if any.  Nothing
    catches such an exception. *)
Definition on_res (f : Response -> Response * option JsError) (st : Invocation)
  : Invocation :=
  let '(r, err) := f (res st) in
  match err with
  | None => set_res r st
  | Some e => set_uncaught (Some e) (set_res r st)
  end.

(** ** The emulator object *)

Inductive Server : Type :=
| Listening
| Closing      (* close() was called: no new connection is accepted *)
| Closed.      (* the "close" event of the server has fired *)

(** [server.close()] returns at once; the socket is closed later. *)
Definition server_close (s : Server) : Server :=
  match s with
  | Listening => Closing
  | _ => s
  end.

Inductive LogType : Type := DEBUG | INFO | USER | BULLET | WARN | SUCCESS.

(** The functions of [logger] and [utils] that print. *)
Inductive Sink : Type :=
| logger_debug
| logger_info
| logBullet
| logWarning
| logSuccess
| logLabeledBullet (label : string)
| logLabeledSuccess (label : string).

Module FunctionsEmulator.

Record t : Type := {
  port : Z;
  projectId : string;
  server : option Server;
  functionsDir : string;
  nodeBinary : string;
  triggers : list EmulatedTriggerDefinition;
  knownTriggerIDs : gmap string bool;
  quiet : bool;                                       (* args.quiet *)
  disabledRuntimeFeatures : option (list string);     (* args.disabledRuntimeFeatures *)
  display : list (Sink * string);                     (* what was printed, oldest first *)
}.

Definition set_server (v : option Server) (e : t) : t :=
  {| port := port e; projectId := projectId e; server := v;
     functionsDir := functionsDir e; nodeBinary := nodeBinary e;
     triggers := triggers e; knownTriggerIDs := knownTriggerIDs e;
     quiet := quiet e; disabledRuntimeFeatures := disabledRuntimeFeatures e;
     display := display e |}.

Definition set_triggers (v : list EmulatedTriggerDefinition) (e : t) : t :=
  {| port := port e; projectId := projectId e; server := server e;
     functionsDir := functionsDir e; nodeBinary := nodeBinary e;
     triggers := v; knownTriggerIDs := knownTriggerIDs e;
     quiet := quiet e; disabledRuntimeFeatures := disabledRuntimeFeatures e;
     display := display e |}.

Definition set_knownTriggerIDs (v : gmap string bool) (e : t) : t :=
  {| port := port e; projectId := projectId e; server := server e;
     functionsDir := functionsDir e; nodeBinary := nodeBinary e;
     triggers := triggers e; knownTriggerIDs := v;
     quiet := quiet e; disabledRuntimeFeatures := disabledRuntimeFeatures e;
     display := display e |}.

Definition set_display (v : list (Sink * string)) (e : t) : t :=
  {| port := port e; projectId := projectId e; server := server e;
     functionsDir := functionsDir e; nodeBinary := nodeBinary e;
     triggers := triggers e; knownTriggerIDs := knownTriggerIDs e;
     quiet := quiet e; disabledRuntimeFeatures := disabledRuntimeFeatures e;
     display := v |}.

End FunctionsEmulator.

(** ** The request handler *)

(** The calls of [this.log] in the handler only print; they are not part of
    the state of an invocation. *)

(** [reqBody ? JSON.parse(reqBody) : undefined] *)
Definition parse_body (reqBody : string) : Result (option JSON) :=
  if String.eqb reqBody EmptyString then Ok None
  else match parse reqBody with
       | Some v => Ok (Some v)
       | None => Throw SyntaxError
       end.

Definition startFunctionRuntime `{External} (emu : FunctionsEmulator.t)
    (triggerName : string) (proto : option JSON) : Spawn :=
  spawn_worker (FunctionsEmulator.nodeBinary emu)
    {| ports_firestore := firestorePort;
       proto := proto;
       cwd := FunctionsEmulator.functionsDir emu;
       triggerId := triggerName;
       projectId := FunctionsEmulator.projectId emu;
       disabled_features := FunctionsEmulator.disabledRuntimeFeatures emu |}
    no_opts.

(** The handler up to its first [await].  A body that does not parse makes
    [JSON.parse] raise before [startFunctionRuntime] is reached. *)
Definition handler_begin `{External} (emu : FunctionsEmulator.t) (rq : Request)
  : Invocation :=
  match parse_body (rawBody rq) with
  | Throw e =>
      {| req := rq; spawns := []; runtime := fresh_runtime;
         triggerLog := Pending; phase := Failed e; res := fresh_response;
         tracked := []; runtimeReq := None; runtimeRes := None;
         uncaught := None |}
  | Ok proto =>
      {| req := rq;
         spawns := [startFunctionRuntime emu (trigger_name rq) proto];
         runtime := fresh_runtime;
         triggerLog := Pending; phase := AwaitReady; res := fresh_response;
         tracked := []; runtimeReq := None; runtimeRes := None;
         uncaught := None |}
  end.

(** The subscriber of the handler: [if (el.level === "FATAL") res.send(el.text)]. *)
Definition fatal_subscriber (el : EmulatorLog) (r : Response) : Result Response :=
  if String.eqb (level el) "FATAL" then res_send (text el) r else Ok r.

(** [emitter.emit("log", el)] calls the listeners in the order in which they
    were attached: the waiter of [ready] (InvokeRuntime), [handleRuntimeLog]
    (startFunctionRuntime; it only prints), the FATAL subscriber and the
    waiter of triggers-parsed (handler).  A listener that raises ends the
    call: the listeners after it are not run. *)
Definition emit (el : EmulatorLog) (st : Invocation) : Invocation :=
  let rt := runtime st in
  let rt1 := set_events (events rt ++ [el]) rt in
  let rt2 := set_readyLog
               (waitForLog_listener "SYSTEM" "runtime-status" (Some ready_filter)
                                    el (readyLog rt1)) rt1 in
  let st1 := set_runtime rt2 st in
  match fatal_subscriber el (res st1) with
  | Throw e => set_uncaught (Some e) st1
  | Ok r =>
      set_triggerLog
        (waitForLog_listener "SYSTEM" "triggers-parsed" None el (triggerLog st1))
        (set_res r st1)
  end.

(** One action of the supervisor; after an exception nothing more runs. *)
Definition perform (st : Invocation) (a : Action) : Invocation :=
  match uncaught st with
  | Some _ => st
  | None =>
      match a with
      | Emit el => emit el st
      | Kill sg => set_runtime (set_kills (kills (runtime st) ++ [sg]) (runtime st)) st
      end
  end.

(** The "data" callback of a worker pipe; [buf] is the text that
    [buffer.value += buf] makes of the chunk. *)
Definition on_pipe_data `{External} (p : Pipe) (buf : string) (st : Invocation)
  : Invocation :=
  let value := buffer_value p (runtime st) ++ buf in
  let st1 := set_runtime (set_buffer p value (runtime st)) st in
  let st2 := fold_left perform (data_actions value) st1 in
  match uncaught st2 with
  | Some _ => st2
  | None => set_runtime (set_buffer p (last_line value) (runtime st2)) st2
  end.

(** [.then((el) => { metadata.socketPath = el.data.socketPath })] *)
Definition then_ready (st : Invocation) : Invocation :=
  match readyLog (runtime st), ready (runtime st) with
  | Resolved el, Pending =>
      set_runtime (set_ready (socketPath (data el)) (runtime st)) st
  | _, _ => st
  end.

(** [_.get(definition, "eventTrigger.service", "unknown")] *)
Definition service_of (d : EmulatedTriggerDefinition) : string :=
  match eventTrigger d with
  | Some et => default "unknown" (service et)
  | None => "unknown"
  end.

(** [http.request({ method, path: req.url, headers: req.headers, socketPath })]
    and the forwarding of the buffered body. *)
Definition open_request (st : Invocation) : ClientRequest :=
  {| rq_method := method (req st);
     rq_path := url (req st);
     rq_headers := req_headers (req st);
     rq_socketPath := metadata_socketPath (runtime st);
     rq_body := if String.eqb (rawBody (req st)) EmptyString then None
                else Some (rawBody (req st)) |}.

(** From the lookup of the trigger to the next [await]. *)
Definition after_triggerLog (el : EmulatorLog) (st : Invocation) : Invocation :=
  match triggers (data el) with
  | None => set_phase (Failed TypeError) st
  | Some triggerMap =>
      match triggerMap !! trigger_name (req st) with
      | None => set_phase (Failed TypeError) st      (* trigger.definition *)
      | Some trigger =>
          if httpsTrigger (definition trigger)
          then set_phase AwaitExitProxy
                 (set_runtimeReq (Some (open_request st))
                    (set_tracked (tracked st ++ ["https"]) st))
          else set_phase AwaitExitAck
                 (set_tracked (tracked st ++ [service_of (definition trigger)]) st)
      end
  end.

(** The handler runs from the [await] at which it is suspended to the next
    one whose promise is still pending. *)
Definition resume (st : Invocation) : Invocation :=
  match phase st with
  | AwaitReady =>
      match ready (runtime st) with
      | Resolved _ => set_phase AwaitTriggerLog st
      | Rejected e => set_phase (Failed e) st
      | Pending => st
      end
  | AwaitTriggerLog =>
      match triggerLog st with
      | Resolved el => after_triggerLog el st
      | Rejected e => set_phase (Failed e) st
      | Pending => st
      end
  | AwaitExitAck =>
      match exit (runtime st) with
      | Resolved _ =>
          match res_json acknowledged (res st) with
          | Ok r => set_phase Returned (set_res r st)
          | Throw e => set_phase (Failed e) st
          end
      | Rejected e => set_phase (Failed e) st
      | Pending => st
      end
  | AwaitExitProxy =>
      match exit (runtime st) with
      | Resolved _ => set_phase Returned st
      | Rejected e => set_phase (Failed e) st
      | Pending => st
      end
  | Returned => st
  | Failed _ => st
  end.

(** The promise jobs that follow a callback: the handler passes at most
    three awaits. *)
Definition microtasks (st : Invocation) : Invocation :=
  resume (resume (resume (then_ready st))).

(** [runtimeRes.statusCode || 200] *)
Definition statusCode_or_200 (rr : IncomingMessage) : Z :=
  match im_statusCode rr with
  | Some c => if c =? 0 then 200 else c
  | None => 200
  end.

(** [if (val)] on a header value: an array is truthy, a string unless empty. *)
Definition truthy (v : HeaderVal) : bool :=
  match v with
  | One s => negb (String.eqb s EmptyString)
  | Many _ => true
  end.

Definition forward_header (acc : Result Response) (kv : string * HeaderVal)
  : Result Response :=
  match acc with
  | Ok r => if truthy (snd kv) then res_setHeader (fst kv) (snd kv) r else Ok r
  | Throw e => Throw e
  end.

Definition forwardStatusAndHeaders (rr : IncomingMessage) (r : Response)
  : Result Response :=
  let r1 := res_status (statusCode_or_200 rr) r in
  if negb (headersSent r1)
  then fold_left forward_header (im_headers rr) (Ok r1)
  else Ok r1.

(** The listeners on the worker's response. *)
Definition on_data (rr : IncomingMessage) (buf : string) (r : Response)
  : Response * option JsError :=
  match forwardStatusAndHeaders rr r with
  | Throw e => (r, Some e)
  | Ok r1 =>
      match res_write buf r1 with
      | Throw e => (r1, Some e)
      | Ok r2 => (r2, None)
      end
  end.

Definition on_close_or_end (rr : IncomingMessage) (r : Response)
  : Response * option JsError :=
  match forwardStatusAndHeaders rr r with
  | Throw e => (r, Some e)
  | Ok r1 => (res_end r1, None)
  end.

(** The callbacks that the environment runs for one invocation. *)
Inductive Event : Type :=
| PipeData (p : Pipe) (buf : string)   (* "data" on the worker's stdout or stderr *)
| WorkerExit (code : Z)                (* "exit" of the worker *)
| ResHead (rr : IncomingMessage)       (* the callback of http.request *)
| ResData (buf : string)               (* "data" on runtimeRes *)
| ResClose                             (* "close" on runtimeRes *)
| ResEnd                               (* "end" on runtimeRes *)
| ReqError                             (* "error" on runtimeReq *)
| PipeError.                           (* "error" on req.pipe(runtimeReq) *)

Definition callback `{External} (ev : Event) (st : Invocation) : Invocation :=
  match ev with
  | PipeData p buf => on_pipe_data p buf st
  | WorkerExit code =>
      set_runtime (set_exit (resolve (exit (runtime st)) code) (runtime st)) st
  | ResHead rr =>
      match runtimeReq st, runtimeRes st with
      | Some _, None => set_runtimeRes (Some rr) st
      | _, _ => st
      end
  | ResData buf =>
      match runtimeRes st with
      | Some rr => on_res (on_data rr buf) st
      | None => st
      end
  | ResClose | ResEnd =>
      match runtimeRes st with
      | Some rr => on_res (on_close_or_end rr) st
      | None => st
      end
  | ReqError | PipeError =>
      match runtimeReq st with
      | Some _ => set_res (res_end (res st)) st
      | None => st
      end
  end.

(** One turn of the event loop.  An uncaught exception ends the process. *)
Definition step `{External} (st : Invocation) (ev : Event) : Invocation :=
  match uncaught st with
  | Some _ => st
  | None =>
      let st1 := callback ev st in
      match uncaught st1 with
      | Some _ => st1
      | None => microtasks st1
      end
  end.

Definition run `{External} (st : Invocation) (evs : list Event) : Invocation :=
  fold_left step evs st.

(** The invocation of [rq] after the callbacks [evs]. *)
Definition invoke `{External} (emu : FunctionsEmulator.t) (rq : Request)
    (evs : list Event) : Invocation :=
  run (handler_begin emu rq) evs.

(** ** Logging with the quiet flag *)

Definition log (quiet : bool) (ty : LogType) (text : string) : list (Sink * string) :=
  if quiet && negb (match ty with USER => true | _ => false end)
  then [(logger_debug, text)]
  else match ty with
       | DEBUG => [(logger_debug, text)]
       | INFO => [(logger_info, text)]
       | USER => [(logger_info, text)]
       | BULLET => [(logBullet, text)]
       | WARN => [(logWarning, text)]
       | SUCCESS => [(logSuccess, text)]
       end.

Definition logLabeled (quiet : bool) (ty : LogType) (label text : string)
  : list (Sink * string) :=
  if quiet then [(logger_debug, "[" ++ label ++ "] " ++ text)]
  else match ty with
       | BULLET => [(logLabeledBullet label, text)]
       | SUCCESS => [(logLabeledSuccess label, text)]
       | _ => []
       end.

Definition this_log (ty : LogType) (text : string) (e : FunctionsEmulator.t)
  : FunctionsEmulator.t :=
  FunctionsEmulator.set_display
    (FunctionsEmulator.display e ++ log (FunctionsEmulator.quiet e) ty text) e.

Definition this_logLabeled (ty : LogType) (label text : string)
    (e : FunctionsEmulator.t) : FunctionsEmulator.t :=
  FunctionsEmulator.set_display
    (FunctionsEmulator.display e
       ++ logLabeled (FunctionsEmulator.quiet e) ty label text) e.

(** ** The trigger loader and the sibling registrar *)

Definition getHttpFunctionUrl (port : Z) (projectId name region : string) : string :=
  "http://localhost:" ++ pretty port ++ "/" ++ projectId ++ "/" ++ region
    ++ "/" ++ name.

(** [this.knownTriggerIDs] is created by [{}], so a lookup on it also finds
    what every object inherits from [Object.prototype]: the methods below,
    which are functions, and the accessor [__proto__]. *)
Definition Object_prototype : list string :=
  ["constructor"; "hasOwnProperty"; "isPrototypeOf"; "propertyIsEnumerable";
   "toLocaleString"; "toString"; "valueOf"; "__defineGetter__";
   "__defineSetter__"; "__lookupGetter__"; "__lookupSetter__"].

Definition inherited (n : string) : bool :=
  existsb (String.eqb n) Object_prototype.

(** The truth value of [this.knownTriggerIDs[n]], for the own properties
    [known]: an own property hides an inherited one, an inherited method is
    truthy, and [__proto__] gives the prototype, which is truthy.
    [!this.knownTriggerIDs[definition.name]] is [negb (is_known _ _)]. *)
Definition is_known (known : gmap string bool) (n : string) : bool :=
  if String.eqb n "__proto__" then true
  else match known !! n with
       | Some b => b
       | None => inherited n
       end.

(** [this.knownTriggerIDs[n] = true]: an own property, except for
    [__proto__], whose setter ignores a value that is not an object. *)
Definition mark_known (n : string) (known : gmap string bool)
  : gmap string bool :=
  if String.eqb n "__proto__" then known else <[n := true]> known.

Definition firestore_url (firestorePort : Z) (projectId name : string) : string :=
  "http://localhost:" ++ pretty firestorePort ++ "/emulator/v1/projects/"
    ++ projectId ++ "/triggers/" ++ name.

(** [addFirestoreTrigger]: the emulator after the call and the promise that
    the call returns, in the state it reaches.  When [JSON.parse(body)]
    raises inside the callback neither [resolve] nor [reject] is called. *)
Definition addFirestoreTrigger `{External} (projectId : string)
    (d : EmulatedTriggerDefinition) (e : FunctionsEmulator.t)
  : FunctionsEmulator.t * Promise unit :=
  match firestorePort with
  | Some fp =>
      if fp =? 0
      then (this_log WARN
              ("Ignoring trigger " ++ quoted (name d)
                 ++ " because the Cloud Firestore emulator is not running.") e,
            Resolved tt)
      else
        let bundle := stringify_bundle (eventTrigger d) in
        let e0 := this_logLabeled BULLET "functions"
                    ("Setting up Cloud Firestore trigger " ++ quoted (name d)) e in
        (* logger.debug("addFirestoreTrigger", JSON.stringify(bundle)) *)
        let e1 := FunctionsEmulator.set_display
                    (FunctionsEmulator.display e0
                       ++ [(logger_debug, "addFirestoreTrigger")]) e0 in
        match request_put (firestore_url fp projectId (name d)) bundle with
        | PutError err =>
            (this_log WARN ("Error adding trigger: " ++ err) e1, Rejected NoReason)
        | PutBody body =>
            match parse body with
            | None => (e1, Pending)
            | Some (JObject []) =>
                (this_logLabeled SUCCESS "functions"
                   ("Trigger " ++ quoted (name d)
                      ++ " has been acknowledged by the Cloud Firestore emulator.") e1,
                 Resolved tt)
            | Some _ => (e1, Resolved tt)
            end
        end
  | None =>
      (this_log WARN
         ("Ignoring trigger " ++ quoted (name d)
            ++ " because the Cloud Firestore emulator is not running.") e,
       Resolved tt)
  end.

(** The body of the loop of [loadTriggers] before
    [this.knownTriggerIDs[definition.name] = true]. *)
Definition setup_trigger `{External} (d : EmulatedTriggerDefinition)
    (e : FunctionsEmulator.t) : FunctionsEmulator.t * Promise unit :=
  if httpsTrigger d
  then
    let region := getFunctionRegion d in
    let url := getHttpFunctionUrl (FunctionsEmulator.port e)
                 (FunctionsEmulator.projectId e) (name d) region in
    (this_logLabeled BULLET "functions"
       ("HTTP trigger initialized at " ++ clc_bold url) e, Resolved tt)
  else
    let service := service_of d in
    if String.eqb service SERVICE_FIRESTORE
    then addFirestoreTrigger (FunctionsEmulator.projectId e) d e
    else
      (this_log WARN
         ("Ignoring trigger " ++ quoted (name d) ++ " because the service "
            ++ quoted service ++ " is not yet supported.")
         (this_log DEBUG ("Unsupported trigger: " ++ stringify_definition d) e),
       Resolved tt).

(** [for (const definition of toSetup)]: an [await] on a rejected promise
    raises, which leaves the loop and rejects the promise of [loadTriggers];
    on a promise that never settles the loader stays suspended. *)
Fixpoint setup_triggers `{External} (toSetup : list EmulatedTriggerDefinition)
    (e : FunctionsEmulator.t) : FunctionsEmulator.t * Promise unit :=
  match toSetup with
  | [] => (e, Resolved tt)
  | d :: rest =>
      match setup_trigger d e with
      | (e1, Resolved _) =>
          setup_triggers rest
            (FunctionsEmulator.set_knownTriggerIDs
               (mark_known (name d) (FunctionsEmulator.knownTriggerIDs e1)) e1)
      | (e1, Rejected err) => (e1, Rejected err)
      | (e1, Pending) => (e1, Pending)
      end
  end.

Definition toSetup_of (known : gmap string bool)
    (triggerDefinitions : list EmulatedTriggerDefinition)
  : list EmulatedTriggerDefinition :=
  List.filter (fun d => negb (is_known known (name d))) triggerDefinitions.

(** The closure [loadTriggers] of [connect] from the arrival of the
    triggers-parsed record on, with the answer to every PUT taken at once.
    The diagnostic worker that the closure spawns before, the records of
    that worker, which [handleRuntimeLog] prints, and the turns of the event
    loop between a PUT and its answer are followed in [reload] below. *)
Definition loadTriggers `{External} (triggerParseEvent : EmulatorLog)
    (e : FunctionsEmulator.t) : FunctionsEmulator.t * Promise unit :=
  match triggerDefinitions (data triggerParseEvent) with
  | None => (e, Rejected TypeError)
  | Some defs =>
      setup_triggers (toSetup_of (FunctionsEmulator.knownTriggerIDs e) defs)
                     (FunctionsEmulator.set_triggers defs e)
  end.

(** ** stop *)

(** [Promise.resolve(this.server && this.server.close())] in an [async]
    function: the value is dropped and the promise of [stop] is resolved when
    the body returns. *)
Definition stop (e : FunctionsEmulator.t) : FunctionsEmulator.t * Promise unit :=
  (FunctionsEmulator.set_server (server_close <$> FunctionsEmulator.server e) e,
   Resolved tt).

(** The "close" event of the server, some time after [close()]. *)
Definition server_closed (e : FunctionsEmulator.t) : FunctionsEmulator.t :=
  match FunctionsEmulator.server e with
  | Some Closing => FunctionsEmulator.set_server (Some Closed) e
  | _ => e
  end.

(** ** A sample project, for the examples *)

Definition echo_definition : EmulatedTriggerDefinition :=
  {| name := "echo"; httpsTrigger := true; eventTrigger := None |}.

Definition onWrite_definition : EmulatedTriggerDefinition :=
  {| name := "onWrite"; httpsTrigger := false;
     eventTrigger := Some {| service := Some "firestore.googleapis.com";
                             resource := "projects/demo-proj/documents/a" |} |}.

Definition onAuth_definition : EmulatedTriggerDefinition :=
  {| name := "onAuth"; httpsTrigger := false;
     eventTrigger := Some {| service := Some "firebase.auth";
                             resource := "projects/demo-proj" |} |}.

Definition sample_triggers : gmap string EmulatedTrigger :=
  <["onWrite" := {| definition := onWrite_definition |}]>
  (<["echo" := {| definition := echo_definition |}]> ∅).

Definition ready_log : EmulatorLog :=
  {| level := "SYSTEM"; type := "runtime-status"; text := "ready";
     data := {| socketPath := Some "/tmp/w1.sock"; triggers := None;
                triggerDefinitions := None |} |}.

Definition triggers_log : EmulatorLog :=
  {| level := "SYSTEM"; type := "triggers-parsed"; text := EmptyString;
     data := {| socketPath := None; triggers := Some sample_triggers;
                triggerDefinitions :=
                  Some [onWrite_definition; echo_definition] |} |}.

Definition boom_log : EmulatorLog :=
  {| level := "FATAL"; type := "runtime-error"; text := "boom"; data := no_data |}.

Definition hello_log : EmulatorLog :=
  {| level := "USER"; type := "function-log"; text := "hello"; data := no_data |}.

(** A stand-in for [EmulatorLog.fromJSON]: the lines [ready], [triggers],
    [boom] and [hello] carry the records above. *)
Definition sample_fromJSON (line : string) : EmulatorLog :=
  if String.eqb line "ready" then ready_log
  else if String.eqb line "triggers" then triggers_log
  else if String.eqb line "boom" then boom_log
  else if String.eqb line "hello" then hello_log
  else {| level := "USER"; type := "function-log"; text := line; data := no_data |}.

(** A host on which the Firestore emulator listens on 8080 and refuses the
    registration of [onWrite]. *)
Definition sample_put (url body : string) : PutReply :=
  if String.eqb url
       "http://localhost:8080/emulator/v1/projects/demo-proj/triggers/onWrite"
  then PutError "Error: connect ECONNREFUSED 127.0.0.1:8080"
  else PutBody "{}".

Definition sample_host : External :=
  {| fromJSON := sample_fromJSON;
     getFunctionRegion := fun _ => "us-central1";
     stringify_definition := name;
     firestorePort := Some 8080;
     process_env := <["PATH" := "/usr/bin"]> (<["HOME" := "/root"]> ∅);
     SERVICE_FIRESTORE := "firestore.googleapis.com";
     stringify_bundle := fun et => match et with
                                   | Some t => resource t
                                   | None => EmptyString
                                   end;
     clc_bold := fun s => s;
     request_put := sample_put |}.

(** The same host without a Firestore emulator. *)
Definition offline_host : External :=
  {| fromJSON := sample_fromJSON;
     getFunctionRegion := fun _ => "us-central1";
     stringify_definition := name;
     firestorePort := None;
     process_env := ∅;
     SERVICE_FIRESTORE := "firestore.googleapis.com";
     stringify_bundle := fun _ => EmptyString;
     clc_bold := fun s => s;
     request_put := sample_put |}.

(** A triggers-parsed record of a diagnostic run with three triggers. *)
Definition three_triggers_log : EmulatorLog :=
  {| level := "SYSTEM"; type := "triggers-parsed"; text := EmptyString;
     data := {| socketPath := None; triggers := None;
                triggerDefinitions :=
                  Some [echo_definition; onWrite_definition; onAuth_definition] |} |}.

Definition sample_emulator : FunctionsEmulator.t :=
  {| FunctionsEmulator.port := 5001;
     FunctionsEmulator.projectId := "demo-proj";
     FunctionsEmulator.server := Some Listening;
     FunctionsEmulator.functionsDir := "/srv/demo/functions";
     FunctionsEmulator.nodeBinary := "/usr/bin/node";
     FunctionsEmulator.triggers := [];
     FunctionsEmulator.knownTriggerIDs := ∅;
     FunctionsEmulator.quiet := false;
     FunctionsEmulator.disabledRuntimeFeatures := None;
     FunctionsEmulator.display := [] |}.

Definition sample_request (triggerName body : string) : Request :=
  {| method := "POST";
     url := "/demo-proj/us-central1/" ++ triggerName;
     req_headers := [("content-type", One "application/json")];
     trigger_name := triggerName;
     rawBody := body |}.

Definition nl : string := String newline EmptyString.

(** The worker's answer to the echo request. *)
Definition echo_head : IncomingMessage :=
  {| im_statusCode := Some 200;
     im_headers := [("content-type", One "text/plain"); ("x-empty", One EmptyString)] |}.

Definition sample_payload : string :=
  "{" ++ quoted "path" ++ ":" ++ quoted "/a" ++ "}".

(** The event trigger [onWrite], invoked; its worker has announced the
    triggers and its socket. *)
Definition onWrite_ready : Invocation :=
  @invoke sample_host sample_emulator (sample_request "onWrite" sample_payload)
    [PipeData Stdout ("triggers" ++ nl ++ "ready" ++ nl)].

(** The worker of [echo] sends a head and some bytes, then logs a FATAL
    record. *)
Definition partial_then_fatal : list Event :=
  [PipeData Stdout ("triggers" ++ nl ++ "ready" ++ nl);
   ResHead echo_head; ResData "par"; PipeData Stderr ("boom" ++ nl)].

Definition echo_request : Request := sample_request "echo" EmptyString.

Definition onWrite_request : Request := sample_request "onWrite" sample_payload.

Definition ghost_request : Request := sample_request "ghost" sample_payload.

(** A worker that announces its triggers and its socket, then exits. *)
Definition started_then_exit : list Event :=
  [PipeData Stdout ("triggers" ++ nl ++ "ready" ++ nl); WorkerExit 0].

(** A request whose body is not JSON. *)
Definition hello_request : Request := sample_request "onWrite" "hello".

(** A worker that logs one line and exits without the ready record. *)
Definition exits_unready : list Event :=
  [PipeData Stdout ("hello" ++ nl); WorkerExit 1].

(** ** Notions used in the statements *)

(** The test of the listener of [waitForLog]. *)
Definition matches (lvl ty : string) (filter : option (EmulatorLog -> bool))
    (el : EmulatorLog) : bool :=
  String.eqb (level el) lvl && String.eqb (type el) ty &&
  match filter with
  | Some f => f el
  | None => true
  end.

(** The records among runtime events, in order. *)
Definition logs_of (evs : list RuntimeEvent) : list EmulatorLog :=
  flat_map (fun ev => match ev with Log el => [el] | Exit _ => [] end) evs.

(** The records and the signals of a script, in order. *)
Definition emitted (script : list Action) : list EmulatorLog :=
  flat_map (fun a => match a with Emit el => [el] | Kill _ => [] end) script.

Definition signals (script : list Action) : list (option string) :=
  flat_map (fun a => match a with Kill sg => [sg] | Emit _ => [] end) script.

Definition is_fatal (el : EmulatorLog) : bool := String.eqb (level el) "FATAL".

(** The record that announces the socket of the worker. *)
Definition is_ready (el : EmulatorLog) : bool :=
  matches "SYSTEM" "runtime-status" (Some ready_filter) el.

(** No FATAL record, no ready record on the event stream so far. *)
Definition fatal_free (st : Invocation) : Prop :=
  forallb (fun el => negb (is_fatal el)) (events (runtime st)) = true.

Definition never_ready (st : Invocation) : Prop :=
  forallb (fun el => negb (is_ready el)) (events (runtime st)) = true.

(** The lookup [triggerMap[triggerName]] followed by [trigger.definition.httpsTrigger],
    on a triggers-parsed record. *)
Definition lookup_trigger (el : EmulatorLog) (triggerName : string) : Result bool :=
  match triggers (data el) with
  | None => Throw TypeError
  | Some triggerMap =>
      match triggerMap !! triggerName with
      | None => Throw TypeError
      | Some trigger => Ok (httpsTrigger (definition trigger))
      end
  end.

(** What the lookup of the handler gives, once the record has arrived. *)
Definition looked_up (st : Invocation) : option (Result bool) :=
  match triggerLog st with
  | Resolved el => Some (lookup_trigger el (trigger_name (req st)))
  | _ => None
  end.

(** A trigger whose set-up in [loadTriggers] ends well: an HTTP trigger, a
    trigger of a service that is not supported, or a Firestore trigger when
    the sibling is absent or answers with JSON. *)
Definition setup_ok `{External} (projectId : string)
    (d : EmulatedTriggerDefinition) : bool :=
  httpsTrigger d ||
  negb (String.eqb (service_of d) SERVICE_FIRESTORE) ||
  match firestorePort with
  | None => true
  | Some fp =>
      (fp =? 0) ||
      match request_put (firestore_url fp projectId (name d))
                        (stringify_bundle (eventTrigger d)) with
      | PutError _ => false
      | PutBody body => match parse body with Some _ => true | None => false end
      end
  end.

(** A Firestore trigger whose PUT fails with the transport error [err]. *)
Definition put_fails `{External} (projectId : string)
    (d : EmulatedTriggerDefinition) (err : string) : Prop :=
  httpsTrigger d = false /\
  service_of d = SERVICE_FIRESTORE /\
  exists fp, firestorePort = Some fp /\ fp <> 0 /\
    request_put (firestore_url fp projectId (name d))
                (stringify_bundle (eventTrigger d)) = PutError err.

(** The names that a completed part of the loop has added. *)
Definition add_known (known : gmap string bool)
    (done : list EmulatedTriggerDefinition) : gmap string bool :=
  fold_left (fun m d => mark_known (name d) m) done known.

(** The response object agrees with what has gone out: the head at most
    once, the end at most once, and no end without the head. *)
Definition response_ok (r : Response) : Prop :=
  (finished r = true -> headersSent r = true) /\
  count_fin (wire r) = (if finished r then 1 else 0)%nat /\
  count_head (wire r) = (if headersSent r then 1 else 0)%nat.

(** The response of the handler after [res.send(body)] on it as it was
    handed over. *)
Definition sent (body : string) : Response :=
  {| statusCode := 200; headers := cors_headers; headersSent := true;
     finished := true;
     wire := [Head 200 cors_headers; Chunk body; Fin] |}.

Definition has_fatal (st : Invocation) : Prop :=
  exists el, In el (events (runtime st)) /\ is_fatal el = true.

(** What the handler has been through when it is at [phase st]. *)
Definition phase_ok (st : Invocation) : Prop :=
  match phase st with
  | AwaitReady => runtimeReq st = None
  | AwaitTriggerLog =>
      ready (runtime st) = Resolved tt /\ runtimeReq st = None
  | AwaitExitAck =>
      ready (runtime st) = Resolved tt /\ runtimeReq st = None /\
      looked_up st = Some (Ok false)
  | AwaitExitProxy =>
      ready (runtime st) = Resolved tt /\ runtimeReq st <> None /\
      looked_up st = Some (Ok true)
  | Returned =>
      ready (runtime st) = Resolved tt /\
      (exists code, exit (runtime st) = Resolved code) /\
      ((runtimeReq st = None /\ looked_up st = Some (Ok false) /\
        res st = sent acknowledged) \/
       (runtimeReq st <> None /\ looked_up st = Some (Ok true)))
  | Failed SyntaxError =>
      parse_body (rawBody (req st)) = Throw SyntaxError /\
      spawns st = [] /\ runtimeReq st = None
  | Failed TypeError =>
      ready (runtime st) = Resolved tt /\ runtimeReq st = None /\
      looked_up st = Some (Throw TypeError)
  | Failed ERR_HTTP_HEADERS_SENT =>
      ready (runtime st) = Resolved tt /\ runtimeReq st = None /\
      looked_up st = Some (Ok false) /\
      (exists code, exit (runtime st) = Resolved code) /\ has_fatal st
  | Failed _ => False
  end.

(** What holds of an invocation at every moment. *)
Record stable (st : Invocation) : Prop := {
  st_response : response_ok (res st);
  st_runtimeRes : runtimeRes st <> None -> runtimeReq st <> None;
  st_proxied : runtimeReq st <> None -> looked_up st = Some (Ok true);
  st_readyLog :
    match readyLog (runtime st) with
    | Pending => True
    | Resolved el => In el (events (runtime st)) /\ is_ready el = true
    | Rejected _ => False
    end;
  st_ready :
    match ready (runtime st) with
    | Pending => True
    | Resolved _ => exists el, readyLog (runtime st) = Resolved el
    | Rejected _ => False
    end;
  st_exit : forall e, exit (runtime st) <> Rejected e;
  st_triggerLog : forall e, triggerLog st <> Rejected e;
  st_phase : phase_ok st;
  st_unproxied :
    runtimeReq st = None ->
    res st = fresh_response \/
    (exists el, In el (events (runtime st)) /\ is_fatal el = true /\
                res st = sent (text el)) \/
    (phase st = Returned /\ res st = sent acknowledged);
  st_uncaught :
    forall e, uncaught st = Some e -> runtimeReq st <> None \/ has_fatal st;
}.

(** No promise job is runnable: what holds between two callbacks while the
    process is alive. *)
Definition quiescent (st : Invocation) : Prop :=
  then_ready st = st /\ resume st = st.

(** How far the handler has come. *)
Definition rank (ph : Phase) : nat :=
  match ph with
  | AwaitReady => 0
  | AwaitTriggerLog => 1
  | AwaitExitAck | AwaitExitProxy => 2
  | Returned | Failed _ => 3
  end.

(** The exit code that the callbacks deliver first. *)
Fixpoint exit_code_of (evs : list Event) : option Z :=
  match evs with
  | [] => None
  | WorkerExit code :: _ => Some code
  | _ :: rest => exit_code_of rest
  end.

(** Neither the request nor the list of spawned workers changes. *)
Definition same_request (st st' : Invocation) : Prop :=
  req st' = req st /\ spawns st' = spawns st.

(** The callbacks on which the handler calls [res.end()]. *)
Definition ends_response (ev : Event) : bool :=
  match ev with
  | ResClose | ResEnd | ReqError | PipeError => true
  | _ => false
  end.

(** * Further code of the file *)

(** ** More notions: the framing of a pipe *)

(** [lines.join("\n")] *)
Fixpoint join_lines (lines : list string) : string :=
  match lines with
  | [] => EmptyString
  | [l] => l
  | l :: rest => l ++ String newline (join_lines rest)
  end.

Fixpoint has_newline (s : string) : bool :=
  match s with
  | EmptyString => false
  | String c rest => Ascii.eqb c newline || has_newline rest
  end.

(** [lines.slice(0, -1)]: the lines that are complete. *)
Definition complete_lines (value : string) : list string :=
  List.removelast (split_lines value).

(** ** More notions: the handler *)

(** [triggerMap[triggerName]] on the triggers-parsed record of the handler. *)
Definition found_trigger (st : Invocation) : option EmulatedTrigger :=
  match triggerLog st with
  | Resolved el =>
      match triggers (data el) with
      | Some triggerMap => triggerMap !! trigger_name (req st)
      | None => None
      end
  | _ => None
  end.

(** The second argument of [track(EVENT_INVOKE, _)]. *)
Definition metric_tag (d : EmulatedTriggerDefinition) : string :=
  if httpsTrigger d then "https" else service_of d.

(** The handler has not passed the lookup of the trigger. *)
Definition before_lookup (ph : Phase) : bool :=
  match ph with
  | AwaitReady | AwaitTriggerLog | Failed SyntaxError | Failed TypeError => true
  | _ => false
  end.

(** The waiter of [ready] follows the event stream, the metadata hold the
    socket of the record that resolved it, the request to the worker is the
    one that [http.request] was given, and [track] was called once the
    trigger was found. *)
Definition request_ok (st : Invocation) : Prop :=
  readyLog (runtime st)
  = waitForLog "SYSTEM" "runtime-status" (Some ready_filter)
      (map Log (events (runtime st))) /\
  match ready (runtime st) with
  | Resolved _ =>
      exists el, readyLog (runtime st) = Resolved el /\
                 metadata_socketPath (runtime st) = socketPath (data el)
  | _ => True
  end /\
  match runtimeReq st with
  | Some rq => ready (runtime st) = Resolved tt /\ rq = open_request st
  | None => True
  end /\
  (if before_lookup (phase st) then tracked st = []
   else exists t, found_trigger st = Some t /\
                  tracked st = [metric_tag (definition t)]).

(** A status that the emulator sends: 200, or the one of the worker. *)
Definition status_from (rr : option IncomingMessage) (status : Z) : Prop :=
  status = 200 \/ exists m, rr = Some m /\ status = statusCode_or_200 m.

Definition wire_ok (rr : option IncomingMessage) (r : Response) : Prop :=
  status_from rr (statusCode r) /\
  match wire r with
  | [] => headersSent r = false
  | Head status _ :: _ => headersSent r = true /\ status_from rr status
  | _ => False
  end.

(** The bytes of the chunks, in order. *)
Definition concat_bytes (bufs : list string) : string :=
  fold_right String.append EmptyString bufs.

(** The emulator of the examples, started with [--quiet]. *)
Definition quiet_emulator : FunctionsEmulator.t :=
  {| FunctionsEmulator.port := 5001;
     FunctionsEmulator.projectId := "demo-proj";
     FunctionsEmulator.server := Some Listening;
     FunctionsEmulator.functionsDir := "/srv/demo/functions";
     FunctionsEmulator.nodeBinary := "/usr/bin/node";
     FunctionsEmulator.triggers := [];
     FunctionsEmulator.knownTriggerIDs := ∅;
     FunctionsEmulator.quiet := true;
     FunctionsEmulator.disabledRuntimeFeatures := None;
     FunctionsEmulator.display := [] |}.

(** A worker's answer with a status of its own. *)
Definition missing_head : IncomingMessage :=
  {| im_statusCode := Some 404; im_headers := [] |}.

(** What a call has printed: the lines of [e'] after those of [e]. *)
Definition printed (e e' : FunctionsEmulator.t) (lines : list (Sink * string)) : Prop :=
  FunctionsEmulator.display e' = (FunctionsEmulator.display e ++ lines)%list.

(** [getTriggers()] *)
Definition getTriggers (e : FunctionsEmulator.t) : list EmulatedTriggerDefinition :=
  FunctionsEmulator.triggers e.

(** ** handleRuntimeLog and handleSystemLog *)

(** What the log handlers read of a record besides the fields above, and
    the colouring of [cli-color]: the development holds for every choice of
    these. *)
Class Display : Type := {
  (* the text that a template literal gives for systemLog.data[key] *)
  data_text : LogData -> string -> string;
  (* the truth value of systemLog.data.isDev *)
  data_isDev : LogData -> bool;
  (* clc.blackBright *)
  clc_blackBright : string -> string;
}.

Definition killed_warning : string :=
  "Your function was killed because it raised an unhandled error.".

Definition admin_warning : string :=
  "The Firebase Admin module has not been initialized early enough. Make sure you run "
    ++ quoted "admin.initializeApp()"
    ++ " outside of any function and at the top of your code".

Definition no_package_warning : string :=
  "The Cloud Functions directory you specified does not have a "
    ++ quoted "package.json" ++ " file, so we can't load it.".

(** [utils.logWarning(text)], called without [this.log]. *)
Definition utils_logWarning (text : string) (e : FunctionsEmulator.t)
  : FunctionsEmulator.t :=
  FunctionsEmulator.set_display
    (FunctionsEmulator.display e ++ [(logWarning, text)]) e.

(** The [switch] on [systemLog.type].  The label [missing-package-json]
    occurs twice; a [switch] runs the first clause that matches, so the
    second one, which calls [utils.logWarning], is never reached. *)
Definition handleSystemLog `{Display} (systemLog : EmulatorLog)
    (e : FunctionsEmulator.t) : FunctionsEmulator.t :=
  let d := data systemLog in
  let ty := type systemLog in
  if String.eqb ty "runtime-status" then
    if String.eqb (text systemLog) "killed"
    then this_log WARN killed_warning e
    else e
  else if String.eqb ty "googleapis-network-access" then
    this_log WARN
      ("Google API requested!" ++ nl ++ "   - URL: " ++ quoted (data_text d "href")
         ++ nl ++ "   - Be careful, this may be a production service.") e
  else if String.eqb ty "unidentified-network-access" then
    this_log WARN
      ("Unknown network resource requested!" ++ nl ++ "   - URL: "
         ++ quoted (data_text d "href")) e
  else if String.eqb ty "functions-config-missing-value" then
    this_log WARN
      ("Non-existent functions.config() value requested!" ++ nl ++ "   - Path: "
         ++ quoted (data_text d "valuePath") ++ nl
         ++ "   - Learn more at https://firebase.google.com/docs/functions/local-emulator") e
  else if String.eqb ty "default-admin-app-used" then
    this_log WARN ("Default " ++ quoted "firebase-admin" ++ " instance created!") e
  else if String.eqb ty "non-default-admin-app-used" then
    this_log WARN
      ("Non-default " ++ quoted "firebase-admin" ++ " instance created!" ++ nl
         ++ "   "
         ++ "- This instance will *not* be mocked and will access production resources.") e
  else if String.eqb ty "missing-module" then
    this_log WARN
      ("The Cloud Functions emulator requires the module "
         ++ quoted (data_text d "name") ++ " to be installed as a "
         ++ (if data_isDev d then "development dependency" else "dependency")
         ++ ". To fix this, run "
         ++ quoted ("npm install " ++ (if data_isDev d then "--save-dev" else "--save")
                      ++ " " ++ data_text d "name")
         ++ " in your functions directory.") e
  else if String.eqb ty "uninstalled-module" then
    this_log WARN
      ("The Cloud Functions emulator requires the module "
         ++ quoted (data_text d "name")
         ++ " to be installed. This package is in your package.json, but it's not available. "
         ++ "You probably need to run " ++ quoted "npm install"
         ++ " in your functions directory.") e
  else if String.eqb ty "out-of-date-module" then
    this_log WARN
      ("The Cloud Functions emulator requires the module "
         ++ quoted (data_text d "name") ++ " to be version >"
         ++ data_text d "minVersion" ++ ".0.0 so your version is too old. "
         ++ "You can probably fix this by running "
         ++ quoted ("npm install " ++ data_text d "name" ++ "@latest")
         ++ " in your functions directory.") e
  else if String.eqb ty "missing-package-json" then
    this_log WARN no_package_warning e
  else if String.eqb ty "admin-not-initialized" then
    utils_logWarning admin_warning e
  else e.

(** The [switch] on [log.level]. *)
Definition handleRuntimeLog `{Display} (log : EmulatorLog)
    (e : FunctionsEmulator.t) : FunctionsEmulator.t :=
  let lv := level log in
  if String.eqb lv "SYSTEM" then handleSystemLog log e
  else if String.eqb lv "USER" then
    this_log USER (clc_blackBright "> " ++ " " ++ text log) e
  else if String.eqb lv "DEBUG" then this_log DEBUG (text log) e
  else if String.eqb lv "INFO" then this_logLabeled BULLET "functions" (text log) e
  else if String.eqb lv "WARN" then this_log WARN (text log) e
  else if String.eqb lv "FATAL" then this_log WARN (text log) e
  else this_log INFO (lv ++ ": " ++ text log) e.

(** The listener [handleRuntimeLog] on the records that the supervisor
    emits, in order. *)
Definition display_all `{Display} (els : list EmulatorLog)
    (e : FunctionsEmulator.t) : FunctionsEmulator.t :=
  fold_left (fun acc el => handleRuntimeLog el acc) els e.

(** A terminal without colours. *)
Definition plain_display : Display :=
  {| data_text := fun d key =>
       if String.eqb key "socketPath" then default "undefined" (socketPath d)
       else "undefined";
     data_isDev := fun _ => false;
     clc_blackBright := fun s => s |}.

Definition admin_log : EmulatorLog :=
  {| level := "SYSTEM"; type := "admin-not-initialized"; text := EmptyString;
     data := no_data |}.

(** ** askInstallNodeVersion *)









(** The response is as the handler got it, or something has gone out. *)
Definition untouched_or_sent (r : Response) : Prop :=
  r = fresh_response \/ wire r <> [].

(** The "error" callbacks of the request to the worker. *)
Definition is_error (ev : Event) : bool :=
  match ev with
  | ReqError | PipeError => true
  | _ => false
  end.

(** The handler holds the head of the worker's response, no callback has
    raised and the outbound response is open. *)
Definition streaming (rr : IncomingMessage) (st : Invocation) : Prop :=
  stable st /\ uncaught st = None /\ runtimeRes st = Some rr /\
  finished (res st) = false.

(** In quiet mode the loader prints through [logger.debug] only. *)
Definition hushed (quiet : bool) (lines : list (Sink * string)) : Prop :=
  quiet = true -> Forall (fun l => fst l = logger_debug) lines.

(** ** The reload of the triggers with its diagnostic worker

    [loadTriggers] above is the closure of [connect] from the arrival of the
    triggers-parsed record on, with every PUT answered at once.  Before that
    the closure spawns a diagnostic worker and subscribes [handleRuntimeLog]
    to its records, and the answer to a PUT arrives in a later turn of the
    event loop, so that records of the worker are printed in between.  The
    definitions below follow a reload callback by callback. *)

(** [diagnosticBundle]: [ports: {}], no [proto], the empty trigger id. *)
Definition diagnosticBundle (e : FunctionsEmulator.t) : FunctionsRuntimeBundle :=
  {| ports_firestore := None;
     proto := None;
     cwd := FunctionsEmulator.functionsDir e;
     triggerId := EmptyString;
     projectId := FunctionsEmulator.projectId e;
     disabled_features := FunctionsEmulator.disabledRuntimeFeatures e |}.

(** The port to which the set-up of [d] sends a PUT, if it sends one: [d] is
    a Firestore trigger and the Firestore emulator has a port. *)
Definition put_port `{External} (d : EmulatedTriggerDefinition) : option Z :=
  if httpsTrigger d then None
  else if String.eqb (service_of d) SERVICE_FIRESTORE
       then match firestorePort with
            | Some fp => if fp =? 0 then None else Some fp
            | None => None
            end
       else None.

(** [addFirestoreTrigger] up to the call of [request.put]. *)
Definition put_request (d : EmulatedTriggerDefinition) (e : FunctionsEmulator.t)
  : FunctionsEmulator.t :=
  let e0 := this_logLabeled BULLET "functions"
              ("Setting up Cloud Firestore trigger " ++ quoted (name d)) e in
  FunctionsEmulator.set_display
    (FunctionsEmulator.display e0 ++ [(logger_debug, "addFirestoreTrigger")]) e0.

(** The callback of [request.put] and the state in which it leaves the
    promise of [addFirestoreTrigger]; the promise stays pending when
    [JSON.parse(body)] raises in the callback. *)
Definition put_callback `{External} (projectId : string) (fp : Z)
    (d : EmulatedTriggerDefinition) (e : FunctionsEmulator.t)
  : FunctionsEmulator.t * Promise unit :=
  match request_put (firestore_url fp projectId (name d))
                    (stringify_bundle (eventTrigger d)) with
  | PutError err =>
      (this_log WARN ("Error adding trigger: " ++ err) e, Rejected NoReason)
  | PutBody body =>
      match parse body with
      | None => (e, Pending)
      | Some (JObject []) =>
          (this_logLabeled SUCCESS "functions"
             ("Trigger " ++ quoted (name d)
                ++ " has been acknowledged by the Cloud Firestore emulator.") e,
           Resolved tt)
      | Some _ => (e, Resolved tt)
      end
  end.

(** Where the closure [loadTriggers] is suspended. *)
Inductive LoaderPhase : Type :=
| AwaitParsed            (* await waitForLog(..., "triggers-parsed") *)
| AwaitPut (fp : Z) (d : EmulatedTriggerDefinition)
           (rest : list EmulatedTriggerDefinition)
                         (* await this.addFirestoreTrigger(...), the PUT under way *)
| Loaded                 (* the closure has returned *)
| LoadFailed (e : JsError)   (* the closure raised: its promise is rejected *)
| PutRaised (e : JsError).   (* an exception left the callback of request.put *)

Record Reload : Type := {
  rl_emu : FunctionsEmulator.t;
  rl_worker : Spawn;                      (* InvokeRuntime(this.nodeBinary, diagnosticBundle) *)
  rl_runtime : Runtime;
  rl_parsed : Promise EmulatorLog;        (* the waiter of triggers-parsed *)
  rl_phase : LoaderPhase;
}.

Definition rl_set_emu (v : FunctionsEmulator.t) (r : Reload) : Reload :=
  {| rl_emu := v; rl_worker := rl_worker r; rl_runtime := rl_runtime r;
     rl_parsed := rl_parsed r; rl_phase := rl_phase r |}.

Definition rl_set_runtime (v : Runtime) (r : Reload) : Reload :=
  {| rl_emu := rl_emu r; rl_worker := rl_worker r; rl_runtime := v;
     rl_parsed := rl_parsed r; rl_phase := rl_phase r |}.

Definition rl_set_parsed (v : Promise EmulatorLog) (r : Reload) : Reload :=
  {| rl_emu := rl_emu r; rl_worker := rl_worker r; rl_runtime := rl_runtime r;
     rl_parsed := v; rl_phase := rl_phase r |}.

Definition rl_set_phase (v : LoaderPhase) (r : Reload) : Reload :=
  {| rl_emu := rl_emu r; rl_worker := rl_worker r; rl_runtime := rl_runtime r;
     rl_parsed := rl_parsed r; rl_phase := v |}.

(** The closure up to its first [await]. *)
Definition reload_begin `{External} (e : FunctionsEmulator.t) : Reload :=
  {| rl_emu := e;
     rl_worker := spawn_worker (FunctionsEmulator.nodeBinary e)
                    (diagnosticBundle e) no_opts;
     rl_runtime := fresh_runtime;
     rl_parsed := Pending;
     rl_phase := AwaitParsed |}.

(** [emitter.emit("log", el)] on the emitter of the diagnostic worker.  The
    listeners, in the order in which they were attached: the waiter of
    [ready] (InvokeRuntime), the subscriber that calls [handleRuntimeLog],
    and the waiter of triggers-parsed. *)
Definition reload_emit `{Display} (el : EmulatorLog) (r : Reload) : Reload :=
  let rt := rl_runtime r in
  let rt1 := set_events (events rt ++ [el]) rt in
  let rt2 := set_readyLog
               (waitForLog_listener "SYSTEM" "runtime-status" (Some ready_filter)
                                    el (readyLog rt1)) rt1 in
  rl_set_parsed
    (waitForLog_listener "SYSTEM" "triggers-parsed" None el (rl_parsed r))
    (rl_set_emu (handleRuntimeLog el (rl_emu r)) (rl_set_runtime rt2 r)).

Definition reload_perform `{Display} (r : Reload) (a : Action) : Reload :=
  match a with
  | Emit el => reload_emit el r
  | Kill sg =>
      rl_set_runtime (set_kills (kills (rl_runtime r) ++ [sg]) (rl_runtime r)) r
  end.

(** The "data" callback of a pipe of the diagnostic worker. *)
Definition reload_data `{External} `{Display} (p : Pipe) (buf : string)
    (r : Reload) : Reload :=
  let value := buffer_value p (rl_runtime r) ++ buf in
  let r1 := rl_set_runtime (set_buffer p value (rl_runtime r)) r in
  let r2 := fold_left reload_perform (data_actions value) r1 in
  rl_set_runtime (set_buffer p (last_line value) (rl_runtime r2)) r2.

(** [.then((el) => { metadata.socketPath = el.data.socketPath })] on the
    diagnostic worker. *)
Definition reload_then_ready (r : Reload) : Reload :=
  match readyLog (rl_runtime r), ready (rl_runtime r) with
  | Resolved el, Pending =>
      rl_set_runtime (set_ready (socketPath (data el)) (rl_runtime r)) r
  | _, _ => r
  end.

(** The loop of the closure from [toSetup] on, up to the next [await] on a
    PUT that is under way.  The set-up of a trigger that sends no PUT
    returns a resolved promise (or none), and the loop goes on. *)
Fixpoint loader_loop `{External} (toSetup : list EmulatedTriggerDefinition)
    (e : FunctionsEmulator.t) : FunctionsEmulator.t * LoaderPhase :=
  match toSetup with
  | [] => (e, Loaded)
  | d :: rest =>
      match put_port d with
      | Some fp => (put_request d e, AwaitPut fp d rest)
      | None =>
          let e1 := fst (setup_trigger d e) in
          loader_loop rest
            (FunctionsEmulator.set_knownTriggerIDs
               (mark_known (name d) (FunctionsEmulator.knownTriggerIDs e1)) e1)
      end
  end.

(** The closure resumes after the triggers-parsed record. *)
Definition reload_resume `{External} (r : Reload) : Reload :=
  match rl_phase r, rl_parsed r with
  | AwaitParsed, Resolved triggerParseEvent =>
      match triggerDefinitions (data triggerParseEvent) with
      | None => rl_set_phase (LoadFailed TypeError) r   (* undefined.filter *)
      | Some defs =>
          let out := loader_loop
                       (toSetup_of (FunctionsEmulator.knownTriggerIDs (rl_emu r)) defs)
                       (FunctionsEmulator.set_triggers defs (rl_emu r)) in
          rl_set_phase (snd out) (rl_set_emu (fst out) r)
      end
  | _, _ => r
  end.

(** The callback of [request.put] runs, and the closure resumes. *)
Definition reload_put_done `{External} (r : Reload) : Reload :=
  match rl_phase r with
  | AwaitPut fp d rest =>
      match put_callback (FunctionsEmulator.projectId (rl_emu r)) fp d (rl_emu r) with
      | (e1, Resolved _) =>
          let out := loader_loop rest
                       (FunctionsEmulator.set_knownTriggerIDs
                          (mark_known (name d) (FunctionsEmulator.knownTriggerIDs e1))
                          e1) in
          rl_set_phase (snd out) (rl_set_emu (fst out) r)
      | (e1, Rejected err) => rl_set_phase (LoadFailed err) (rl_set_emu e1 r)
      | (e1, Pending) => rl_set_phase (PutRaised SyntaxError) (rl_set_emu e1 r)
      end
  | _ => r
  end.

(** The callbacks that the environment runs during a reload. *)
Inductive ReloadEvent : Type :=
| DiagData (p : Pipe) (buf : string)   (* "data" on a pipe of the diagnostic worker *)
| PutDone.                             (* the callback of request.put *)

(** One turn of the event loop.  An uncaught exception ends the process. *)
Definition reload_step `{External} `{Display} (r : Reload) (ev : ReloadEvent)
  : Reload :=
  match rl_phase r with
  | PutRaised _ => r
  | _ =>
      match ev with
      | DiagData p buf => reload_resume (reload_then_ready (reload_data p buf r))
      | PutDone => reload_put_done r
      end
  end.

(** The reload of [e] after the callbacks [evs]. *)
Definition reload `{External} `{Display} (e : FunctionsEmulator.t)
    (evs : list ReloadEvent) : Reload :=
  fold_left reload_step evs (reload_begin e).

(** The state of the promise of the closure. *)
Definition promise_of (ph : LoaderPhase) : Promise unit :=
  match ph with
  | Loaded => Resolved tt
  | LoadFailed e => Rejected e
  | _ => Pending
  end.

(** What a reload may print with the quiet flag: a line through
    [logger.debug], the line of a USER record of the worker through
    [logger.info], and the warning for a record admin-not-initialized. *)
Definition quiet_line `{Display} (els : list EmulatorLog) (l : Sink * string)
  : Prop :=
  fst l = logger_debug \/
  (exists el, In el els /\ level el = "USER" /\
              l = (logger_info, clc_blackBright "> " ++ " " ++ text el)) \/
  (exists el, In el els /\ level el = "SYSTEM" /\
              type el = "admin-not-initialized" /\ l = (logWarning, admin_warning)).

(** A Firestore trigger with the name of a method that every object
    inherits, and a triggers-parsed record that lists it. *)
Definition toString_definition : EmulatedTriggerDefinition :=
  {| name := "toString"; httpsTrigger := false;
     eventTrigger := Some {| service := Some "firestore.googleapis.com";
                             resource := "projects/demo-proj/documents/b" |} |}.

Definition inherited_name_log : EmulatorLog :=
  {| level := "SYSTEM"; type := "triggers-parsed"; text := EmptyString;
     data := {| socketPath := None; triggers := None;
                triggerDefinitions := Some [toString_definition; echo_definition] |} |}.

(** A terminal on which the line [three] of a diagnostic worker carries the
    record of three triggers, and the line [user] a USER record. *)
Definition reload_fromJSON (line : string) : EmulatorLog :=
  if String.eqb line "three" then three_triggers_log else sample_fromJSON line.

Definition reload_host : External :=
  {| fromJSON := reload_fromJSON;
     getFunctionRegion := fun _ => "us-central1";
     stringify_definition := name;
     firestorePort := Some 8080;
     process_env := ∅;
     SERVICE_FIRESTORE := "firestore.googleapis.com";
     stringify_bundle := fun _ => EmptyString;
     clc_bold := fun s => s;
     request_put := fun _ _ => PutBody "{}" |}.

(** The lines that the records [els] of a worker must have left with the
    quiet flag: the line of every USER record through [logger.info], and the
    warning for every record admin-not-initialized. *)
Definition loud_lines `{Display} (els : list EmulatorLog)
    (lines : list (Sink * string)) : Prop :=
  forall el, In el els ->
    (level el = "USER" ->
     In (logger_info, clc_blackBright "> " ++ " " ++ text el) lines) /\
    (level el = "SYSTEM" -> type el = "admin-not-initialized" ->
     In (logWarning, admin_warning) lines).

(** What a reload has printed since it began with [e0], when the worker has
    emitted [els]: the quiet flag is as it was, and with the flag every line
    is one that [quiet_line] allows and the lines of [loud_lines] are there. *)
Definition quietly `{Display} (e0 e : FunctionsEmulator.t)
    (els : list EmulatorLog) : Prop :=
  FunctionsEmulator.quiet e = FunctionsEmulator.quiet e0 /\
  exists lines,
    printed e0 e lines /\
    (FunctionsEmulator.quiet e0 = true ->
     Forall (quiet_line els) lines /\ loud_lines els lines).

(** A host whose Firestore emulator refuses every PUT. *)
Definition refusing_host : External :=
  {| fromJSON := sample_fromJSON;
     getFunctionRegion := fun _ => "us-central1";
     stringify_definition := name;
     firestorePort := Some 8080;
     process_env := ∅;
     SERVICE_FIRESTORE := "firestore.googleapis.com";
     stringify_bundle := fun _ => EmptyString;
     clc_bold := fun s => s;
     request_put := fun _ _ => PutError "Error: connect ECONNREFUSED 127.0.0.1:8080" |}.

(** At a PUT and at the end of the loop, every trigger of the table is known
    or still to be set up. *)
Definition loader_ok (r : Reload) : Prop :=
  let known := FunctionsEmulator.knownTriggerIDs (rl_emu r) in
  match rl_phase r with
  | AwaitPut _ d rest =>
      forall x, In x (FunctionsEmulator.triggers (rl_emu r)) ->
                is_known known (name x) = true \/ In x (d :: rest)
  | Loaded =>
      forall x, In x (FunctionsEmulator.triggers (rl_emu r)) ->
                is_known known (name x) = true
  | _ => True
  end.

(** A second reload that changes nothing but the display: the emulator is
    the one that the reload began with, after [handleRuntimeLog] on the
    records of the worker, and the closure waits for the triggers-parsed
    record or has returned. *)
Definition only_prints `{Display} (e1 : FunctionsEmulator.t) (r : Reload) : Prop :=
  rl_emu r = display_all (events (rl_runtime r)) e1 /\
  ((rl_phase r = AwaitParsed /\ rl_parsed r = Pending) \/
   (rl_phase r = Loaded /\ exists ev, rl_parsed r = Resolved ev)).

(** * Properties *)

Example parse_samples :
  parse ("{" ++ quoted "path" ++ ":" ++ quoted "/a" ++ "}")
    = Some (JObject [("path", JString "/a")]) /\
  parse " [1, -2.5e3, true, null, {}] "
    = Some (JArray [JNumber "1"; JNumber "-2.5e3"; JBool true; JNull; JObject []]) /\
  parse "{}" = Some (JObject []) /\
  parse "hello" = None /\ parse "[1,]" = None /\ parse "01" = None /\
  parse ("{" ++ quoted "a" ++ ":1") = None /\ parse EmptyString = None /\
  parse "1 2" = None.
Proof. repeat split; reflexivity. Qed.

Example split_lines_samples :
  split_lines ("a" ++ nl ++ "b") = ["a"; "b"] /\
  split_lines ("a" ++ nl) = ["a"; EmptyString] /\
  split_lines EmptyString = [EmptyString] /\
  split_lines (nl ++ nl ++ "x") = [EmptyString; EmptyString; "x"].
Proof. repeat split; reflexivity. Qed.

(** ** The scenarios of the specification *)

(** S1: the worker of the HTTP trigger [echo] answers 200 with the body
    [hello]; its headers are forwarded, except the one with an empty value. *)
Example scenario_http_echo :
  let st := @invoke sample_host sample_emulator echo_request
              [PipeData Stdout ("triggers" ++ nl ++ "rea");
               PipeData Stdout ("dy" ++ nl);
               ResHead echo_head; ResData "hello"; ResEnd; ResClose;
               WorkerExit 0] in
  phase st = Returned /\
  reply (res st) = Some (200, "hello") /\
  headers (res st) !! "content-type" = Some (One "text/plain") /\
  headers (res st) !! "x-empty" = None /\
  headers (res st) !! "access-control-allow-origin" = Some (One "*") /\
  count_fin (wire (res st)) = 1%nat /\
  tracked st = ["https"] /\
  length (spawns st) = 1%nat.
Proof. cbv zeta. repeat split; reflexivity. Qed.

(** S2: the worker of the event trigger [onWrite] exits with code 0. *)
Example scenario_event_ack :
  let st := @invoke sample_host sample_emulator onWrite_request started_then_exit in
  phase st = Returned /\
  reply (res st) = Some (200, acknowledged) /\
  tracked st = ["firestore.googleapis.com"] /\
  option_map (fun sp => proto (arg_bundle sp)) (head (spawns st))
    = Some (Some (JObject [("path", JString "/a")])).
Proof. cbv zeta. repeat split; reflexivity. Qed.

(** S4: the worker logs a FATAL record before anything was sent: it is
    killed, the record killed follows on the stream, and the body of the
    outbound response is the text of the record. *)
Example scenario_fatal :
  let st := @invoke sample_host sample_emulator onWrite_request
              [PipeData Stdout ("triggers" ++ nl ++ "ready" ++ nl);
               PipeData Stderr ("boom" ++ nl)] in
  reply (res st) = Some (200, "boom") /\
  events (runtime st) = [triggers_log; ready_log; boom_log; killedLog] /\
  kills (runtime st) = [None] /\
  uncaught st = None.
Proof. cbv zeta. repeat split; reflexivity. Qed.

(** S3: without a Firestore emulator, a reload with an HTTP trigger, a
    Firestore trigger and a trigger of a service that is not supported
    completes, and all three names are known afterwards. *)
Example scenario_reload :
  let out := @loadTriggers offline_host three_triggers_log sample_emulator in
  snd out = Resolved tt /\
  FunctionsEmulator.triggers (fst out)
    = [echo_definition; onWrite_definition; onAuth_definition] /\
  is_known (FunctionsEmulator.knownTriggerIDs (fst out)) "echo" = true /\
  is_known (FunctionsEmulator.knownTriggerIDs (fst out)) "onWrite" = true /\
  is_known (FunctionsEmulator.knownTriggerIDs (fst out)) "onAuth" = true /\
  map fst (FunctionsEmulator.display (fst out))
    = [logLabeledBullet "functions"; logWarning; logger_debug; logWarning].
Proof. cbv zeta. repeat split; reflexivity. Qed.

(** ** waitForLog *)

Section WaitForLog.
Variables (lvl ty : string) (filter : option (EmulatorLog -> bool)).

Lemma listener_matches el p :
  waitForLog_listener lvl ty filter el p
  = if matches lvl ty filter el then resolve p el else p.
Proof. reflexivity. Qed.

(** A settled promise is not changed by later events. *)
Lemma waitForLog_settled evs x :
  fold_left (waitForLog_on lvl ty filter) evs (Resolved x) = Resolved x.
Proof.
  induction evs as [|ev evs IH]; simpl; [reflexivity|].
  destruct ev as [el|code]; simpl; [|exact IH].
  rewrite listener_matches. destruct (matches lvl ty filter el); exact IH.
Qed.

Lemma waitForLog_from_pending evs :
  fold_left (waitForLog_on lvl ty filter) evs Pending
  = match List.find (matches lvl ty filter) (logs_of evs) with
    | Some el => Resolved el
    | None => Pending
    end.
Proof.
  induction evs as [|ev evs IH]; simpl; [reflexivity|].
  destruct ev as [el|code]; simpl; [|exact IH].
  rewrite listener_matches.
  destruct (matches lvl ty filter el); simpl.
  - apply waitForLog_settled.
  - exact IH.
Qed.
End WaitForLog.

(** C6, as the code has it: the promise of [waitForLog] is resolved with the
    first record on the stream whose level and type match and for which the
    optional predicate holds.  While no such record has been emitted the
    promise is pending, whether or not the worker has exited: the waiter
    never rejects. *)
Theorem waitForLog_first_match_else_pending :
  forall lvl ty filter (evs : list RuntimeEvent),
    waitForLog lvl ty filter evs
    = match List.find (matches lvl ty filter) (logs_of evs) with
      | Some el => Resolved el
      | None => Pending
      end.
Proof. intros. apply waitForLog_from_pending. Qed.

(** C6 as the specification states it fails: the worker logs one line and
    exits without a triggers-parsed record, and the waiter is still pending,
    not rejected. *)
Lemma waitForLog_exit_leaves_pending :
  waitForLog "SYSTEM" "triggers-parsed" None [Log hello_log; Exit 1] = Pending /\
  ~ (exists e, waitForLog "SYSTEM" "triggers-parsed" None [Log hello_log; Exit 1]
               = Rejected e).
Proof.
  split; [reflexivity|]. intros [e He]. vm_compute in He. discriminate He.
Qed.

(** ** The environment of the worker *)

Lemma lookup_spread {A} (base over : gmap string A) k :
  spread base over !! k
  = match over !! k with
    | Some v => Some v
    | None => base !! k
    end.
Proof.
  unfold spread. rewrite lookup_union.
  destruct (over !! k), (base !! k); reflexivity.
Qed.

(** C9, as the code has it: in the environment of the worker a key has the
    value of the ambient environment when that defines it, otherwise the
    value of [opts.env] when that defines it, otherwise [nodeBinary] when the
    key is [node]; the working directory is [frb.cwd]. *)
Theorem spawn_env_ambient_wins `{External} :
  forall nodeBinary frb opts k,
    env (spawn_options nodeBinary frb opts) !! k
    = match process_env !! k with
      | Some v => Some v
      | None =>
          match default ∅ (opts_env opts) !! k with
          | Some v => Some v
          | None => if decide (k = "node") then Some nodeBinary else None
          end
      end
    /\ spawn_cwd (spawn_options nodeBinary frb opts) = cwd frb.
Proof.
  intros. split; [|reflexivity].
  unfold spawn_options; simpl. rewrite !lookup_spread.
  destruct (process_env !! k); [reflexivity|].
  destruct (default ∅ (opts_env opts) !! k); [reflexivity|].
  destruct (decide (k = "node")) as [->|Hne].
  - apply lookup_singleton_eq.
  - apply lookup_singleton_ne. congruence.
Qed.

(** C9 as the specification states it fails: [PATH] is overridden in
    [opts.env] and defined in the ambient environment, and the worker gets
    the ambient value. *)
Lemma spawn_env_override_lost :
  let opts := {| serializedTriggers := None;
                 opts_env := Some (<["PATH" := "/custom/bin"]> ∅) |} in
  let frb := arg_bundle (@startFunctionRuntime sample_host sample_emulator
                           "echo" None) in
  default ∅ (opts_env opts) !! "PATH" = Some "/custom/bin" /\
  env (@spawn_options sample_host "/usr/bin/node" frb opts) !! "PATH"
    = Some "/usr/bin" /\
  env (@spawn_options sample_host "/usr/bin/node" frb opts) !! "PATH"
    <> default ∅ (opts_env opts) !! "PATH".
Proof.
  cbv zeta. split; [reflexivity|]. split; [reflexivity|].
  intros Heq. vm_compute in Heq. discriminate Heq.
Qed.

(** ** stop *)

(** C10: [stop] returns a resolved promise at once.  On a listening server it
    has called [close()], and the socket is still closing when the promise is
    resolved; without a server it changes nothing.  In both cases the trigger
    table and the set of known triggers are as before. *)
Theorem stop_resolves_without_waiting :
  forall e : FunctionsEmulator.t,
    snd (stop e) = Resolved tt /\
    FunctionsEmulator.triggers (fst (stop e)) = FunctionsEmulator.triggers e /\
    FunctionsEmulator.knownTriggerIDs (fst (stop e))
      = FunctionsEmulator.knownTriggerIDs e /\
    match FunctionsEmulator.server e with
    | Some Listening => FunctionsEmulator.server (fst (stop e)) = Some Closing
    | Some s => FunctionsEmulator.server (fst (stop e)) = Some s
    | None => fst (stop e) = e
    end.
Proof.
  intros e. repeat split.
  destruct e as [p pid srv fd nb tr kn q drf disp]; simpl.
  destruct srv as [[]|]; reflexivity.
Qed.

(** ** Framing of the worker pipes *)

Lemma removelast_In_length {A} (x : A) (l : list A) :
  In x (List.removelast l) -> (1 < length l)%nat.
Proof.
  destruct l as [|a [|b l]]; simpl; try contradiction; intros _; lia.
Qed.

Lemma flat_map_split {A B} (f : A -> list B) (x : A) (l : list A) :
  In x l ->
  exists l1 l2, flat_map f l = (flat_map f l1 ++ f x ++ flat_map f l2)%list.
Proof.
  intros Hin. destruct (in_split x l Hin) as (l1 & l2 & ->).
  exists l1, l2. rewrite flat_map_app. reflexivity.
Qed.

(** The actions for a line that carries a FATAL record. *)
Lemma line_actions_fatal `{External} line :
  level (fromJSON line) = "FATAL" ->
  line_actions line = [Emit (fromJSON line); Emit killedLog; Kill None].
Proof. intros Hl. unfold line_actions. rewrite Hl. reflexivity. Qed.

Lemma perform_dead st a e : uncaught st = Some e -> perform st a = st.
Proof. intros Hu. unfold perform. rewrite Hu. reflexivity. Qed.

Lemma script_dead script st e :
  uncaught st = Some e -> fold_left perform script st = st.
Proof.
  induction script as [|a s IH]; simpl; [reflexivity|].
  intros Hu. rewrite (perform_dead _ _ _ Hu). apply IH, Hu.
Qed.

(** An exception is never cleared. *)
Lemma script_alive script st :
  uncaught (fold_left perform script st) = None -> uncaught st = None.
Proof.
  intros Hf. destruct (uncaught st) as [e|] eqn:Hu; [|reflexivity].
  rewrite (script_dead _ _ _ Hu) in Hf. congruence.
Qed.

Lemma emit_events el st :
  events (runtime (emit el st)) = (events (runtime st) ++ [el])%list /\
  kills (runtime (emit el st)) = kills (runtime st).
Proof.
  unfold emit. destruct (fatal_subscriber el _); simpl; split; reflexivity.
Qed.

Lemma perform_trace st a :
  uncaught st = None ->
  events (runtime (perform st a)) = (events (runtime st) ++ emitted [a])%list /\
  kills (runtime (perform st a)) = (kills (runtime st) ++ signals [a])%list.
Proof.
  intros Hu. unfold perform. rewrite Hu.
  destruct a as [el|sg]; simpl.
  - destruct (emit_events el st) as [-> ->]. rewrite app_nil_r. split; reflexivity.
  - rewrite app_nil_r. split; reflexivity.
Qed.

(** When no listener raises, the whole script is carried out, in order. *)
Lemma script_trace script st :
  uncaught (fold_left perform script st) = None ->
  events (runtime (fold_left perform script st))
    = (events (runtime st) ++ emitted script)%list /\
  kills (runtime (fold_left perform script st))
    = (kills (runtime st) ++ signals script)%list.
Proof.
  revert st. induction script as [|a s IH]; intros st Hf; simpl in *.
  - rewrite !app_nil_r. split; reflexivity.
  - destruct (IH _ Hf) as [He Hk]. rewrite He, Hk.
    pose proof (script_alive _ _ Hf) as Ha.
    assert (Hu : uncaught st = None).
    { destruct (uncaught st) as [e|] eqn:Hu; [|reflexivity].
      rewrite (perform_dead _ _ _ Hu) in Ha. congruence. }
    destruct (perform_trace st a Hu) as [-> ->].
    destruct a; simpl; rewrite <- !app_assoc; split; reflexivity.
Qed.

Lemma on_pipe_data_trace `{External} p buf st :
  uncaught (on_pipe_data p buf st) = None ->
  let script := data_actions (buffer_value p (runtime st) ++ buf) in
  events (runtime (on_pipe_data p buf st))
    = (events (runtime st) ++ emitted script)%list /\
  kills (runtime (on_pipe_data p buf st))
    = (kills (runtime st) ++ signals script)%list.
Proof.
  unfold on_pipe_data. cbv zeta.
  set (value := buffer_value p (runtime st) ++ buf).
  set (st1 := set_runtime (set_buffer p value (runtime st)) st).
  destruct (uncaught (fold_left perform (data_actions value) st1)) eqn:Hu;
    [intros Hc; congruence|].
  intros _. destruct (script_trace _ _ Hu) as [He Hk].
  simpl. rewrite He, Hk. split; reflexivity.
Qed.

Lemma emitted_app s1 s2 : emitted (s1 ++ s2) = (emitted s1 ++ emitted s2)%list.
Proof. unfold emitted. apply flat_map_app. Qed.

Lemma signals_app s1 s2 : signals (s1 ++ s2) = (signals s1 ++ signals s2)%list.
Proof. unfold signals. apply flat_map_app. Qed.

(** X6: for every complete line of a pipe that carries a FATAL record, the
    data callback emits the record, then emits the synthetic SYSTEM record
    runtime-status with text killed, then kills the worker with the default
    signal.  When no subscriber raises, the event stream and the kills of the
    runtime grow by exactly these, in this order. *)
Lemma fatal_line_actions `{External} :
  forall (st : Invocation) (p : Pipe) (buf line : string),
    let value := buffer_value p (runtime st) ++ buf in
    let st' := on_pipe_data p buf st in
    In line (List.removelast (split_lines value)) ->
    level (fromJSON line) = "FATAL" ->
    exists before after,
      data_actions value
        = (before ++ [Emit (fromJSON line); Emit killedLog; Kill None] ++ after)%list /\
      (uncaught st' = None ->
         events (runtime st')
           = (events (runtime st) ++ emitted before
                ++ [fromJSON line; killedLog] ++ emitted after)%list /\
         kills (runtime st')
           = (kills (runtime st) ++ signals before ++ [None] ++ signals after)%list).
Proof.
  intros st p buf line value st' Hin Hfatal.
  pose proof (removelast_In_length _ _ Hin) as Hlen.
  destruct (flat_map_split line_actions _ _ Hin) as (l1 & l2 & Hsplit).
  rewrite (line_actions_fatal _ Hfatal) in Hsplit.
  assert (Hscript : data_actions value
            = (flat_map line_actions l1
                 ++ [Emit (fromJSON line); Emit killedLog; Kill None]
                 ++ flat_map line_actions l2)%list).
  { unfold data_actions. cbv zeta.
    apply Nat.ltb_lt in Hlen. rewrite Hlen. exact Hsplit. }
  exists (flat_map line_actions l1), (flat_map line_actions l2).
  split; [exact Hscript|].
  intros Halive. subst st'.
  destruct (on_pipe_data_trace p buf st Halive) as [He Hk].
  fold value in He, Hk. rewrite Hscript in He, Hk.
  rewrite !emitted_app in He. rewrite !signals_app in Hk.
  simpl in He, Hk. split; assumption.
Qed.

Lemma fatal_line_actions_witness :
  exists before after,
    @data_actions sample_host
        (buffer_value Stderr (runtime onWrite_ready) ++ ("boom" ++ nl))
      = (before ++ [Emit boom_log; Emit killedLog; Kill None] ++ after)%list /\
    (uncaught (@on_pipe_data sample_host Stderr ("boom" ++ nl) onWrite_ready) = None ->
       events (runtime (@on_pipe_data sample_host Stderr ("boom" ++ nl) onWrite_ready))
         = (events (runtime onWrite_ready) ++ emitted before
              ++ [boom_log; killedLog] ++ emitted after)%list /\
       kills (runtime (@on_pipe_data sample_host Stderr ("boom" ++ nl) onWrite_ready))
         = (kills (runtime onWrite_ready) ++ signals before ++ [None]
              ++ signals after)%list).
Proof.
  apply (@fatal_line_actions sample_host onWrite_ready Stderr
           ("boom" ++ nl) "boom").
  - vm_compute. left. reflexivity.
  - reflexivity.
Defined.

(** ** The trigger loader *)

Lemma this_log_fields ty text e :
  FunctionsEmulator.projectId (this_log ty text e) = FunctionsEmulator.projectId e /\
  FunctionsEmulator.knownTriggerIDs (this_log ty text e)
    = FunctionsEmulator.knownTriggerIDs e /\
  FunctionsEmulator.triggers (this_log ty text e) = FunctionsEmulator.triggers e /\
  FunctionsEmulator.quiet (this_log ty text e) = FunctionsEmulator.quiet e.
Proof. repeat split. Qed.

Lemma this_logLabeled_fields ty label text e :
  FunctionsEmulator.projectId (this_logLabeled ty label text e)
    = FunctionsEmulator.projectId e /\
  FunctionsEmulator.knownTriggerIDs (this_logLabeled ty label text e)
    = FunctionsEmulator.knownTriggerIDs e /\
  FunctionsEmulator.triggers (this_logLabeled ty label text e)
    = FunctionsEmulator.triggers e /\
  FunctionsEmulator.quiet (this_logLabeled ty label text e) = FunctionsEmulator.quiet e.
Proof. repeat split. Qed.

(** Setting a trigger up only prints. *)
Lemma setup_trigger_fields `{External} d e :
  let e1 := fst (setup_trigger d e) in
  FunctionsEmulator.projectId e1 = FunctionsEmulator.projectId e /\
  FunctionsEmulator.knownTriggerIDs e1 = FunctionsEmulator.knownTriggerIDs e /\
  FunctionsEmulator.triggers e1 = FunctionsEmulator.triggers e /\
  FunctionsEmulator.quiet e1 = FunctionsEmulator.quiet e.
Proof.
  unfold setup_trigger, addFirestoreTrigger.
  repeat (case_match; simpl); repeat split.
Qed.

Lemma setup_ok_resolves `{External} d e :
  setup_ok (FunctionsEmulator.projectId e) d = true ->
  snd (setup_trigger d e) = Resolved tt.
Proof.
  unfold setup_ok, setup_trigger, addFirestoreTrigger.
  destruct (httpsTrigger d); simpl; [reflexivity|].
  destruct (String.eqb (service_of d) SERVICE_FIRESTORE); simpl; [|reflexivity].
  destruct firestorePort as [fp|]; [|reflexivity].
  destruct (fp =? 0); simpl; [reflexivity|].
  destruct (request_put _ _) as [err|body]; [discriminate|].
  destruct (parse body) as [v|]; [|discriminate].
  intros _. destruct v as [| | | | |[|m ms]]; reflexivity.
Qed.

(** The registration that meets a transport error: the warning is printed
    and the promise is rejected. *)
Lemma put_fails_rejects `{External} d e err :
  put_fails (FunctionsEmulator.projectId e) d err ->
  exists e1,
    setup_trigger d e
    = (this_log WARN ("Error adding trigger: " ++ err) e1, Rejected NoReason) /\
    FunctionsEmulator.quiet e1 = FunctionsEmulator.quiet e.
Proof.
  intros (Hhttp & Hsvc & fp & Hport & Hnz & Hput).
  unfold setup_trigger, addFirestoreTrigger.
  rewrite Hhttp, Hsvc, String.eqb_refl, Hport.
  apply Z.eqb_neq in Hnz. rewrite Hnz, Hput.
  eexists. split; reflexivity.
Qed.

Lemma is_known_mark_known known n m :
  is_known (mark_known n known) m = String.eqb m n || is_known known m.
Proof.
  unfold is_known, mark_known.
  destruct (String.eqb_spec m "__proto__") as [Hm|Hm]; [apply eq_sym, orb_true_r|].
  destruct (String.eqb_spec n "__proto__") as [Hn|Hn].
  - subst n. destruct (String.eqb_spec m "__proto__"); [contradiction|reflexivity].
  - destruct (String.eqb_spec m n) as [->|Hne]; simpl.
    + rewrite lookup_insert_eq. reflexivity.
    + rewrite lookup_insert_ne by congruence. reflexivity.
Qed.

Lemma is_known_add_known done : forall known m,
  is_known (add_known known done) m
  = is_known known m || existsb (fun d => String.eqb m (name d)) done.
Proof.
  induction done as [|d ds IH]; intros known m; simpl.
  - rewrite orb_false_r. reflexivity.
  - unfold add_known in *. simpl. rewrite IH, is_known_mark_known.
    destruct (String.eqb m (name d)), (is_known known m); reflexivity.
Qed.

(** The loop up to a registration that fails. *)
Lemma setup_triggers_aborts `{External} err d after : forall before e,
  forallb (setup_ok (FunctionsEmulator.projectId e)) before = true ->
  put_fails (FunctionsEmulator.projectId e) d err ->
  let out := setup_triggers (before ++ d :: after)%list e in
  snd out = Rejected NoReason /\
  FunctionsEmulator.knownTriggerIDs (fst out)
    = add_known (FunctionsEmulator.knownTriggerIDs e) before /\
  FunctionsEmulator.triggers (fst out) = FunctionsEmulator.triggers e /\
  exists shown,
    FunctionsEmulator.display (fst out)
    = (shown ++ log (FunctionsEmulator.quiet e) WARN
                    ("Error adding trigger: " ++ err))%list.
Proof.
  induction before as [|b bs IH]; intros e Hok Hfail; cbv zeta.
  - simpl. destruct (put_fails_rejects _ _ _ Hfail) as (e1 & Hset & Hq).
    pose proof (setup_trigger_fields d e) as Hfields. cbv zeta in Hfields.
    rewrite Hset in *. simpl in *. destruct Hfields as (_ & Hkn & Htr & _).
    repeat split; try assumption.
    eexists. unfold this_log. simpl. rewrite Hq. reflexivity.
  - simpl in Hok. apply andb_prop in Hok as [Hb Hbs].
    simpl. pose proof (setup_ok_resolves b e Hb) as Hres.
    destruct (setup_trigger_fields b e) as (Hpid & Hkn & Htr & Hq).
    destruct (setup_trigger b e) as [e1 r]. simpl in *. subst r.
    set (e2 := FunctionsEmulator.set_knownTriggerIDs _ e1).
    assert (Hpid2 : FunctionsEmulator.projectId e2 = FunctionsEmulator.projectId e)
      by exact Hpid.
    specialize (IH e2). rewrite Hpid2 in IH. specialize (IH Hbs Hfail).
    cbv zeta in IH. destruct IH as (Hr & Hk & Ht & shown & Hd).
    repeat split.
    + exact Hr.
    + rewrite Hk. unfold e2. simpl. rewrite Hkn. reflexivity.
    + rewrite Ht. exact Htr.
    + exists shown. rewrite Hd. unfold e2. simpl. rewrite Hq. reflexivity.
Qed.

(** C8, as the code has it: when the PUT that registers a Firestore trigger
    fails with a transport error during a reload, the warning is printed and
    the promise of the registration is rejected, which ends the reload at this
    trigger: the promise of [loadTriggers] is rejected, the trigger table has
    been replaced, and the set of known triggers has gained the triggers set
    up before the failing one and nothing else. *)
Theorem put_error_aborts_reload `{External} :
  forall (e : FunctionsEmulator.t) (triggerParseEvent : EmulatorLog)
         defs before d after err,
    triggerDefinitions (data triggerParseEvent) = Some defs ->
    toSetup_of (FunctionsEmulator.knownTriggerIDs e) defs
      = (before ++ d :: after)%list ->
    forallb (setup_ok (FunctionsEmulator.projectId e)) before = true ->
    put_fails (FunctionsEmulator.projectId e) d err ->
    let e' := fst (loadTriggers triggerParseEvent e) in
    snd (loadTriggers triggerParseEvent e) = Rejected NoReason /\
    (exists shown,
       FunctionsEmulator.display e'
       = (shown ++ log (FunctionsEmulator.quiet e) WARN
                       ("Error adding trigger: " ++ err))%list) /\
    FunctionsEmulator.triggers e' = defs /\
    forall n,
      is_known (FunctionsEmulator.knownTriggerIDs e') n
      = is_known (FunctionsEmulator.knownTriggerIDs e) n
        || existsb (fun b => String.eqb n (name b)) before.
Proof.
  intros e ev defs before d after err Hdefs Hsplit Hok Hfail. cbv zeta.
  unfold loadTriggers. rewrite Hdefs, Hsplit.
  destruct (setup_triggers_aborts err d after before
              (FunctionsEmulator.set_triggers defs e) Hok Hfail)
    as (Hr & Hk & Ht & Hd).
  repeat split.
  - exact Hr.
  - exact Hd.
  - exact Ht.
  - intros n. rewrite Hk. apply is_known_add_known.
Qed.

Lemma put_error_aborts_reload_witness :
  snd (@loadTriggers sample_host triggers_log sample_emulator) = Rejected NoReason /\
  (exists shown,
     FunctionsEmulator.display
       (fst (@loadTriggers sample_host triggers_log sample_emulator))
     = (shown ++ log false WARN
          ("Error adding trigger: " ++ "Error: connect ECONNREFUSED 127.0.0.1:8080"))%list) /\
  FunctionsEmulator.triggers
    (fst (@loadTriggers sample_host triggers_log sample_emulator))
    = [onWrite_definition; echo_definition] /\
  forall n,
    is_known (FunctionsEmulator.knownTriggerIDs
                (fst (@loadTriggers sample_host triggers_log sample_emulator))) n
    = is_known (FunctionsEmulator.knownTriggerIDs sample_emulator) n
      || existsb (fun b => String.eqb n (name b)) [].
Proof.
  apply (@put_error_aborts_reload sample_host sample_emulator triggers_log
           [onWrite_definition; echo_definition] [] onWrite_definition
           [echo_definition] "Error: connect ECONNREFUSED 127.0.0.1:8080").
  - reflexivity.
  - reflexivity.
  - reflexivity.
  - split; [reflexivity|]. split; [reflexivity|].
    exists 8080. split; [reflexivity|]. split; [lia|]. reflexivity.
Defined.

(** C8 as the specification states it fails: the reload discovers [onWrite]
    and [echo]; the PUT for [onWrite] is refused, and the HTTP trigger [echo],
    which comes after it, is not added to the set of known triggers. *)
Lemma put_error_skips_later_triggers :
  snd (@loadTriggers sample_host triggers_log sample_emulator) = Rejected NoReason /\
  is_known (FunctionsEmulator.knownTriggerIDs
              (fst (@loadTriggers sample_host triggers_log sample_emulator)))
           "echo" = false.
Proof. split; reflexivity. Qed.

(** ** The outbound response *)

Lemma count_fin_app w1 w2 : count_fin (w1 ++ w2) = (count_fin w1 + count_fin w2)%nat.
Proof. unfold count_fin. rewrite List.filter_app, length_app. reflexivity. Qed.

Lemma count_head_app w1 w2 :
  count_head (w1 ++ w2) = (count_head w1 + count_head w2)%nat.
Proof. unfold count_head. rewrite List.filter_app, length_app. reflexivity. Qed.

Ltac response_solve r :=
  unfold response_ok in *; destruct r as [sc hs [|] [|] w]; simpl in *;
  rewrite ?count_fin_app, ?count_head_app;
  unfold count_fin, count_head in *; simpl in *;
  intuition (try discriminate; try lia).

Lemma fresh_response_ok : response_ok fresh_response.
Proof. unfold response_ok. simpl. repeat split. discriminate. Qed.

Lemma res_status_ok code r : response_ok r -> response_ok (res_status code r).
Proof. intros H. exact H. Qed.

Lemma flush_head_ok r : response_ok r -> response_ok (flush_head r).
Proof. unfold flush_head. response_solve r. Qed.

Lemma res_end_ok r : response_ok r -> response_ok (res_end r).
Proof. unfold res_end, flush_head. response_solve r. Qed.

Lemma res_end_finished r : finished (res_end r) = true.
Proof. unfold res_end. destruct (finished r) eqn:Hf; [exact Hf|reflexivity]. Qed.

Lemma res_write_ok buf r r' :
  response_ok r -> res_write buf r = Ok r' -> response_ok r'.
Proof.
  unfold res_write, flush_head. intros Hok Heq.
  destruct r as [sc hs [|] [|] w]; simpl in *; inversion Heq; subst; clear Heq;
    unfold response_ok in *; simpl in *;
    rewrite ?count_fin_app, ?count_head_app;
    unfold count_fin, count_head in *; simpl in *;
    intuition (try discriminate; try lia).
Qed.

Lemma res_send_ok body r r' :
  response_ok r -> res_send body r = Ok r' -> response_ok r'.
Proof.
  unfold res_send. intros Hok Heq.
  destruct r as [sc hs [|] [|] w]; simpl in *; inversion Heq; subst; clear Heq;
    unfold response_ok in *; simpl in *;
    rewrite ?count_fin_app, ?count_head_app;
    unfold count_fin, count_head in *; simpl in *;
    intuition (try discriminate; try lia).
Qed.

Lemma res_send_fresh body : res_send body fresh_response = Ok (sent body).
Proof. reflexivity. Qed.

Lemma res_send_sent body body' : res_send body (sent body') = Throw ERR_HTTP_HEADERS_SENT.
Proof. reflexivity. Qed.

(** Copying the headers of the worker never raises: the guard on
    [headersSent] keeps [setHeader] away from a response whose head is out. *)
Lemma forward_headers_unsent hs : forall r,
  headersSent r = false ->
  exists r', fold_left forward_header hs (Ok r) = Ok r' /\
             headersSent r' = false /\ finished r' = finished r /\
             wire r' = wire r /\ statusCode r' = statusCode r.
Proof.
  induction hs as [|[k v] hs IH]; intros r Hu; simpl.
  - exists r. repeat split; assumption.
  - destruct (truthy v); [|apply IH, Hu].
    unfold res_setHeader. rewrite Hu.
    edestruct IH as (r' & Hf & H1 & H2 & H3 & H4); [|exists r'; split; [exact Hf|]].
    + reflexivity.
    + simpl in *. repeat split; assumption.
Qed.

Lemma forwardStatusAndHeaders_total rr r :
  exists r', forwardStatusAndHeaders rr r = Ok r' /\
             headersSent r' = headersSent r /\ finished r' = finished r /\
             wire r' = wire r /\ statusCode r' = statusCode_or_200 rr /\
             (headersSent r = true -> headers r' = headers r).
Proof.
  unfold forwardStatusAndHeaders. cbv zeta.
  destruct (headersSent r) eqn:Hs; simpl; rewrite Hs; simpl.
  - eexists. split; [reflexivity|]. simpl. repeat split; auto.
  - destruct (forward_headers_unsent (im_headers rr)
                (res_status (statusCode_or_200 rr) r) Hs)
      as (r' & Hf & H1 & H2 & H3 & H4).
    exists r'. split; [exact Hf|]. repeat split; auto. discriminate.
Qed.

Lemma response_ok_ext r r' :
  response_ok r -> headersSent r' = headersSent r -> finished r' = finished r ->
  wire r' = wire r -> response_ok r'.
Proof. unfold response_ok. intros H -> -> ->. exact H. Qed.

Lemma on_data_ok rr buf r :
  response_ok r -> response_ok (fst (on_data rr buf r)).
Proof.
  intros Hok. unfold on_data.
  destruct (forwardStatusAndHeaders_total rr r) as (r1 & -> & H1 & H2 & H3 & _).
  pose proof (response_ok_ext _ _ Hok H1 H2 H3) as Hok1.
  destruct (res_write buf r1) as [r2|e] eqn:Hw; simpl.
  - eapply res_write_ok; eassumption.
  - exact Hok1.
Qed.

Lemma on_close_or_end_ok rr r :
  response_ok r ->
  response_ok (fst (on_close_or_end rr r)) /\
  snd (on_close_or_end rr r) = None /\
  finished (fst (on_close_or_end rr r)) = true.
Proof.
  intros Hok. unfold on_close_or_end.
  destruct (forwardStatusAndHeaders_total rr r) as (r1 & -> & H1 & H2 & H3 & _).
  simpl. split; [|split; [reflexivity|apply res_end_finished]].
  apply res_end_ok. eapply response_ok_ext; eassumption.
Qed.

Lemma response_ok_bounds r :
  response_ok r -> (count_fin (wire r) <= 1)%nat /\ (count_head (wire r) <= 1)%nat.
Proof.
  intros (_ & H2 & H3). rewrite H2, H3.
  destruct (finished r), (headersSent r); lia.
Qed.

(** ** Invariants of an invocation *)

Lemma listener_cases lvl ty filter el p :
  waitForLog_listener lvl ty filter el p = p \/
  (p = Pending /\ matches lvl ty filter el = true /\
   waitForLog_listener lvl ty filter el p = Resolved el).
Proof.
  rewrite listener_matches.
  destruct (matches lvl ty filter el); [|left; reflexivity].
  destruct p; simpl; auto.
Qed.

Lemma has_fatal_more st st' :
  (forall el, In el (events (runtime st)) -> In el (events (runtime st'))) ->
  has_fatal st -> has_fatal st'.
Proof. intros Hsub (el & Hin & Hf). exists el. split; auto. Qed.

(** A callback that leaves the handler where it is, may settle pending
    promises, may add records to the stream and may answer a FATAL record on
    a response that is still untouched. *)
Lemma stable_transfer st st' :
  stable st ->
  phase st' = phase st ->
  req st' = req st ->
  spawns st' = spawns st ->
  runtimeReq st' = runtimeReq st ->
  runtimeRes st' = runtimeRes st ->
  ready (runtime st') = ready (runtime st) ->
  (forall el, In el (events (runtime st)) -> In el (events (runtime st'))) ->
  (triggerLog st' = triggerLog st \/
   (triggerLog st = Pending /\ exists el, triggerLog st' = Resolved el)) ->
  (exit (runtime st') = exit (runtime st) \/
   (exit (runtime st) = Pending /\ exists c, exit (runtime st') = Resolved c)) ->
  (readyLog (runtime st') = readyLog (runtime st) \/
   (readyLog (runtime st) = Pending /\
    exists el, readyLog (runtime st') = Resolved el /\
               In el (events (runtime st')) /\ is_ready el = true)) ->
  (res st' = res st \/
   exists el, In el (events (runtime st')) /\ is_fatal el = true /\
              res_send (text el) (res st) = Ok (res st')) ->
  (forall e, uncaught st' = Some e -> uncaught st = Some e \/ has_fatal st') ->
  stable st'.
Proof.
  intros [Hres Hrr Hpx Hrl Hrd Hex Htl Hph Hun Huc]
         Tph Trq Tsp Trrq Trrs Trd Tev Ttl Tex Trl Trs Tun.
  assert (Hlk : forall x, looked_up st = Some x -> looked_up st' = Some x).
  { unfold looked_up. rewrite Trq. intros x.
    destruct Ttl as [->|[-> _]]; [auto|discriminate]. }
  assert (Hexm : (exists code, exit (runtime st) = Resolved code) ->
                  exists code, exit (runtime st') = Resolved code).
  { intros [code Hc]. destruct Tex as [->|[Hp _]]; [eauto|congruence]. }
  pose proof (has_fatal_more st st' Tev) as Hfm.
  assert (Hsend : forall el, res_send (text el) (res st) = Ok (res st') ->
                    runtimeReq st = None ->
                    res st = fresh_response /\ res st' = sent (text el)).
  { intros el Hs Hn.
    assert (res st = fresh_response) as Hfr.
    { destruct (Hun Hn) as [?|[(x & _ & _ & Hx)|(_ & Hx)]]; [assumption| |];
        rewrite Hx in Hs; discriminate. }
    split; [exact Hfr|]. rewrite Hfr, res_send_fresh in Hs. congruence. }
  constructor.
  - destruct Trs as [->|(el & _ & _ & Hs)]; [exact Hres|].
    eapply res_send_ok; eassumption.
  - rewrite Trrq, Trrs. exact Hrr.
  - rewrite Trrq. auto.
  - destruct Trl as [->|(_ & el & -> & Hin & Hr)]; [|auto].
    destruct (readyLog (runtime st)); auto. destruct Hrl. auto.
  - rewrite Trd. destruct (ready (runtime st)); auto.
    destruct Hrd as [el Hel].
    destruct Trl as [->|(Hp & _)]; [eauto|congruence].
  - intros e. destruct Tex as [->|(_ & c & ->)]; [apply Hex|discriminate].
  - intros e. destruct Ttl as [->|(_ & c & ->)]; [apply Htl|discriminate].
  - unfold phase_ok in *. rewrite Tph, Trd, Trrq, Trq, Tsp.
    destruct (phase st) as [| | | | |[]]; try tauto.
    + destruct Hph as (? & ? & ?); auto.
    + destruct Hph as (? & ? & ?); auto.
    + destruct Hph as (? & Hc & [(Hn & ? & Hs)|(? & ?)]).
      * assert (res st' = sent acknowledged).
        { destruct Trs as [->|(el & _ & _ & Hf)]; [assumption|].
          rewrite Hs in Hf. discriminate. }
        split; [assumption|]. split; [apply Hexm, Hc|]. left. auto.
      * split; [assumption|]. split; [apply Hexm, Hc|]. right. auto.
    + destruct Hph as (? & ? & ?); auto.
    + destruct Hph as (? & ? & ? & Hc & ?). auto 10.
  - rewrite Trrq, Tph. intros Hn. specialize (Hun Hn).
    destruct Trs as [->|(el & Hin & Hf & Hs)].
    + destruct Hun as [?|[(el & Hin & Hf & ?)|?]]; auto.
      right. left. exists el. auto.
    + destruct (Hsend el Hs Hn) as [_ ->]. right. left. exists el. auto.
  - intros e He. rewrite Trrq. destruct (Tun e He) as [Hu|Hf]; [|auto].
    destruct (Huc e Hu); auto.
Qed.

(** A step on the proxied response: the request to the worker exists, and
    only the response, the worker's head and the exception flag change. *)
Lemma stable_proxy st st' :
  stable st ->
  runtimeReq st <> None ->
  phase st' = phase st ->
  req st' = req st ->
  spawns st' = spawns st ->
  runtimeReq st' = runtimeReq st ->
  runtime st' = runtime st ->
  triggerLog st' = triggerLog st ->
  response_ok (res st') ->
  stable st'.
Proof.
  intros [Hres Hrr Hpx Hrl Hrd Hex Htl Hph Hun Huc]
         Hreq Tph Trq Tsp Trrq Trt Ttl Hok.
  assert (Hlk : looked_up st' = looked_up st).
  { unfold looked_up. rewrite Trq, Ttl. reflexivity. }
  constructor; rewrite ?Trt, ?Trrq, ?Ttl, ?Hlk; auto; try tauto.
  unfold phase_ok in *. rewrite Tph, Trt, Trrq, Trq, Tsp, Hlk.
  destruct (phase st) as [| | | | |[]]; tauto.
Qed.

Lemma stable_emit el st : stable st -> stable (emit el st).
Proof.
  intros Hst. unfold emit, fatal_subscriber. fold (is_fatal el).
  set (rl' := waitForLog_listener "SYSTEM" "runtime-status" (Some ready_filter)
                el _).
  set (tl' := waitForLog_listener "SYSTEM" "triggers-parsed" None el _).
  assert (Hin : forall x, In x (events (runtime st)) ->
                          In x (events (runtime st) ++ [el])).
  { intros x Hx. apply in_or_app. left. exact Hx. }
  assert (Hel : In el (events (runtime st) ++ [el])).
  { apply in_or_app. right. left. reflexivity. }
  assert (Hrl : rl' = readyLog (runtime st) \/
                (readyLog (runtime st) = Pending /\
                 exists x, rl' = Resolved x /\
                           In x (events (runtime st) ++ [el]) /\ is_ready x = true)).
  { destruct (listener_cases "SYSTEM" "runtime-status" (Some ready_filter) el
                (readyLog (runtime st))) as [H|(Hp & Hm & H)].
    - left. exact H.
    - right. split; [exact Hp|]. exists el. auto. }
  assert (Htl : tl' = triggerLog st \/
                (triggerLog st = Pending /\ exists x, tl' = Resolved x)).
  { destruct (listener_cases "SYSTEM" "triggers-parsed" None el (triggerLog st))
      as [H|(Hp & Hm & H)]; [left; exact H|right; eauto]. }
  destruct (is_fatal el) eqn:Hf; simpl.
  - unfold res_send. destruct (headersSent (res st)) eqn:Hs; simpl.
    + apply (stable_transfer st); simpl; auto.
      intros e _. right. exists el. auto.
    + apply (stable_transfer st); simpl; auto.
      right. exists el. unfold res_send. rewrite Hs. auto.
  - apply (stable_transfer st); simpl; auto.
Qed.

Lemma stable_perform st a : stable st -> stable (perform st a).
Proof.
  intros Hst. unfold perform. destruct (uncaught st); [exact Hst|].
  destruct a as [el|sg]; [apply stable_emit, Hst|].
  apply (stable_transfer st); simpl; auto.
Qed.

Lemma stable_script script : forall st,
  stable st -> stable (fold_left perform script st).
Proof.
  induction script as [|a s IH]; intros st Hst; simpl; [exact Hst|].
  apply IH, stable_perform, Hst.
Qed.

Lemma stable_set_buffer p v st :
  stable st -> stable (set_runtime (set_buffer p v (runtime st)) st).
Proof. intros Hst. apply (stable_transfer st); simpl; auto. Qed.

Lemma stable_on_pipe_data `{External} p buf st :
  stable st -> stable (on_pipe_data p buf st).
Proof.
  intros Hst. unfold on_pipe_data. cbv zeta.
  match goal with
  | |- context [fold_left perform ?s ?x] =>
      assert (Hs : stable (fold_left perform s x))
        by (apply stable_script, stable_set_buffer, Hst);
      destruct (uncaught (fold_left perform s x)); [exact Hs|];
      apply stable_set_buffer, Hs
  end.
Qed.

Lemma stable_on_res f st :
  stable st -> runtimeReq st <> None ->
  response_ok (fst (f (res st))) -> stable (on_res f st).
Proof.
  intros Hst Hreq Hok. unfold on_res.
  destruct (f (res st)) as [r [e|]]; simpl in Hok;
    apply (stable_proxy st); simpl; auto.
Qed.

Lemma stable_callback `{External} ev st : stable st -> stable (callback ev st).
Proof.
  intros Hst. destruct ev as [p buf|code|rr|buf| | | | ]; simpl.
  - apply stable_on_pipe_data, Hst.
  - apply (stable_transfer st); simpl; auto.
    destruct (exit (runtime st)) eqn:He; simpl; eauto.
  - destruct (runtimeReq st) eqn:Hq; [|exact Hst].
    destruct (runtimeRes st) eqn:Hr; [exact Hst|].
    apply (stable_proxy st); simpl; auto; try congruence.
    apply (st_response _ Hst).
  - destruct (runtimeRes st) as [rr|] eqn:Hr; [|exact Hst].
    apply stable_on_res; [exact Hst| |].
    + apply (st_runtimeRes _ Hst). congruence.
    + apply on_data_ok, (st_response _ Hst).
  - destruct (runtimeRes st) as [rr|] eqn:Hr; [|exact Hst].
    apply stable_on_res; [exact Hst| |].
    + apply (st_runtimeRes _ Hst). congruence.
    + apply on_close_or_end_ok, (st_response _ Hst).
  - destruct (runtimeRes st) as [rr|] eqn:Hr; [|exact Hst].
    apply stable_on_res; [exact Hst| |].
    + apply (st_runtimeRes _ Hst). congruence.
    + apply on_close_or_end_ok, (st_response _ Hst).
  - destruct (runtimeReq st) eqn:Hq; [|exact Hst].
    apply (stable_proxy st); simpl; auto; try congruence.
    apply res_end_ok, (st_response _ Hst).
  - destruct (runtimeReq st) eqn:Hq; [|exact Hst].
    apply (stable_proxy st); simpl; auto; try congruence.
    apply res_end_ok, (st_response _ Hst).
Qed.

Ltac from_stable Hst :=
  first [ exact (st_response _ Hst) | exact (st_runtimeRes _ Hst)
        | exact (st_proxied _ Hst) | exact (st_readyLog _ Hst)
        | exact (st_ready _ Hst) | exact (st_exit _ Hst)
        | exact (st_triggerLog _ Hst) | exact (st_uncaught _ Hst) ].

Lemma stable_then_ready st : stable st -> stable (then_ready st).
Proof.
  intros Hst. unfold then_ready.
  destruct (readyLog (runtime st)) as [|el|e] eqn:Hrl; [exact Hst| |exact Hst].
  destruct (ready (runtime st)) as [|u|e] eqn:Hrd; [|exact Hst|exact Hst].
  destruct Hst as [Hres Hrr Hpx Hl Hd Hex Htl Hph Hun Huc].
  rewrite Hrl in Hl.
  constructor; simpl; try from_stable Hst; auto.
  - rewrite Hrl. exact Hl.
  - rewrite Hrl. eauto.
  - unfold phase_ok in *. simpl. rewrite Hrd in Hph.
    destruct (phase st) as [| | | | |[]]; try tauto;
      destruct Hph as [Hp _]; discriminate.
Qed.

Lemma lookup_after_triggerLog el st :
  match lookup_trigger el (trigger_name (req st)) with
  | Throw e => after_triggerLog el st = set_phase (Failed TypeError) st /\ e = TypeError
  | Ok true =>
      after_triggerLog el st
      = set_phase AwaitExitProxy
          (set_runtimeReq (Some (open_request st))
             (set_tracked (tracked st ++ ["https"]) st))
  | Ok false =>
      exists svc,
        after_triggerLog el st
        = set_phase AwaitExitAck (set_tracked (tracked st ++ [svc]) st)
  end.
Proof.
  unfold lookup_trigger, after_triggerLog.
  destruct (triggers (data el)) as [m|]; [|auto].
  destruct (m !! trigger_name (req st)) as [t|]; [|auto].
  destruct (httpsTrigger (definition t)); eauto.
Qed.

Lemma stable_resume st : stable st -> stable (resume st).
Proof.
  intros Hst. pose proof Hst as [Hres Hrr Hpx Hl Hd Hex Htl Hph Hun Huc].
  unfold resume. unfold phase_ok in Hph.
  destruct (phase st) as [| | | | |e] eqn:Hp; try exact Hst.
  - (* await runtime.ready *)
    destruct (ready (runtime st)) as [|[]|e] eqn:Hrd; [exact Hst| |contradiction].
    constructor; simpl; try from_stable Hst; auto.
    + unfold phase_ok. simpl. auto.
    + intros Hn. destruct (Hun Hn) as [?|[?|[? _]]]; auto. congruence.
  - (* await triggerLogPromise *)
    destruct (triggerLog st) as [|el|e] eqn:Ht; [exact Hst| |destruct (Htl e eq_refl)].
    destruct Hph as [Hrd Hn].
    assert (Hlk : looked_up st = Some (lookup_trigger el (trigger_name (req st)))).
    { unfold looked_up. rewrite Ht. reflexivity. }
    pose proof (lookup_after_triggerLog el st) as Hafter.
    destruct (lookup_trigger el (trigger_name (req st))) as [[|]|e].
    + rewrite Hafter. constructor; simpl; try from_stable Hst; auto; try congruence.
      unfold phase_ok. simpl. repeat split; auto; congruence.
    + destruct Hafter as [svc ->]. constructor; simpl; try from_stable Hst; auto.
      * unfold phase_ok. simpl. auto.
      * intros Hn'. destruct (Hun Hn') as [?|[?|[? _]]]; auto. congruence.
    + destruct Hafter as [-> ->]. constructor; simpl; try from_stable Hst; auto.
      * unfold phase_ok. simpl. auto.
      * intros Hn'. destruct (Hun Hn') as [?|[?|[? _]]]; auto. congruence.
  - (* event trigger: await runtime.exit, then res.json *)
    destruct Hph as (Hrd & Hn & Hlk).
    destruct (exit (runtime st)) as [|code|e] eqn:He;
      [exact Hst| |destruct (Hex e eq_refl)].
    destruct (Hun Hn) as [Hfr|[(el & Hin & Hf & Hs)|[Hc _]]]; [| |congruence].
    + rewrite Hfr. unfold res_json. rewrite res_send_fresh.
      constructor; simpl; try from_stable Hst; auto.
      * unfold response_ok. simpl. repeat split.
      * unfold phase_ok. simpl. split; [assumption|]. split; [eauto|]. left. auto.
    + rewrite Hs. unfold res_json. rewrite res_send_sent.
      constructor; simpl; try from_stable Hst; auto.
      * unfold phase_ok. simpl. repeat split; eauto. exists el. auto.
      * intros _. right. left. exists el. auto.
  - (* HTTP trigger: await runtime.exit *)
    destruct Hph as (Hrd & Hn & Hlk).
    destruct (exit (runtime st)) as [|code|e] eqn:He;
      [exact Hst| |destruct (Hex e eq_refl)].
    constructor; simpl; try from_stable Hst; auto.
    + unfold phase_ok. simpl. split; [assumption|]. split; [eauto|]. right. auto.
    + intros Hn'. contradiction.
Qed.

Lemma stable_microtasks st : stable st -> stable (microtasks st).
Proof.
  intros Hst. unfold microtasks.
  apply stable_resume, stable_resume, stable_resume, stable_then_ready, Hst.
Qed.

Lemma stable_step `{External} st ev : stable st -> stable (step st ev).
Proof.
  intros Hst. unfold step. destruct (uncaught st); [exact Hst|].
  cbv zeta. pose proof (stable_callback ev st Hst) as Hc.
  destruct (uncaught (callback ev st)); [exact Hc|].
  apply stable_microtasks, Hc.
Qed.

Lemma stable_run `{External} evs : forall st, stable st -> stable (run st evs).
Proof.
  unfold run. induction evs as [|ev evs IH]; intros st Hst; simpl; [exact Hst|].
  apply IH, stable_step, Hst.
Qed.

Lemma stable_begin `{External} emu rq : stable (handler_begin emu rq).
Proof.
  unfold handler_begin.
  destruct (parse_body (rawBody rq)) as [proto|e] eqn:Hp;
    constructor; simpl; auto using fresh_response_ok; try congruence.
  - unfold phase_ok. simpl. reflexivity.
  - unfold phase_ok. simpl.
    assert (e = SyntaxError) as ->.
    { unfold parse_body in Hp. destruct (String.eqb (rawBody rq) EmptyString);
        [discriminate|]. destruct (parse (rawBody rq)); congruence. }
    auto.
Qed.

(** Every invocation satisfies the invariant at every moment. *)
Lemma stable_invoke `{External} emu rq evs : stable (invoke emu rq evs).
Proof. apply stable_run, stable_begin. Qed.

(** ** The promise jobs *)

Lemma runtime_resume st : runtime (resume st) = runtime st.
Proof.
  unfold resume, after_triggerLog. repeat (case_match; simpl); reflexivity.
Qed.

Lemma resume_progress st :
  resume st = st \/ (rank (phase st) < rank (phase (resume st)))%nat.
Proof.
  unfold resume, after_triggerLog.
  repeat (case_match; simpl; auto); right; simpl; lia.
Qed.

Lemma resume_terminal st : (3 <= rank (phase st))%nat -> resume st = st.
Proof. unfold resume. destruct (phase st); simpl; intros; try lia; reflexivity. Qed.

Lemma rank_bound ph : (rank ph <= 3)%nat.
Proof. destruct ph; simpl; lia. Qed.

Lemma resume_settles st : resume (resume (resume (resume st))) = resume (resume (resume st)).
Proof.
  destruct (resume_progress st) as [E|L1]; [rewrite !E; reflexivity|].
  destruct (resume_progress (resume st)) as [E|L2]; [rewrite !E; reflexivity|].
  destruct (resume_progress (resume (resume st))) as [E|L3]; [rewrite !E; reflexivity|].
  apply resume_terminal. lia.
Qed.

Lemma then_ready_settles st :
  then_ready (resume (resume (resume (then_ready st))))
  = resume (resume (resume (then_ready st))).
Proof.
  set (z := resume (resume (resume (then_ready st)))).
  assert (Hrt : runtime z = runtime (then_ready st)).
  { unfold z. rewrite !runtime_resume. reflexivity. }
  unfold then_ready at 1. rewrite Hrt. unfold then_ready.
  destruct (readyLog (runtime st)) eqn:Hl; simpl; rewrite ?Hl; try reflexivity.
  destruct (ready (runtime st)) eqn:Hr; simpl; rewrite ?Hl, ?Hr; reflexivity.
Qed.

Lemma quiescent_microtasks st : quiescent (microtasks st).
Proof.
  unfold quiescent, microtasks. split.
  - apply then_ready_settles.
  - apply resume_settles.
Qed.

Lemma quiescent_begin `{External} emu rq : quiescent (handler_begin emu rq).
Proof.
  unfold handler_begin. destruct (parse_body (rawBody rq)); split; reflexivity.
Qed.

(** ** The event loop *)

Lemma step_dead `{External} st ev e : uncaught st = Some e -> step st ev = st.
Proof. intros Hu. unfold step. rewrite Hu. reflexivity. Qed.

Lemma run_dead `{External} evs : forall st e,
  uncaught st = Some e -> run st evs = st.
Proof.
  unfold run. induction evs as [|ev evs IH]; intros st e Hu; simpl; [reflexivity|].
  rewrite (step_dead _ _ _ Hu). eapply IH, Hu.
Qed.

Lemma run_alive `{External} evs st :
  uncaught (run st evs) = None -> uncaught st = None.
Proof.
  intros Hf. destruct (uncaught st) as [e|] eqn:Hu; [|reflexivity].
  rewrite (run_dead _ _ _ Hu) in Hf. congruence.
Qed.

Lemma run_snoc `{External} st evs ev : run st (evs ++ [ev]) = step (run st evs) ev.
Proof. unfold run. rewrite fold_left_app. reflexivity. Qed.

Lemma step_alive_inv `{External} st ev :
  uncaught (step st ev) = None ->
  uncaught st = None /\ uncaught (callback ev st) = None /\
  step st ev = microtasks (callback ev st).
Proof.
  unfold step. destruct (uncaught st) eqn:Hu; [intros; congruence|].
  cbv zeta. destruct (uncaught (callback ev st)) eqn:Hc; [intros; congruence|].
  auto.
Qed.

Lemma quiescent_run `{External} evs : forall st,
  quiescent st -> uncaught (run st evs) = None -> quiescent (run st evs).
Proof.
  induction evs as [|ev evs IH] using rev_ind; intros st Hq Ha; [exact Hq|].
  rewrite run_snoc in *. destruct (step_alive_inv _ _ Ha) as (_ & _ & ->).
  apply quiescent_microtasks.
Qed.

Lemma same_request_emit el st : same_request st (emit el st).
Proof. unfold emit. destruct (fatal_subscriber el _); split; reflexivity. Qed.

Lemma same_request_script script : forall st,
  same_request st (fold_left perform script st).
Proof.
  induction script as [|a s IH]; intros st; simpl; [split; reflexivity|].
  unfold same_request in *.
  destruct (IH (perform st a)) as [-> ->]. unfold perform.
  destruct (uncaught st); [split; reflexivity|].
  destruct a; [apply same_request_emit|split; reflexivity].
Qed.

Lemma same_request_callback `{External} ev st : same_request st (callback ev st).
Proof.
  destruct ev; simpl; unfold on_res, on_pipe_data;
    repeat (case_match; simpl); try (split; reflexivity).
  all: match goal with
       | |- context [fold_left perform ?s ?x] =>
           destruct (same_request_script s x) as [Hr Hs];
           unfold same_request; simpl in *; rewrite ?Hr, ?Hs; split; reflexivity
       end.
Qed.

Lemma same_request_resume st : same_request st (resume st).
Proof.
  unfold resume, after_triggerLog. repeat (case_match; simpl); split; reflexivity.
Qed.

Lemma same_request_microtasks st : same_request st (microtasks st).
Proof.
  unfold microtasks, same_request.
  destruct (same_request_resume (resume (resume (then_ready st)))) as [-> ->].
  destruct (same_request_resume (resume (then_ready st))) as [-> ->].
  destruct (same_request_resume (then_ready st)) as [-> ->].
  unfold then_ready. repeat (case_match; simpl); split; reflexivity.
Qed.

Lemma same_request_step `{External} st ev : same_request st (step st ev).
Proof.
  unfold step, same_request. destruct (uncaught st); [split; reflexivity|]. cbv zeta.
  destruct (same_request_callback ev st) as [Hr Hs].
  destruct (uncaught (callback ev st)); [split; assumption|].
  destruct (same_request_microtasks (callback ev st)) as [-> ->]. split; assumption.
Qed.

Lemma same_request_run `{External} evs : forall st, same_request st (run st evs).
Proof.
  unfold run, same_request.
  induction evs as [|ev evs IH]; intros st; simpl; [split; reflexivity|].
  destruct (IH (step st ev)) as [-> ->]. apply same_request_step.
Qed.

(** The promise of the exit follows the first exit among the callbacks. *)
Lemma exit_script script : forall st,
  exit (runtime (fold_left perform script st)) = exit (runtime st).
Proof.
  induction script as [|a s IH]; intros st; simpl; [reflexivity|].
  rewrite IH. unfold perform. destruct (uncaught st); [reflexivity|].
  destruct a; [|reflexivity]. unfold emit.
  destruct (fatal_subscriber _ _); reflexivity.
Qed.

Lemma exit_callback `{External} ev st :
  exit (runtime (callback ev st))
  = match ev with
    | WorkerExit code => resolve (exit (runtime st)) code
    | _ => exit (runtime st)
    end.
Proof.
  destruct ev; simpl; unfold on_res, on_pipe_data;
    repeat (case_match; simpl); try reflexivity.
  all: rewrite exit_script; reflexivity.
Qed.

Lemma exit_microtasks st : exit (runtime (microtasks st)) = exit (runtime st).
Proof.
  unfold microtasks. rewrite !runtime_resume. unfold then_ready.
  repeat (case_match; simpl); reflexivity.
Qed.

Lemma exit_run `{External} evs : forall st,
  uncaught (run st evs) = None ->
  exit (runtime (run st evs))
  = match exit (runtime st) with
    | Pending =>
        match exit_code_of evs with
        | Some code => Resolved code
        | None => Pending
        end
    | settled => settled
    end.
Proof.
  induction evs as [|ev evs IH]; intros st Ha.
  - simpl. destruct (exit (runtime st)); reflexivity.
  - change (run st (ev :: evs)) with (run (step st ev) evs) in *.
    rewrite (IH _ Ha).
    destruct (step_alive_inv st ev (run_alive _ _ Ha)) as (_ & _ & ->).
    rewrite exit_microtasks, exit_callback.
    destruct ev; simpl; try reflexivity.
    destruct (exit (runtime st)); simpl; try reflexivity.
Qed.

(** ** Replies *)

Lemma append_empty s : String.append s EmptyString = s.
Proof.
  induction s as [|c s IH]; [reflexivity|].
  change (String c (String.append s EmptyString) = String c s).
  f_equal. exact IH.
Qed.

Lemma reply_sent body : reply (sent body) = Some (200, body).
Proof. unfold reply. simpl. rewrite append_empty. reflexivity. Qed.

Lemma fatal_free_no_fatal st : fatal_free st -> ~ has_fatal st.
Proof.
  unfold fatal_free. intros Hff (el & Hin & Hf).
  rewrite forallb_forall in Hff. specialize (Hff el Hin).
  rewrite Hf in Hff. discriminate.
Qed.

(** Without a request to the worker, the only replies are the
    acknowledgement of the handler and the text of a FATAL record. *)
Lemma unproxied_reply st :
  stable st -> runtimeReq st = None -> phase st <> Returned ->
  (forall status body,
     reply (res st) = Some (status, body) ->
     status = 200 /\
     exists el, In el (events (runtime st)) /\ is_fatal el = true /\ body = text el) /\
  (fatal_free st -> wire (res st) = []).
Proof.
  intros Hst Hn Hp.
  destruct (st_unproxied _ Hst Hn) as [Hf|[(el & Hin & Hfat & Hs)|[Hr _]]];
    [| |contradiction].
  - rewrite Hf. split; [|reflexivity]. intros status body Hr. discriminate Hr.
  - rewrite Hs. split.
    + intros status body Hr. rewrite reply_sent in Hr.
      inversion Hr; subst. split; [reflexivity|]. exists el. auto.
    + intros Hff. destruct (fatal_free_no_fatal _ Hff). exists el. auto.
Qed.

(** The handler is not suspended at an await whose promise is settled. *)
Lemma quiescent_phase st :
  quiescent st -> stable st ->
  match phase st with
  | AwaitReady => ready (runtime st) = Pending
  | AwaitTriggerLog => triggerLog st = Pending
  | AwaitExitAck | AwaitExitProxy => exit (runtime st) = Pending
  | _ => True
  end.
Proof.
  intros [_ Hq] Hst.
  assert (Hph : phase (resume st) = phase st) by (rewrite Hq; reflexivity).
  unfold resume in Hph.
  destruct (phase st) eqn:Hp; auto.
  - destruct (ready (runtime st)) eqn:Hr; [reflexivity|discriminate|].
    pose proof (st_ready _ Hst) as H. rewrite Hr in H. contradiction.
  - destruct (triggerLog st) as [|el|e] eqn:Ht; [reflexivity| |].
    + pose proof (lookup_after_triggerLog el st) as Ha.
      destruct (lookup_trigger el (trigger_name (req st))) as [[|]|e'].
      * rewrite Ha in Hph. discriminate.
      * destruct Ha as [svc Ha]. rewrite Ha in Hph. discriminate.
      * destruct Ha as [Ha _]. rewrite Ha in Hph. discriminate.
    + destruct (st_triggerLog _ Hst e Ht).
  - destruct (exit (runtime st)) as [|c|e] eqn:He; [reflexivity| |].
    + destruct (res_json acknowledged (res st)); discriminate.
    + destruct (st_exit _ Hst e He).
  - destruct (exit (runtime st)) as [|c|e] eqn:He; [reflexivity|discriminate|].
    destruct (st_exit _ Hst e He).
Qed.

Lemma begin_parsed `{External} emu rq proto :
  parse_body (rawBody rq) = Ok proto ->
  handler_begin emu rq
  = {| req := rq;
       spawns := [startFunctionRuntime emu (trigger_name rq) proto];
       runtime := fresh_runtime;
       triggerLog := Pending; phase := AwaitReady; res := fresh_response;
       tracked := []; runtimeReq := None; runtimeRes := None;
       uncaught := None |}.
Proof. intros Hp. unfold handler_begin. rewrite Hp. reflexivity. Qed.

Lemma invoke_request `{External} emu rq evs : req (invoke emu rq evs) = rq.
Proof.
  unfold invoke. destruct (same_request_run evs (handler_begin emu rq)) as [-> _].
  unfold handler_begin. destruct (parse_body (rawBody rq)); reflexivity.
Qed.

Lemma invoke_spawns `{External} emu rq evs :
  spawns (invoke emu rq evs) = spawns (handler_begin emu rq).
Proof.
  unfold invoke. destruct (same_request_run evs (handler_begin emu rq)) as [_ ->].
  reflexivity.
Qed.

(** A handler that parsed the body is never in the state of the parse
    error. *)
Lemma parsed_not_failed `{External} emu rq evs proto :
  parse_body (rawBody rq) = Ok proto ->
  phase (invoke emu rq evs) <> Failed SyntaxError.
Proof.
  intros Hp Hph. pose proof (st_phase _ (stable_invoke emu rq evs)) as H0.
  unfold phase_ok in H0. rewrite Hph, invoke_request in H0.
  destruct H0 as [H0 _]. congruence.
Qed.

(** ** At most one reply, at most one worker *)

(** X4: whatever the worker and the peer do, a head goes out at most once,
    the response is ended at most once, and the handler has spawned at most
    one worker. *)
Lemma at_most_one_reply `{External} emu rq evs :
  let st := invoke emu rq evs in
  (count_head (wire (res st)) <= 1)%nat /\
  (count_fin (wire (res st)) <= 1)%nat /\
  (length (spawns st) <= 1)%nat.
Proof.
  cbv zeta. pose proof (stable_invoke emu rq evs) as Hst.
  destruct (response_ok_bounds _ (st_response _ Hst)) as [Hf Hh].
  split; [exact Hh|]. split; [exact Hf|].
  rewrite invoke_spawns. unfold handler_begin.
  destruct (parse_body (rawBody rq)); simpl; lia.
Qed.

(** Once ended, the response stays ended. *)
Lemma finished_emit el st :
  finished (res st) = true -> finished (res (emit el st)) = true.
Proof.
  intros Hf. unfold emit, fatal_subscriber, res_send. simpl.
  destruct (String.eqb (level el) "FATAL"); simpl; [|exact Hf].
  destruct (headersSent (res st)); simpl; [exact Hf|reflexivity].
Qed.

Lemma finished_script script : forall st,
  finished (res st) = true -> finished (res (fold_left perform script st)) = true.
Proof.
  induction script as [|a s IH]; intros st Hf; simpl; [exact Hf|].
  apply IH. unfold perform. destruct (uncaught st); [exact Hf|].
  destruct a; [apply finished_emit, Hf|exact Hf].
Qed.

Lemma finished_callback `{External} ev st :
  finished (res st) = true -> finished (res (callback ev st)) = true.
Proof.
  intros Hf. destruct ev as [p buf|code|rr|buf| | | | ]; simpl.
  - unfold on_pipe_data. cbv zeta.
    match goal with
    | |- context [fold_left perform ?s ?x] =>
        assert (Hs : finished (res (fold_left perform s x)) = true)
          by (apply finished_script; exact Hf);
        destruct (uncaught (fold_left perform s x)); exact Hs
    end.
  - exact Hf.
  - repeat case_match; exact Hf.
  - destruct (runtimeRes st) as [rr|]; [|exact Hf].
    unfold on_res, on_data.
    destruct (forwardStatusAndHeaders_total rr (res st)) as (r1 & -> & _ & H2 & _).
    unfold res_write. rewrite H2, Hf. simpl. congruence.
  - destruct (runtimeRes st) as [rr|]; [|exact Hf].
    unfold on_res, on_close_or_end.
    destruct (forwardStatusAndHeaders_total rr (res st)) as (r1 & -> & _).
    simpl. apply res_end_finished.
  - destruct (runtimeRes st) as [rr|]; [|exact Hf].
    unfold on_res, on_close_or_end.
    destruct (forwardStatusAndHeaders_total rr (res st)) as (r1 & -> & _).
    simpl. apply res_end_finished.
  - destruct (runtimeReq st); [|exact Hf]. simpl. apply res_end_finished.
  - destruct (runtimeReq st); [|exact Hf]. simpl. apply res_end_finished.
Qed.

Lemma finished_microtasks st :
  finished (res st) = true -> finished (res (microtasks st)) = true.
Proof.
  assert (Hr : forall x, finished (res x) = true -> finished (res (resume x)) = true).
  { intros x Hf. unfold resume, after_triggerLog, res_json, res_send.
    repeat (case_match; simpl); try exact Hf; try reflexivity;
      simplify_eq; reflexivity. }
  intros Hf. unfold microtasks. apply Hr, Hr, Hr.
  unfold then_ready. repeat (case_match; simpl); exact Hf.
Qed.

Lemma finished_step `{External} st ev :
  finished (res st) = true -> finished (res (step st ev)) = true.
Proof.
  intros Hf. unfold step. destruct (uncaught st); [exact Hf|]. cbv zeta.
  pose proof (finished_callback ev st Hf) as Hc.
  destruct (uncaught (callback ev st)); [exact Hc|].
  apply finished_microtasks, Hc.
Qed.

Lemma finished_run `{External} evs : forall st,
  finished (res st) = true -> finished (res (run st evs)) = true.
Proof.
  unfold run. induction evs as [|ev evs IH]; intros st Hf; simpl; [exact Hf|].
  apply IH, finished_step, Hf.
Qed.

Lemma ending_callback `{External} ev st :
  ends_response ev = true ->
  match ev with
  | ResClose | ResEnd => runtimeRes st <> None
  | _ => runtimeReq st <> None
  end ->
  finished (res (callback ev st)) = true.
Proof.
  destruct ev; try discriminate; intros _ Hlive; simpl.
  - destruct (runtimeRes st) as [rr|]; [|contradiction].
    unfold on_res, on_close_or_end.
    destruct (forwardStatusAndHeaders_total rr (res st)) as (r1 & -> & _).
    simpl. apply res_end_finished.
  - destruct (runtimeRes st) as [rr|]; [|contradiction].
    unfold on_res, on_close_or_end.
    destruct (forwardStatusAndHeaders_total rr (res st)) as (r1 & -> & _).
    simpl. apply res_end_finished.
  - destruct (runtimeReq st); [|contradiction]. simpl. apply res_end_finished.
  - destruct (runtimeReq st); [|contradiction]. simpl. apply res_end_finished.
Qed.

Lemma ending_step `{External} ev st :
  ends_response ev = true ->
  match ev with
  | ResClose | ResEnd => runtimeRes st <> None
  | _ => runtimeReq st <> None
  end ->
  uncaught st = None ->
  finished (res (step st ev)) = true.
Proof.
  intros Hev Hlive Halive. unfold step. rewrite Halive. cbv zeta.
  pose proof (ending_callback ev st Hev Hlive) as Hc.
  destruct (uncaught (callback ev st)); [exact Hc|].
  apply finished_microtasks, Hc.
Qed.

(** X5: when the worker's response reaches its end or its close, or the
    connection to the worker fails, and no callback has raised, the outbound
    response has been ended exactly once, whatever follows. *)
Lemma ended_exactly_once `{External} emu rq evs1 ev evs2 :
  let before := invoke emu rq evs1 in
  let st := invoke emu rq (evs1 ++ ev :: evs2) in
  ends_response ev = true ->
  match ev with
  | ResClose | ResEnd => runtimeRes before <> None
  | _ => runtimeReq before <> None
  end ->
  uncaught before = None ->
  count_fin (wire (res st)) = 1%nat.
Proof.
  cbv zeta. intros Hev Hlive Halive.
  pose proof (stable_invoke emu rq (evs1 ++ ev :: evs2)) as Hst.
  destruct (st_response _ Hst) as (_ & -> & _).
  unfold invoke, run in *. rewrite fold_left_app. simpl.
  fold (run (step (fold_left step evs1 (handler_begin emu rq)) ev) evs2).
  rewrite finished_run; [reflexivity|].
  apply ending_step; assumption.
Qed.

Lemma ended_exactly_once_witness :
  count_fin
    (wire (res (@invoke sample_host sample_emulator echo_request
                  ([PipeData Stdout ("triggers" ++ nl ++ "ready" ++ nl);
                    ResHead echo_head; ResData "par"]
                   ++ ResEnd :: [ResClose; WorkerExit 0]))))
  = 1%nat.
Proof.
  apply (@ended_exactly_once sample_host sample_emulator echo_request
           [PipeData Stdout ("triggers" ++ nl ++ "ready" ++ nl);
            ResHead echo_head; ResData "par"]
           ResEnd [ResClose; WorkerExit 0]).
  - reflexivity.
  - vm_compute. discriminate.
  - reflexivity.
Defined.

(** ** The claims about the handler *)

(** C1 fails on this input.  The HTTP trigger [echo] is invoked; its worker
    answers with a head and the bytes [par] and then logs a FATAL record.
    The subscriber of the handler calls [res.send] on a response whose head
    is out, which raises; the exception leaves the data callback of the pipe.
    The outbound response has not been ended, the record killed has not been
    emitted, the worker has not been killed, and no later callback runs. *)
Theorem fatal_after_head_raises :
  let st := @invoke sample_host sample_emulator echo_request partial_then_fatal in
  looked_up st = Some (Ok true) /\
  count_head (wire (res st)) = 1%nat /\
  body_of (wire (res st)) = "par" /\
  count_fin (wire (res st)) = 0%nat /\
  uncaught st = Some ERR_HTTP_HEADERS_SENT /\
  events (runtime st) = [triggers_log; ready_log; boom_log] /\
  kills (runtime st) = [] /\
  forall more,
    @invoke sample_host sample_emulator echo_request (partial_then_fatal ++ more) = st.
Proof.
  cbv zeta. repeat split; try reflexivity.
  intros more. unfold invoke, run. rewrite fold_left_app.
  apply (@run_dead sample_host more _ ERR_HTTP_HEADERS_SENT). reflexivity.
Qed.

(** C7 fails on the same input, by the same defect.  The data callback of
    the pipe parses the FATAL record and its script goes on with the record
    killed and the kill; the subscriber of the handler raises while the FATAL
    record is emitted, so that neither is carried out: the record killed is
    not on the event stream and the worker has not been killed. *)
Theorem fatal_record_without_kill :
  let before := @invoke sample_host sample_emulator echo_request
                  [PipeData Stdout ("triggers" ++ nl ++ "ready" ++ nl);
                   ResHead echo_head; ResData "par"] in
  let st := @on_pipe_data sample_host Stderr ("boom" ++ nl) before in
  uncaught before = None /\
  @fromJSON sample_host "boom" = boom_log /\
  level boom_log = "FATAL" /\
  @data_actions sample_host (buffer_value Stderr (runtime before) ++ ("boom" ++ nl))
    = [Emit boom_log; Emit killedLog; Kill None] /\
  uncaught st = Some ERR_HTTP_HEADERS_SENT /\
  events (runtime st) = [triggers_log; ready_log; boom_log] /\
  ~ In killedLog (events (runtime st)) /\
  kills (runtime st) = [].
Proof.
  cbv zeta. repeat split; try reflexivity.
  intros Hin. vm_compute in Hin.
  destruct Hin as [Hk|[Hk|[Hk|[]]]]; discriminate Hk.
Qed.

(** C2, as the code has it: for an invocation of an event trigger that the
    triggers-parsed record lists, whose worker has announced that it is ready
    and has logged no FATAL record, the handler replies with status 200 and
    the body [{"status":"acknowledged"}] once the worker has exited, whatever
    the exit code, and has sent nothing as long as the worker has not
    exited.  (A FATAL record is answered at once with its text.) *)
Theorem event_trigger_ack_after_exit `{External} :
  forall emu rq evs proto,
    let st := invoke emu rq evs in
    parse_body (rawBody rq) = Ok proto ->
    looked_up st = Some (Ok false) ->
    ready (runtime st) = Resolved tt ->
    fatal_free st ->
    match exit_code_of evs with
    | Some code =>
        phase st = Returned /\ reply (res st) = Some (200, acknowledged)
    | None =>
        phase st = AwaitExitAck /\ wire (res st) = []
    end.
Proof.
  intros emu rq evs proto st Hparse Hlk Hready Hff.
  pose proof (stable_invoke emu rq evs) as Hst. fold st in Hst.
  assert (Hn : runtimeReq st = None).
  { destruct (runtimeReq st) eqn:Hq; [|reflexivity].
    rewrite (st_proxied _ Hst) in Hlk by congruence. discriminate. }
  assert (Halive : uncaught st = None).
  { destruct (uncaught st) as [e|] eqn:Hu; [|reflexivity].
    destruct (st_uncaught _ Hst e Hu) as [Hq|Hf]; [contradiction|].
    destruct (fatal_free_no_fatal _ Hff Hf). }
  assert (Hq : quiescent st).
  { apply quiescent_run; [apply quiescent_begin|exact Halive]. }
  pose proof (exit_run evs (handler_begin emu rq) Halive) as Hexit.
  rewrite (begin_parsed emu rq proto Hparse) in Hexit at 2. simpl in Hexit.
  fold (invoke emu rq evs) in Hexit. fold st in Hexit.
  pose proof (quiescent_phase st Hq Hst) as Hqp.
  pose proof (st_phase _ Hst) as Hph. unfold phase_ok in Hph.
  pose proof (parsed_not_failed emu rq evs proto Hparse) as Hnf. fold st in Hnf.
  destruct (phase st) as [| | | | |e] eqn:Hp.
  - congruence.
  - unfold looked_up in Hlk. rewrite Hqp in Hlk. discriminate.
  - rewrite Hqp in Hexit.
    destruct (exit_code_of evs); [discriminate|]. split; [reflexivity|].
    apply (unproxied_reply st Hst Hn); [congruence|exact Hff].
  - destruct Hph as (_ & _ & Hl). congruence.
  - destruct Hph as (_ & [code Hc] & [(_ & _ & Hs)|(Hr & _)]); [|contradiction].
    rewrite Hc in Hexit. destruct (exit_code_of evs); [|discriminate].
    split; [reflexivity|]. rewrite Hs. reflexivity.
  - destruct e; try contradiction.
    + destruct Hph as (_ & _ & Hl). congruence.
    + destruct Hph as (_ & _ & _ & _ & Hf). destruct (fatal_free_no_fatal _ Hff Hf).
Qed.

Lemma event_trigger_ack_after_exit_witness :
  phase (@invoke sample_host sample_emulator onWrite_request
           [PipeData Stdout ("triggers" ++ nl ++ "ready" ++ nl); WorkerExit 1])
    = Returned /\
  reply (res (@invoke sample_host sample_emulator onWrite_request
                [PipeData Stdout ("triggers" ++ nl ++ "ready" ++ nl); WorkerExit 1]))
    = Some (200, acknowledged).
Proof.
  apply (@event_trigger_ack_after_exit sample_host sample_emulator onWrite_request
           [PipeData Stdout ("triggers" ++ nl ++ "ready" ++ nl); WorkerExit 1]
           (Some (JObject [("path", JString "/a")]))).
  - reflexivity.
  - reflexivity.
  - reflexivity.
  - reflexivity.
Defined.

(** C2 as the specification states it fails: the worker of the event trigger
    logs a FATAL record.  The client has its reply before the worker exits,
    and the body is the text of the record, not the acknowledgement; the
    exit of the worker changes nothing. *)
Lemma fatal_reply_instead_of_ack :
  let logged := @invoke sample_host sample_emulator onWrite_request
                  [PipeData Stdout ("triggers" ++ nl ++ "ready" ++ nl);
                   PipeData Stderr ("boom" ++ nl)] in
  let exited := @invoke sample_host sample_emulator onWrite_request
                  [PipeData Stdout ("triggers" ++ nl ++ "ready" ++ nl);
                   PipeData Stderr ("boom" ++ nl); WorkerExit 1] in
  looked_up logged = Some (Ok false) /\
  exit (runtime logged) = Pending /\
  reply (res logged) = Some (200, "boom") /\
  exit (runtime exited) = Resolved 1 /\
  reply (res exited) = Some (200, "boom") /\
  reply (res exited) <> Some (200, acknowledged).
Proof. cbv zeta. repeat split; try reflexivity. vm_compute. discriminate. Qed.

(** C3, as the code has it: when the name of the trigger is absent from the
    trigger map of the triggers-parsed record, the handler raises a TypeError
    at [trigger.definition] once the worker is ready.  It opens no request to
    the worker and sends no response: a reply, if there is one, is the answer
    to a FATAL record and has status 200, never a status of the 5xx class. *)
Theorem unknown_trigger_raises_without_reply `{External} :
  forall emu rq evs proto el triggerMap,
    let st := invoke emu rq evs in
    parse_body (rawBody rq) = Ok proto ->
    triggerLog st = Resolved el ->
    triggers (data el) = Some triggerMap ->
    triggerMap !! trigger_name rq = None ->
    ready (runtime st) = Resolved tt ->
    uncaught st = None ->
    phase st = Failed TypeError /\
    runtimeReq st = None /\
    (forall status body,
       reply (res st) = Some (status, body) ->
       status = 200 /\
       exists fatal, In fatal (events (runtime st)) /\ is_fatal fatal = true /\
                     body = text fatal) /\
    (fatal_free st -> wire (res st) = []).
Proof.
  intros emu rq evs proto el triggerMap st Hparse Htl Htr Habs Hready Halive.
  pose proof (stable_invoke emu rq evs) as Hst. fold st in Hst.
  assert (Hlk : looked_up st = Some (Throw TypeError)).
  { unfold looked_up, lookup_trigger. rewrite Htl, Htr.
    unfold st. rewrite invoke_request, Habs. reflexivity. }
  assert (Hq : quiescent st).
  { apply quiescent_run; [apply quiescent_begin|exact Halive]. }
  pose proof (quiescent_phase st Hq Hst) as Hqp.
  pose proof (st_phase _ Hst) as Hph. unfold phase_ok in Hph.
  pose proof (parsed_not_failed emu rq evs proto Hparse) as Hnf. fold st in Hnf.
  assert (Hp : phase st = Failed TypeError).
  { destruct (phase st) as [| | | | |e] eqn:Hp.
    - congruence.
    - congruence.
    - destruct Hph as (_ & _ & Hl). congruence.
    - destruct Hph as (_ & _ & Hl). congruence.
    - destruct Hph as (_ & _ & [(_ & Hl & _)|(_ & Hl)]); congruence.
    - destruct e; try contradiction; try reflexivity.
      destruct Hph as (_ & _ & Hl & _). congruence. }
  rewrite Hp in Hph. destruct Hph as (_ & Hn & _).
  split; [exact Hp|]. split; [exact Hn|].
  apply (unproxied_reply st Hst Hn). congruence.
Qed.

Lemma unknown_trigger_raises_without_reply_witness :
  let st := @invoke sample_host sample_emulator ghost_request started_then_exit in
  phase st = Failed TypeError /\
  runtimeReq st = None /\
  (forall status body,
     reply (res st) = Some (status, body) ->
     status = 200 /\
     exists fatal, In fatal (events (runtime st)) /\ is_fatal fatal = true /\
                   body = text fatal) /\
  (fatal_free st -> wire (res st) = []).
Proof.
  apply (@unknown_trigger_raises_without_reply sample_host sample_emulator
           ghost_request started_then_exit
           (Some (JObject [("path", JString "/a")])) triggers_log sample_triggers).
  - reflexivity.
  - reflexivity.
  - reflexivity.
  - reflexivity.
  - reflexivity.
  - reflexivity.
Defined.

(** C3 as the specification states it fails: the trigger table has [echo]
    and [onWrite], the client asks for [ghost]; the worker starts and exits,
    and the client has received nothing, so no response of the 5xx class. *)
Lemma unknown_trigger_no_5xx :
  let st := @invoke sample_host sample_emulator ghost_request started_then_exit in
  sample_triggers !! "ghost" = None /\
  phase st = Failed TypeError /\
  wire (res st) = [] /\
  ~ (exists status body,
       reply (res st) = Some (status, body) /\ 500 <= status <= 599).
Proof.
  cbv zeta. repeat split; try reflexivity.
  intros (status & body & Hr & _). vm_compute in Hr. discriminate Hr.
Qed.

(** C4, as the code has it: an empty body gives an undefined [proto] and a
    body that parses gives the parsed value, and in both cases one worker is
    spawned with it; a body that is not JSON makes [JSON.parse] raise a
    SyntaxError in the handler, for any kind of trigger: no worker is spawned
    and nothing is sent to the client. *)
Theorem body_parsed_or_handler_raises `{External} :
  forall emu rq,
    let st := handler_begin emu rq in
    (rawBody rq = EmptyString ->
     phase st = AwaitReady /\
     exists sp, spawns st = [sp] /\ proto (arg_bundle sp) = None) /\
    (forall v,
       rawBody rq <> EmptyString -> parse (rawBody rq) = Some v ->
       phase st = AwaitReady /\
       exists sp, spawns st = [sp] /\ proto (arg_bundle sp) = Some v) /\
    (rawBody rq <> EmptyString -> parse (rawBody rq) = None ->
     phase st = Failed SyntaxError /\ spawns st = [] /\
     res st = fresh_response /\ reply (res st) = None).
Proof.
  intros emu rq. cbv zeta. unfold handler_begin, parse_body.
  split; [|split].
  - intros Hempty. rewrite Hempty. simpl. split; [reflexivity|].
    eexists. split; reflexivity.
  - intros v Hne Hv. apply String.eqb_neq in Hne. rewrite Hne, Hv. simpl.
    split; [reflexivity|]. eexists. split; reflexivity.
  - intros Hne Hv. apply String.eqb_neq in Hne. rewrite Hne, Hv. simpl.
    repeat split.
Qed.

Lemma body_parsed_or_handler_raises_witness :
  let st := @handler_begin sample_host sample_emulator hello_request in
  phase st = Failed SyntaxError /\ spawns st = [] /\
  res st = fresh_response /\ reply (res st) = None.
Proof.
  apply (proj2 (proj2 (@body_parsed_or_handler_raises sample_host sample_emulator
                         hello_request))).
  - discriminate.
  - reflexivity.
Defined.

(** C4 as the specification states it fails: the body [hello] is not JSON;
    the handler raises before it spawns a worker, and the client receives
    nothing, so no response of the 4xx class. *)
Lemma bad_payload_no_4xx :
  let st := @invoke sample_host sample_emulator hello_request [] in
  parse "hello" = None /\
  phase st = Failed SyntaxError /\
  spawns st = [] /\
  wire (res st) = [] /\
  ~ (exists status body,
       reply (res st) = Some (status, body) /\ 400 <= status <= 499).
Proof.
  cbv zeta. repeat split; try reflexivity.
  intros (status & body & Hr & _). vm_compute in Hr. discriminate Hr.
Qed.

Lemma never_ready_pending st :
  stable st -> never_ready st -> readyLog (runtime st) = Pending.
Proof.
  intros Hst Hnr. pose proof (st_readyLog _ Hst) as Hl.
  destruct (readyLog (runtime st)) as [|el|e]; [reflexivity| |contradiction].
  destruct Hl as [Hin Hr]. unfold never_ready in Hnr.
  rewrite forallb_forall in Hnr. specialize (Hnr el Hin).
  rewrite Hr in Hnr. discriminate.
Qed.

(** C5, as the code has it: as long as the worker has not emitted the
    record SYSTEM runtime-status with text ready, the promise [ready] is
    pending and the handler is suspended at [await runtime.ready], whether
    or not the worker has exited: the exit settles the promise [exit] and
    nothing else.  The handler sends no response: a reply, if there is one,
    is the answer to a FATAL record and has status 200. *)
Theorem exit_before_ready_leaves_handler_waiting `{External} :
  forall emu rq evs proto,
    let st := invoke emu rq evs in
    parse_body (rawBody rq) = Ok proto ->
    never_ready st ->
    ready (runtime st) = Pending /\
    phase st = AwaitReady /\
    (uncaught st = None ->
     exit (runtime st) = match exit_code_of evs with
                         | Some code => Resolved code
                         | None => Pending
                         end) /\
    (forall status body,
       reply (res st) = Some (status, body) ->
       status = 200 /\
       exists fatal, In fatal (events (runtime st)) /\ is_fatal fatal = true /\
                     body = text fatal) /\
    (fatal_free st -> wire (res st) = []).
Proof.
  intros emu rq evs proto st Hparse Hnr.
  pose proof (stable_invoke emu rq evs) as Hst. fold st in Hst.
  pose proof (never_ready_pending st Hst Hnr) as Hl.
  assert (Hrd : ready (runtime st) = Pending).
  { pose proof (st_ready _ Hst) as Hd.
    destruct (ready (runtime st)); [reflexivity| |contradiction].
    destruct Hd as [el Hel]. congruence. }
  pose proof (st_phase _ Hst) as Hph. unfold phase_ok in Hph.
  pose proof (parsed_not_failed emu rq evs proto Hparse) as Hnf. fold st in Hnf.
  assert (Hp : phase st = AwaitReady).
  { destruct (phase st) as [| | | | |e] eqn:Hp; try reflexivity;
      try (destruct Hph as [Hr _]; congruence).
    destruct e; try contradiction; try congruence;
      destruct Hph as [Hr _]; congruence. }
  rewrite Hp in Hph.
  split; [exact Hrd|]. split; [exact Hp|]. split.
  - intros Halive. pose proof (exit_run evs (handler_begin emu rq) Halive) as He.
    rewrite (begin_parsed emu rq proto Hparse) in He at 2. exact He.
  - apply (unproxied_reply st Hst Hph). congruence.
Qed.

Lemma exit_before_ready_leaves_handler_waiting_witness :
  let st := @invoke sample_host sample_emulator onWrite_request exits_unready in
  ready (runtime st) = Pending /\
  phase st = AwaitReady /\
  (uncaught st = None -> exit (runtime st) = Resolved 1) /\
  (forall status body,
     reply (res st) = Some (status, body) ->
     status = 200 /\
     exists fatal, In fatal (events (runtime st)) /\ is_fatal fatal = true /\
                   body = text fatal) /\
  (fatal_free st -> wire (res st) = []).
Proof.
  apply (@exit_before_ready_leaves_handler_waiting sample_host sample_emulator
           onWrite_request exits_unready (Some (JObject [("path", JString "/a")]))).
  - reflexivity.
  - reflexivity.
Defined.

(** C5 as the specification states it fails: the worker logs one line and
    exits with code 1 without the ready record.  The promise [ready] is still
    pending, not rejected, the handler still waits for it, and the client has
    received nothing, so no response of the 5xx class. *)
Lemma exit_before_ready_no_failure :
  let st := @invoke sample_host sample_emulator onWrite_request exits_unready in
  exit (runtime st) = Resolved 1 /\
  ready (runtime st) = Pending /\
  (forall e, ready (runtime st) <> Rejected e) /\
  phase st = AwaitReady /\
  wire (res st) = [] /\
  ~ (exists status body,
       reply (res st) = Some (status, body) /\ 500 <= status <= 599).
Proof.
  cbv zeta. repeat split; try reflexivity.
  - intros e He. vm_compute in He. discriminate He.
  - intros (status & body & Hr & _). vm_compute in Hr. discriminate Hr.
Qed.

(** * Further properties *)

(** ** More on the framing of the worker pipes *)

Lemma split_lines_cons c s :
  split_lines (String c s)
  = if Ascii.eqb c newline then EmptyString :: split_lines s
    else match split_lines s with
         | l :: ls => String c l :: ls
         | [] => [String c EmptyString]
         end.
Proof. reflexivity. Qed.

Lemma split_lines_nonempty s : split_lines s <> [].
Proof.
  destruct s as [|c s]; [discriminate|]. rewrite split_lines_cons.
  destruct (Ascii.eqb c newline); [discriminate|].
  destruct (split_lines s); discriminate.
Qed.

Lemma string_app_cons c s t : String.append (String c s) t = String c (String.append s t).
Proof. reflexivity. Qed.

Lemma string_app_assoc s t u :
  String.append (String.append s t) u = String.append s (String.append t u).
Proof.
  induction s as [|c s IH]; [reflexivity|].
  rewrite !string_app_cons. f_equal. exact IH.
Qed.

(** The lines of two pieces of text: the last line of the first piece goes
    on in the second. *)
Lemma split_lines_app a b :
  split_lines (String.append a b)
  = (List.removelast (split_lines a) ++ split_lines (String.append (last_line a) b))%list.
Proof.
  unfold last_line. induction a as [|c a IH]; [reflexivity|].
  rewrite string_app_cons, !split_lines_cons.
  pose proof (split_lines_nonempty a) as Hne.
  destruct (Ascii.eqb c newline) eqn:Hc.
  - rewrite IH. destruct (split_lines a) as [|l ls]; [contradiction|]. reflexivity.
  - rewrite IH. destruct (split_lines a) as [|l [|l' ls]]; [contradiction| |].
    + cbn [List.removelast List.last app].
      rewrite string_app_cons, split_lines_cons, Hc. reflexivity.
    + cbn [List.removelast List.last app]. reflexivity.
Qed.

Lemma removelast_app_nonempty {A} (l1 l2 : list A) :
  l2 <> [] -> List.removelast (l1 ++ l2) = (l1 ++ List.removelast l2)%list.
Proof. intros H. apply removelast_app, H. Qed.

Lemma last_app_nonempty {A} (l1 l2 : list A) d :
  l2 <> [] -> List.last (l1 ++ l2) d = List.last l2 d.
Proof.
  intros H. induction l1 as [|a l1 IH]; [reflexivity|].
  change (List.last (a :: (l1 ++ l2)) d = List.last l2 d).
  destruct (l1 ++ l2)%list as [|x xs] eqn:E.
  - apply app_eq_nil in E. destruct E as [_ E]. contradiction.
  - rewrite <- IH. reflexivity.
Qed.

Lemma data_actions_complete `{External} value :
  data_actions value = flat_map line_actions (complete_lines value).
Proof.
  unfold data_actions, complete_lines. cbv zeta.
  destruct (split_lines value) as [|l [|l' ls]]; reflexivity.
Qed.

(** X1: the framing goes by the lines of the text, not by the chunks.  Each
    chunk is turned into text on its own by [buffer.value += buf]; for the
    texts of two successive chunks, the actions of the supervisor for the
    first, followed by its actions for what it kept in the buffer with the
    second, are its actions for the two texts joined, and the buffer ends
    the same.  This is about the texts after decoding: a character whose
    bytes are cut by the boundary of two chunks is decoded otherwise than in
    one chunk. *)
Theorem framing_by_lines_of_text `{External} :
  forall value buf : string,
    (data_actions value ++ data_actions (String.append (last_line value) buf))%list
    = data_actions (String.append value buf) /\
    last_line (String.append (last_line value) buf)
    = last_line (String.append value buf).
Proof.
  intros value buf.
  pose proof (split_lines_nonempty (String.append (last_line value) buf)) as Hne.
  split.
  - rewrite !data_actions_complete. unfold complete_lines.
    rewrite (split_lines_app value buf).
    rewrite removelast_app_nonempty by exact Hne.
    rewrite flat_map_app. reflexivity.
  - change (last_line (String.append value buf))
      with (List.last (split_lines (String.append value buf)) EmptyString).
    rewrite (split_lines_app value buf).
    rewrite last_app_nonempty by exact Hne. reflexivity.
Qed.

Lemma join_lines_cons l ls :
  ls <> [] -> join_lines (l :: ls) = String.append l (String newline (join_lines ls)).
Proof. destruct ls; [contradiction|reflexivity]. Qed.

Lemma eqb_newline c : Ascii.eqb c newline = true -> c = newline.
Proof. apply Ascii.eqb_eq. Qed.

(** X2: splitting loses nothing and leaves no newline behind: the lines of a
    text joined by newlines are the text, and no line, in particular not the
    one kept in the buffer, holds a newline. *)
Theorem split_join_round_trip :
  forall value : string,
    join_lines (split_lines value) = value /\
    Forall (fun l => has_newline l = false) (split_lines value) /\
    has_newline (last_line value) = false.
Proof.
  assert (Hmain : forall value,
             join_lines (split_lines value) = value /\
             Forall (fun l => has_newline l = false) (split_lines value)).
  { induction value as [|c s [IHj IHf]]; [split; [reflexivity|repeat constructor]|].
    rewrite split_lines_cons. pose proof (split_lines_nonempty s) as Hne.
    destruct (Ascii.eqb c newline) eqn:Hc.
    - apply eqb_newline in Hc. subst c. split.
      + rewrite join_lines_cons by exact Hne. rewrite IHj. reflexivity.
      + constructor; [reflexivity|exact IHf].
    - destruct (split_lines s) as [|l ls]; [contradiction|]. split.
      + destruct ls as [|l' ls]; simpl in *; rewrite <- IHj; reflexivity.
      + inversion IHf; subst. constructor; [|assumption].
        simpl. rewrite Hc. assumption. }
  intros value. destruct (Hmain value) as [Hj Hf]. split; [exact Hj|]. split; [exact Hf|].
  unfold last_line. pose proof (split_lines_nonempty value) as Hne.
  rewrite Forall_forall in Hf. apply Hf.
  destruct (split_lines value) as [|l ls]; [contradiction|].
  rewrite list_elem_of_In. apply (@exists_last _ (l :: ls)) in Hne.
  destruct Hne as (l0 & x & Heq). rewrite Heq. rewrite last_last.
  apply in_or_app. right. left. reflexivity.
Qed.

Lemma split_lines_no_newline s : has_newline s = false -> split_lines s = [s].
Proof.
  induction s as [|c s IH]; [reflexivity|]. simpl.
  destruct (Ascii.eqb c newline); [discriminate|]. simpl.
  intros Hs. rewrite (IH Hs). reflexivity.
Qed.

(** X3: a chunk that completes no line is only buffered: when the buffered
    text with the chunk holds no newline, nothing is emitted, nobody is
    killed, and the buffer becomes that text. *)
Theorem partial_line_is_buffered `{External} :
  forall (p : Pipe) (buf : string) (st : Invocation),
    let value := String.append (buffer_value p (runtime st)) buf in
    has_newline value = false ->
    data_actions value = [] /\
    events (runtime (on_pipe_data p buf st)) = events (runtime st) /\
    kills (runtime (on_pipe_data p buf st)) = kills (runtime st) /\
    buffer_value p (runtime (on_pipe_data p buf st)) = value /\
    res (on_pipe_data p buf st) = res st /\
    uncaught (on_pipe_data p buf st) = uncaught st.
Proof.
  intros p buf st value Hnl.
  assert (Hact : data_actions value = []).
  { unfold data_actions. rewrite (split_lines_no_newline _ Hnl). reflexivity. }
  split; [exact Hact|].
  unfold on_pipe_data. cbv zeta. fold value. rewrite Hact. simpl.
  assert (Hlast : last_line value = value).
  { unfold last_line. rewrite (split_lines_no_newline _ Hnl). reflexivity. }
  rewrite Hlast.
  destruct (uncaught st) eqn:Hu; destruct p; simpl; rewrite ?Hu;
    repeat split; reflexivity.
Qed.

Lemma partial_line_is_buffered_witness :
  @data_actions sample_host
     (String.append (buffer_value Stdout (runtime onWrite_ready)) "rea") = [] /\
  events (runtime (@on_pipe_data sample_host Stdout "rea" onWrite_ready))
    = events (runtime onWrite_ready) /\
  kills (runtime (@on_pipe_data sample_host Stdout "rea" onWrite_ready))
    = kills (runtime onWrite_ready) /\
  buffer_value Stdout (runtime (@on_pipe_data sample_host Stdout "rea" onWrite_ready))
    = String.append (buffer_value Stdout (runtime onWrite_ready)) "rea" /\
  res (@on_pipe_data sample_host Stdout "rea" onWrite_ready) = res onWrite_ready /\
  uncaught (@on_pipe_data sample_host Stdout "rea" onWrite_ready)
    = uncaught onWrite_ready.
Proof.
  apply (@partial_line_is_buffered sample_host Stdout "rea" onWrite_ready).
  reflexivity.
Defined.

(** ** Forwarding the head of the worker's response *)

Lemma forward_headers_map hs : forall r,
  headersSent r = false ->
  exists r', fold_left forward_header hs (Ok r) = Ok r' /\
    headers r'
    = fold_left (fun m kv => if truthy (snd kv)
                             then <[toLowerCase (fst kv) := snd kv]> m else m)
                hs (headers r).
Proof.
  induction hs as [|[k v] hs IH]; intros r Hu; simpl.
  - exists r. split; reflexivity.
  - destruct (truthy v); [|apply IH, Hu].
    unfold res_setHeader. rewrite Hu.
    edestruct IH as (r' & Hf & Hh); [|exists r'; split; [exact Hf|exact Hh]].
    reflexivity.
Qed.

Lemma forwarded_other (hs : list (string * HeaderVal)) : forall (m : gmap string HeaderVal) k,
  (forall k' v, In (k', v) hs -> truthy v = true -> toLowerCase k' <> k) ->
  fold_left (fun m kv => if truthy (snd kv)
                         then <[toLowerCase (fst kv) := snd kv]> m else m) hs m !! k
  = m !! k.
Proof.
  induction hs as [|[k0 v0] hs IH]; intros m k Hno; simpl; [reflexivity|].
  rewrite IH.
  - destruct (truthy v0) eqn:Ht; [|reflexivity].
    apply lookup_insert_ne. apply (Hno k0 v0); [left; reflexivity|exact Ht].
  - intros k' v Hin. apply Hno. right. exact Hin.
Qed.

Lemma forwarded_this (hs : list (string * HeaderVal)) : forall (m : gmap string HeaderVal) k v,
  NoDup (map (fun kv => toLowerCase (fst kv)) hs) ->
  In (k, v) hs ->
  fold_left (fun m kv => if truthy (snd kv)
                         then <[toLowerCase (fst kv) := snd kv]> m else m) hs m
    !! toLowerCase k
  = if truthy v then Some v else m !! toLowerCase k.
Proof.
  induction hs as [|[k0 v0] hs IH]; intros m k v Hnd Hin; [destruct Hin|].
  simpl in Hnd. apply NoDup_cons in Hnd as [Hnot Hnd].
  destruct Hin as [Heq|Hin]; simpl.
  - inversion Heq; subst k0 v0. rewrite forwarded_other.
    + destruct (truthy v); [apply lookup_insert_eq|reflexivity].
    + intros k' v' Hin' _ Hk. apply Hnot. rewrite <- Hk.
      apply list_elem_of_In. apply (in_map (fun kv => toLowerCase (fst kv)) hs (k', v')).
      exact Hin'.
  - rewrite (IH _ k v Hnd Hin). destruct (truthy v); [reflexivity|].
    destruct (truthy v0); [|reflexivity].
    apply lookup_insert_ne. intros Hk. apply Hnot. rewrite Hk.
    apply list_elem_of_In. apply (in_map (fun kv => toLowerCase (fst kv)) hs (k, v)).
    exact Hin.
Qed.

(** X7: [forwardStatusAndHeaders] never raises.  It sets the status of the
    worker, 200 when the worker gives none, and puts nothing on the wire.
    While the head is not out it copies every header of the worker that has a
    value, under its lower-cased name, drops those with an empty value and
    keeps the other headers of the response; once the head is out it leaves
    the headers alone. *)
Theorem worker_head_forwarded :
  forall (rr : IncomingMessage) (r : Response),
    exists r',
      forwardStatusAndHeaders rr r = Ok r' /\
      statusCode r' = statusCode_or_200 rr /\
      wire r' = wire r /\ headersSent r' = headersSent r /\
      finished r' = finished r /\
      (headersSent r = true -> headers r' = headers r) /\
      (headersSent r = false ->
       NoDup (map (fun kv => toLowerCase (fst kv)) (im_headers rr)) ->
       (forall k v, In (k, v) (im_headers rr) ->
          headers r' !! toLowerCase k
          = if truthy v then Some v else headers r !! toLowerCase k) /\
       (forall k,
          (forall k' v, In (k', v) (im_headers rr) -> toLowerCase k' <> k) ->
          headers r' !! k = headers r !! k)).
Proof.
  intros rr r.
  destruct (forwardStatusAndHeaders_total rr r) as (r' & Hf & Hs & Hfin & Hw & Hsc & Hh).
  exists r'. split; [exact Hf|]. split; [exact Hsc|]. split; [exact Hw|].
  split; [exact Hs|]. split; [exact Hfin|]. split; [exact Hh|].
  intros Hu Hnd.
  unfold forwardStatusAndHeaders in Hf. cbv zeta in Hf. simpl in Hf.
  rewrite Hu in Hf. simpl in Hf.
  destruct (forward_headers_map (im_headers rr)
              (res_status (statusCode_or_200 rr) r) Hu) as (r2 & Hf2 & Hh2).
  rewrite Hf2 in Hf. inversion Hf; subst r2. rewrite Hh2. simpl. split.
  - intros k v Hin. apply forwarded_this; assumption.
  - intros k Hno. apply forwarded_other.
    intros k' v Hin _. apply (Hno k' v Hin).
Qed.

Lemma worker_head_forwarded_witness :
  exists r',
    forwardStatusAndHeaders echo_head fresh_response = Ok r' /\
    statusCode r' = 200 /\
    headers r' !! "content-type" = Some (One "text/plain") /\
    headers r' !! "x-empty" = None /\
    headers r' !! "access-control-allow-origin" = Some (One "*").
Proof.
  destruct (worker_head_forwarded echo_head fresh_response)
    as (r' & Hf & Hsc & _ & _ & _ & _ & Hcopy).
  exists r'. split; [exact Hf|]. split; [exact Hsc|].
  destruct Hcopy as [Hin Hout].
  - reflexivity.
  - repeat constructor; vm_compute; intros Hin;
      apply list_elem_of_In in Hin; simpl in Hin; intuition discriminate.
  - split; [|split].
    + apply (Hin "content-type" (One "text/plain")). left. reflexivity.
    + apply (Hin "x-empty" (One EmptyString)). right. left. reflexivity.
    + rewrite (Hout "access-control-allow-origin"); [reflexivity|].
      intros k' v [Heq|[Heq|[]]]; inversion Heq; subst; vm_compute; discriminate.
Defined.

(** ** The request to the worker and the invocation metric *)

Lemma waitForLog_snoc lvl ty filter evs el :
  waitForLog lvl ty filter (map Log (evs ++ [el]))
  = waitForLog_listener lvl ty filter el (waitForLog lvl ty filter (map Log evs)).
Proof.
  unfold waitForLog. rewrite map_app, fold_left_app. reflexivity.
Qed.

Lemma logs_of_map_Log evs : logs_of (map Log evs) = evs.
Proof. induction evs as [|e evs IH]; simpl; [reflexivity|]. f_equal. exact IH. Qed.

(** A callback that leaves the handler where it is. *)
Lemma request_ok_transfer st st' :
  request_ok st ->
  phase st' = phase st -> req st' = req st -> tracked st' = tracked st ->
  runtimeReq st' = runtimeReq st ->
  ready (runtime st') = ready (runtime st) ->
  metadata_socketPath (runtime st') = metadata_socketPath (runtime st) ->
  ((events (runtime st') = events (runtime st) /\
    readyLog (runtime st') = readyLog (runtime st)) \/
   exists el,
     events (runtime st') = (events (runtime st) ++ [el])%list /\
     readyLog (runtime st')
     = waitForLog_listener "SYSTEM" "runtime-status" (Some ready_filter) el
         (readyLog (runtime st))) ->
  (triggerLog st' = triggerLog st \/
   (triggerLog st = Pending /\ exists el, triggerLog st' = Resolved el)) ->
  request_ok st'.
Proof.
  intros (Hrl & Hrd & Hrq & Htr) Tph Trq Ttr Trrq Trd Tmd Tev Ttl.
  assert (Hrl' : readyLog (runtime st') = readyLog (runtime st) \/
                 readyLog (runtime st) = Pending).
  { destruct Tev as [[_ ->]|(el & _ & ->)]; [left; reflexivity|].
    rewrite listener_matches. destruct (matches _ _ _ el); [|left; reflexivity].
    destruct (readyLog (runtime st)); simpl; auto. }
  unfold request_ok. repeat split.
  - destruct Tev as [[-> ->]|(el & -> & ->)]; [exact Hrl|].
    rewrite waitForLog_snoc, Hrl. reflexivity.
  - rewrite Trd, Tmd. destruct (ready (runtime st)); auto.
    destruct Hrd as (el & Hel & Hmd). exists el.
    destruct Hrl' as [->|Hp]; [auto|congruence].
  - rewrite Trrq, Trd. destruct (runtimeReq st) as [rq|]; [|exact I].
    destruct Hrq as [Hr ->]. split; [exact Hr|].
    unfold open_request. rewrite Trq, Tmd. reflexivity.
  - rewrite Tph, Ttr. destruct (before_lookup (phase st)); [exact Htr|].
    destruct Htr as (t & Hf & Ht). exists t. split; [|exact Ht].
    unfold found_trigger in *. rewrite Trq.
    destruct Ttl as [->|[Hp _]]; [exact Hf|]. rewrite Hp in Hf. discriminate.
Qed.

Lemma request_ok_emit el st : request_ok st -> request_ok (emit el st).
Proof.
  intros Hok. unfold emit.
  destruct (listener_cases "SYSTEM" "triggers-parsed" None el (triggerLog st))
    as [Hl|(Hp & _ & Hl)];
  destruct (fatal_subscriber el _);
    apply (request_ok_transfer st); simpl; auto;
    try (right; exists el; split; reflexivity);
    try (right; split; [exact Hp|eexists; exact Hl]).
Qed.

Lemma request_ok_script script : forall st,
  request_ok st -> request_ok (fold_left perform script st).
Proof.
  induction script as [|a s IH]; intros st Hok; simpl; [exact Hok|].
  apply IH. unfold perform. destruct (uncaught st); [exact Hok|].
  destruct a; [apply request_ok_emit, Hok|].
  apply (request_ok_transfer st); simpl; auto.
Qed.

Lemma request_ok_callback `{External} ev st :
  request_ok st -> request_ok (callback ev st).
Proof.
  intros Hok. destruct ev as [p buf|code|rr|buf| | | | ]; simpl.
  - unfold on_pipe_data. cbv zeta.
    match goal with
    | |- context [fold_left perform ?s ?x] =>
        assert (Hs : request_ok (fold_left perform s x))
          by (apply request_ok_script, (request_ok_transfer st); simpl; auto);
        destruct (uncaught (fold_left perform s x)); [exact Hs|];
        apply (request_ok_transfer (fold_left perform s x)); simpl; auto
    end.
  - apply (request_ok_transfer st); simpl; auto.
  - repeat case_match; exact Hok.
  - destruct (runtimeRes st); [|exact Hok]. unfold on_res.
    destruct (on_data _ _ _) as [r [e|]];
      apply (request_ok_transfer st); simpl; auto.
  - destruct (runtimeRes st); [|exact Hok]. unfold on_res.
    destruct (on_close_or_end _ _) as [r [e|]];
      apply (request_ok_transfer st); simpl; auto.
  - destruct (runtimeRes st); [|exact Hok]. unfold on_res.
    destruct (on_close_or_end _ _) as [r [e|]];
      apply (request_ok_transfer st); simpl; auto.
  - destruct (runtimeReq st) eqn:Hq; [|exact Hok].
    apply (request_ok_transfer st); simpl; auto.
  - destruct (runtimeReq st) eqn:Hq; [|exact Hok].
    apply (request_ok_transfer st); simpl; auto.
Qed.

Lemma request_ok_then_ready st : request_ok st -> request_ok (then_ready st).
Proof.
  intros Hok. pose proof Hok as (Hrl & Hrd & Hrq & Htr). unfold then_ready.
  destruct (readyLog (runtime st)) as [|el|e] eqn:Hl; [exact Hok| |exact Hok].
  destruct (ready (runtime st)) as [|u|e] eqn:Hr; [|exact Hok|exact Hok].
  unfold request_ok. simpl. rewrite Hl. repeat split.
  - exact Hrl.
  - exists el. split; reflexivity.
  - destruct (runtimeReq st); [|exact I]. destruct Hrq as [Hc _]. discriminate.
  - destruct (before_lookup (phase st)); [exact Htr|].
    destruct Htr as (t & Hf & Ht). exists t. split; [exact Hf|exact Ht].
Qed.

Lemma request_ok_resume st : stable st -> request_ok st -> request_ok (resume st).
Proof.
  intros Hst Hok. pose proof Hok as (Hrl & Hrd & Hrq & Htr).
  pose proof (st_phase _ Hst) as Hph. unfold phase_ok in Hph.
  unfold resume.
  destruct (phase st) as [| | | | |e] eqn:Hp; try exact Hok; simpl in Htr.
  - destruct (ready (runtime st)) as [|[]|e] eqn:Hr; [exact Hok| |].
    + unfold request_ok. simpl. rewrite Hr. repeat split; assumption.
    + pose proof (st_ready _ Hst) as H0. rewrite Hr in H0. contradiction.
  - destruct (triggerLog st) as [|el|e] eqn:Ht; [exact Hok| |].
    + destruct Hph as [Hr Hn].
      unfold after_triggerLog.
      destruct (triggers (data el)) as [m|] eqn:Hm.
      * destruct (m !! trigger_name (req st)) as [t|] eqn:Hlk.
        -- assert (Hfound : found_trigger st = Some t).
           { unfold found_trigger. rewrite Ht, Hm. exact Hlk. }
           destruct (httpsTrigger (definition t)) eqn:Hh;
             unfold request_ok; simpl; rewrite ?Hr; repeat split;
             try assumption; try (rewrite Hn; exact I).
           ++ rewrite Hr in Hrd. exact Hrd.
           ++ exists t. split; [exact Hfound|]. rewrite Htr.
              unfold metric_tag. rewrite Hh. reflexivity.
           ++ rewrite Hr in Hrd. exact Hrd.
           ++ exists t. split; [exact Hfound|]. rewrite Htr.
              unfold metric_tag. rewrite Hh. reflexivity.
        -- unfold request_ok. simpl. repeat split; assumption.
      * unfold request_ok. simpl. repeat split; assumption.
    + destruct (st_triggerLog _ Hst e Ht).
  - destruct (exit (runtime st)) as [|c|e] eqn:He; [exact Hok| |].
    + unfold res_json, res_send. destruct (headersSent (res st));
        unfold request_ok; simpl; repeat split; assumption.
    + destruct (st_exit _ Hst e He).
  - destruct (exit (runtime st)) as [|c|e] eqn:He; [exact Hok| |].
    + unfold request_ok; simpl; repeat split; assumption.
    + destruct (st_exit _ Hst e He).
Qed.

Lemma request_ok_step `{External} st ev :
  stable st -> request_ok st -> request_ok (step st ev).
Proof.
  intros Hst Hok. unfold step. destruct (uncaught st); [exact Hok|]. cbv zeta.
  pose proof (stable_callback ev st Hst) as Hsc.
  pose proof (request_ok_callback ev st Hok) as Hc.
  destruct (uncaught (callback ev st)); [exact Hc|].
  unfold microtasks.
  pose proof (stable_then_ready _ Hsc) as Hs0.
  pose proof (stable_resume _ Hs0) as Hs1.
  pose proof (stable_resume _ Hs1) as Hs2.
  apply request_ok_resume; [exact Hs2|].
  apply request_ok_resume; [exact Hs1|].
  apply request_ok_resume; [exact Hs0|].
  apply request_ok_then_ready, Hc.
Qed.

Lemma request_ok_run `{External} evs : forall st,
  stable st -> request_ok st -> request_ok (run st evs).
Proof.
  unfold run. induction evs as [|ev evs IH]; intros st Hst Hok; simpl; [exact Hok|].
  apply IH; [apply stable_step, Hst|apply request_ok_step; assumption].
Qed.

Lemma request_ok_invoke `{External} emu rq evs : request_ok (invoke emu rq evs).
Proof.
  apply request_ok_run; [apply stable_begin|].
  unfold handler_begin. destruct (parse_body (rawBody rq)) as [proto|e] eqn:Hp;
    unfold request_ok; simpl; repeat split.
  unfold parse_body in Hp. destruct (String.eqb (rawBody rq) EmptyString);
    [discriminate|]. destruct (parse (rawBody rq)); [discriminate|].
  inversion Hp. reflexivity.
Qed.

(** X8: the handler opens the request to the worker only after the worker
    has announced that it is ready, and only for an HTTP trigger.  The
    request has the method, the URL and the headers of the incoming request,
    goes to the socket of the first ready record on the event stream, and
    carries the buffered body when that is not empty. *)
Theorem worker_request_after_ready `{External} :
  forall emu rq evs worker_rq,
    let st := invoke emu rq evs in
    runtimeReq st = Some worker_rq ->
    exists el,
      List.find is_ready (events (runtime st)) = Some el /\
      ready (runtime st) = Resolved tt /\
      looked_up st = Some (Ok true) /\
      worker_rq
      = {| rq_method := method rq; rq_path := url rq;
           rq_headers := req_headers rq;
           rq_socketPath := socketPath (data el);
           rq_body := if String.eqb (rawBody rq) EmptyString then None
                      else Some (rawBody rq) |}.
Proof.
  intros emu rq evs worker_rq st Hrq.
  destruct (request_ok_invoke emu rq evs) as (Hrl & Hrd & Hq & _). fold st in Hrl, Hrd, Hq.
  pose proof (stable_invoke emu rq evs) as Hst. fold st in Hst.
  rewrite Hrq in Hq. destruct Hq as [Hready Hopen].
  rewrite Hready in Hrd. destruct Hrd as (el & Hel & Hmd).
  exists el. split; [|split; [exact Hready|split]].
  - rewrite Hel in Hrl. unfold waitForLog in Hrl.
    rewrite waitForLog_from_pending, logs_of_map_Log in Hrl.
    unfold is_ready.
    destruct (List.find _ (events (runtime st))); congruence.
  - apply (st_proxied _ Hst). congruence.
  - rewrite Hopen. unfold open_request. rewrite Hmd.
    unfold st. rewrite invoke_request. reflexivity.
Qed.

Lemma worker_request_after_ready_witness :
  let st := @invoke sample_host sample_emulator echo_request
              [PipeData Stdout ("triggers" ++ nl ++ "ready" ++ nl)] in
  exists el,
    List.find is_ready (events (runtime st)) = Some el /\
    ready (runtime st) = Resolved tt /\
    looked_up st = Some (Ok true) /\
    {| rq_method := "POST"; rq_path := "/demo-proj/us-central1/echo";
       rq_headers := [("content-type", One "application/json")];
       rq_socketPath := Some "/tmp/w1.sock"; rq_body := None |}
    = {| rq_method := method echo_request; rq_path := url echo_request;
         rq_headers := req_headers echo_request;
         rq_socketPath := socketPath (data el);
         rq_body := if String.eqb (rawBody echo_request) EmptyString then None
                    else Some (rawBody echo_request) |}.
Proof.
  apply (@worker_request_after_ready sample_host sample_emulator echo_request
           [PipeData Stdout ("triggers" ++ nl ++ "ready" ++ nl)]).
  reflexivity.
Defined.

(** X9: the handler reports at most one invocation to [track]: nothing
    before it has found the trigger (nor when the lookup fails), and from
    then on exactly one event, tagged [https] for an HTTP trigger and with the
    service of the event trigger, or [unknown], otherwise. *)
Theorem one_metric_per_invocation `{External} :
  forall emu rq evs,
    let st := invoke emu rq evs in
    if before_lookup (phase st) then tracked st = []
    else exists t, found_trigger st = Some t /\
                   tracked st = [metric_tag (definition t)].
Proof.
  intros emu rq evs. cbv zeta.
  destruct (request_ok_invoke emu rq evs) as (_ & _ & _ & Htr). exact Htr.
Qed.

(** ** The status of the reply *)

Lemma status_from_head rr m status :
  status_from rr status -> status_from (Some m) status \/ rr <> None.
Proof.
  intros [->|(m' & -> & ->)]; [left; left; reflexivity|right; discriminate].
Qed.

Lemma wire_ok_unsent rr r :
  wire_ok rr r -> headersSent r = false -> wire r = [].
Proof.
  intros [_ Hw] Hu. destruct (wire r) as [|[st hs|b|] w]; try tauto.
  destruct Hw. congruence.
Qed.

Lemma wire_ok_send rr body r r' :
  wire_ok rr r -> res_send body r = Ok r' -> wire_ok rr r'.
Proof.
  intros Hok. unfold res_send. destruct (headersSent r) eqn:Hu; [discriminate|].
  intros Hs. inversion Hs; subst r'; clear Hs.
  rewrite (wire_ok_unsent _ _ Hok Hu). destruct Hok as [Hsc _].
  split; simpl; auto.
Qed.

Lemma wire_ok_flush rr r : wire_ok rr r -> wire_ok rr (flush_head r).
Proof.
  intros Hok. unfold flush_head. destruct (headersSent r) eqn:Hu; [exact Hok|].
  rewrite (wire_ok_unsent _ _ Hok Hu). destruct Hok as [Hsc _].
  split; simpl; auto.
Qed.

Lemma wire_ok_sent rr r :
  wire_ok rr r -> headersSent r = true ->
  exists status hs w, wire r = Head status hs :: w /\ status_from rr status.
Proof.
  intros [_ Hw] Hs. destruct (wire r) as [|[st hs|b|] w]; try tauto; [congruence|].
  destruct Hw. eauto.
Qed.

Lemma flush_head_sent r : headersSent (flush_head r) = true.
Proof. unfold flush_head. destruct (headersSent r) eqn:Hu; [exact Hu|reflexivity]. Qed.

Lemma wire_ok_end rr r : wire_ok rr r -> wire_ok rr (res_end r).
Proof.
  intros Hok. unfold res_end. destruct (finished r); [exact Hok|]. cbv zeta.
  pose proof (wire_ok_flush _ _ Hok) as Hf.
  destruct (wire_ok_sent _ _ Hf (flush_head_sent r)) as (s & hs & w & Hw & Hs).
  destruct Hf as [Hsc _]. split; simpl; [exact Hsc|]. rewrite Hw. simpl. auto.
Qed.

Lemma wire_ok_write rr buf r r' :
  wire_ok rr r -> res_write buf r = Ok r' -> wire_ok rr r'.
Proof.
  intros Hok. unfold res_write. destruct (finished r); [discriminate|]. cbv zeta.
  intros Hs. inversion Hs; subst r'; clear Hs.
  pose proof (wire_ok_flush _ _ Hok) as Hf.
  destruct (wire_ok_sent _ _ Hf (flush_head_sent r)) as (s & hs & w & Hw & Hs).
  destruct Hf as [Hsc _]. split; simpl; [exact Hsc|]. rewrite Hw. simpl. auto.
Qed.

Lemma wire_ok_forward rr r r' :
  wire_ok (Some rr) r -> forwardStatusAndHeaders rr r = Ok r' ->
  wire_ok (Some rr) r'.
Proof.
  intros [_ Hw] Hf.
  destruct (forwardStatusAndHeaders_total rr r) as (r1 & Hf1 & Hs & _ & Hwire & Hsc & _).
  rewrite Hf in Hf1. inversion Hf1; subst r1.
  split; [right; exists rr; auto|]. rewrite Hwire, Hs. exact Hw.
Qed.

Lemma wire_ok_on_data rr buf r :
  wire_ok (Some rr) r -> wire_ok (Some rr) (fst (on_data rr buf r)).
Proof.
  intros Hok. unfold on_data.
  destruct (forwardStatusAndHeaders rr r) as [r1|e] eqn:Hf; [|exact Hok].
  pose proof (wire_ok_forward _ _ _ Hok Hf) as H1.
  destruct (res_write buf r1) as [r2|e] eqn:Hw; simpl; [|exact H1].
  eapply wire_ok_write; eassumption.
Qed.

Lemma wire_ok_on_close_or_end rr r :
  wire_ok (Some rr) r -> wire_ok (Some rr) (fst (on_close_or_end rr r)).
Proof.
  intros Hok. unfold on_close_or_end.
  destruct (forwardStatusAndHeaders rr r) as [r1|e] eqn:Hf; [|exact Hok].
  simpl. apply wire_ok_end. eapply wire_ok_forward; eassumption.
Qed.

Lemma wire_ok_emit el st :
  wire_ok (runtimeRes st) (res st) ->
  wire_ok (runtimeRes (emit el st)) (res (emit el st)).
Proof.
  intros Hok. unfold emit, fatal_subscriber. simpl.
  destruct (String.eqb (level el) "FATAL"); simpl; [|exact Hok].
  destruct (res_send (text el) (res st)) as [r|e] eqn:Hs; simpl; [|exact Hok].
  eapply wire_ok_send; eassumption.
Qed.

Lemma wire_ok_script script : forall st,
  wire_ok (runtimeRes st) (res st) ->
  wire_ok (runtimeRes (fold_left perform script st))
          (res (fold_left perform script st)).
Proof.
  induction script as [|a script IH]; intros st Hok; simpl; [exact Hok|].
  apply IH. unfold perform. destruct (uncaught st); [exact Hok|].
  destruct a as [el|sg]; [apply wire_ok_emit, Hok|exact Hok].
Qed.

Lemma wire_ok_more m r : wire_ok None r -> wire_ok (Some m) r.
Proof.
  assert (Hm : forall s, status_from None s -> status_from (Some m) s).
  { intros s [->|(x & Hx & _)]; [left; reflexivity|discriminate]. }
  intros [Hsc Hw]. split; [auto|].
  destruct (wire r) as [|[st hs|b|] w]; try tauto.
  destruct Hw. auto.
Qed.

Lemma wire_ok_callback `{External} ev st :
  wire_ok (runtimeRes st) (res st) ->
  wire_ok (runtimeRes (callback ev st)) (res (callback ev st)).
Proof.
  intros Hok. destruct ev as [p buf|code|rr|buf| | | | ]; simpl.
  - unfold on_pipe_data. cbv zeta.
    match goal with
    | |- context [fold_left perform ?s ?x] =>
        pose proof (wire_ok_script s x Hok) as Hs;
        destruct (uncaught (fold_left perform s x)); exact Hs
    end.
  - exact Hok.
  - destruct (runtimeReq st); [|exact Hok].
    destruct (runtimeRes st) eqn:Hr; [rewrite Hr; exact Hok|].
    simpl. apply wire_ok_more, Hok.
  - destruct (runtimeRes st) as [rr|] eqn:Hr; [|rewrite Hr; exact Hok].
    pose proof (wire_ok_on_data rr buf _ Hok) as Hd.
    unfold on_res. destruct (on_data rr buf (res st)) as [r [e|]]; simpl in *;
      rewrite Hr; exact Hd.
  - destruct (runtimeRes st) as [rr|] eqn:Hr; [|rewrite Hr; exact Hok].
    pose proof (wire_ok_on_close_or_end rr _ Hok) as Hd.
    unfold on_res. destruct (on_close_or_end rr (res st)) as [r [e|]]; simpl in *;
      rewrite Hr; exact Hd.
  - destruct (runtimeRes st) as [rr|] eqn:Hr; [|rewrite Hr; exact Hok].
    pose proof (wire_ok_on_close_or_end rr _ Hok) as Hd.
    unfold on_res. destruct (on_close_or_end rr (res st)) as [r [e|]]; simpl in *;
      rewrite Hr; exact Hd.
  - destruct (runtimeReq st); [|exact Hok]. simpl. apply wire_ok_end, Hok.
  - destruct (runtimeReq st); [|exact Hok]. simpl. apply wire_ok_end, Hok.
Qed.

Lemma wire_ok_then_ready st :
  wire_ok (runtimeRes st) (res st) ->
  wire_ok (runtimeRes (then_ready st)) (res (then_ready st)).
Proof.
  intros Hok. unfold then_ready.
  destruct (readyLog (runtime st)); [exact Hok| |exact Hok].
  destruct (ready (runtime st)); exact Hok.
Qed.

Lemma wire_ok_resume st :
  wire_ok (runtimeRes st) (res st) ->
  wire_ok (runtimeRes (resume st)) (res (resume st)).
Proof.
  intros Hok. unfold resume.
  destruct (phase st); try exact Hok.
  - destruct (ready (runtime st)); exact Hok.
  - destruct (triggerLog st) as [|el|e]; try exact Hok.
    unfold after_triggerLog. destruct (triggers (data el)) as [tm|]; [|exact Hok].
    destruct (tm !! trigger_name (req st)) as [t|]; [|exact Hok].
    destruct (httpsTrigger (definition t)); exact Hok.
  - destruct (exit (runtime st)); try exact Hok.
    unfold res_json.
    destruct (res_send acknowledged (res st)) as [r|e] eqn:Hs; [|exact Hok].
    simpl. eapply wire_ok_send; eassumption.
  - destruct (exit (runtime st)); exact Hok.
Qed.

Lemma wire_ok_step `{External} st ev :
  wire_ok (runtimeRes st) (res st) ->
  wire_ok (runtimeRes (step st ev)) (res (step st ev)).
Proof.
  intros Hok. unfold step. destruct (uncaught st); [exact Hok|]. cbv zeta.
  pose proof (wire_ok_callback ev st Hok) as Hc.
  destruct (uncaught (callback ev st)); [exact Hc|].
  unfold microtasks.
  apply wire_ok_resume, wire_ok_resume, wire_ok_resume, wire_ok_then_ready, Hc.
Qed.

Lemma wire_ok_run `{External} evs : forall st,
  wire_ok (runtimeRes st) (res st) ->
  wire_ok (runtimeRes (run st evs)) (res (run st evs)).
Proof.
  unfold run. induction evs as [|ev evs IH]; intros st Hok; simpl; [exact Hok|].
  apply IH, wire_ok_step, Hok.
Qed.

Lemma wire_ok_invoke `{External} emu rq evs :
  wire_ok (runtimeRes (invoke emu rq evs)) (res (invoke emu rq evs)).
Proof.
  apply wire_ok_run. unfold handler_begin.
  destruct (parse_body (rawBody rq)); simpl; (split; [left; reflexivity|reflexivity]).
Qed.

(** The head of the worker's response that the handler holds was delivered
    by one of the callbacks. *)
Lemma runtimeRes_script script : forall st,
  runtimeRes (fold_left perform script st) = runtimeRes st.
Proof.
  induction script as [|a script IH]; intros st; simpl; [reflexivity|].
  rewrite IH. unfold perform. destruct (uncaught st); [reflexivity|].
  destruct a as [el|sg]; [|reflexivity].
  unfold emit. destruct (fatal_subscriber _ _); reflexivity.
Qed.

Lemma runtimeRes_callback `{External} ev st rr :
  runtimeRes (callback ev st) = Some rr ->
  runtimeRes st = Some rr \/ ev = ResHead rr.
Proof.
  destruct ev as [p buf|code|rr0|buf| | | | ]; simpl.
  - unfold on_pipe_data. cbv zeta.
    match goal with
    | |- context [fold_left perform ?s ?x] =>
        pose proof (runtimeRes_script s x) as Hs;
        destruct (uncaught (fold_left perform s x)); simpl; rewrite Hs; auto
    end.
  - auto.
  - destruct (runtimeReq st); [|auto]. destruct (runtimeRes st) eqn:Hr; [rewrite Hr; auto|].
    simpl. intros Heq. inversion Heq. auto.
  - destruct (runtimeRes st) as [m|] eqn:Hr; [|rewrite Hr; auto].
    unfold on_res. destruct (on_data m buf (res st)) as [r [e|]]; simpl; rewrite Hr; auto.
  - destruct (runtimeRes st) as [m|] eqn:Hr; [|rewrite Hr; auto].
    unfold on_res. destruct (on_close_or_end m (res st)) as [r [e|]]; simpl; rewrite Hr; auto.
  - destruct (runtimeRes st) as [m|] eqn:Hr; [|rewrite Hr; auto].
    unfold on_res. destruct (on_close_or_end m (res st)) as [r [e|]]; simpl; rewrite Hr; auto.
  - destruct (runtimeReq st); auto.
  - destruct (runtimeReq st); auto.
Qed.

Lemma runtimeRes_resume st : runtimeRes (resume st) = runtimeRes st.
Proof.
  unfold resume. destruct (phase st); try reflexivity.
  - destruct (ready (runtime st)); reflexivity.
  - destruct (triggerLog st) as [|el|e]; try reflexivity.
    unfold after_triggerLog. destruct (triggers (data el)) as [tm|]; [|reflexivity].
    destruct (tm !! trigger_name (req st)) as [t|]; [|reflexivity].
    destruct (httpsTrigger (definition t)); reflexivity.
  - destruct (exit (runtime st)); try reflexivity.
    destruct (res_json acknowledged (res st)); reflexivity.
  - destruct (exit (runtime st)); reflexivity.
Qed.

Lemma runtimeRes_then_ready st : runtimeRes (then_ready st) = runtimeRes st.
Proof.
  unfold then_ready. destruct (readyLog (runtime st)); try reflexivity.
  destruct (ready (runtime st)); reflexivity.
Qed.

Lemma runtimeRes_step `{External} st ev rr :
  runtimeRes (step st ev) = Some rr ->
  runtimeRes st = Some rr \/ ev = ResHead rr.
Proof.
  unfold step. destruct (uncaught st); [auto|]. cbv zeta.
  destruct (uncaught (callback ev st)); [apply runtimeRes_callback|].
  unfold microtasks. rewrite !runtimeRes_resume, runtimeRes_then_ready.
  apply runtimeRes_callback.
Qed.

Lemma runtimeRes_run `{External} evs : forall st rr,
  runtimeRes (run st evs) = Some rr ->
  runtimeRes st = Some rr \/ In (ResHead rr) evs.
Proof.
  unfold run. induction evs as [|ev evs IH]; intros st rr Hr; simpl in *; [auto|].
  destruct (IH _ _ Hr) as [Hs|Hin]; [|auto].
  destruct (runtimeRes_step _ _ _ Hs); [auto|subst ev; auto].
Qed.

(** X10: whatever the callbacks, a reply of the emulator has status 200 or
    the status of the worker's response, whose head one of the callbacks has
    delivered: the emulator has no error status of its own. *)
Theorem reply_status_200_or_worker `{External} :
  forall emu rq evs status body,
    reply (res (invoke emu rq evs)) = Some (status, body) ->
    status = 200 \/
    exists rr, In (ResHead rr) evs /\
               runtimeRes (invoke emu rq evs) = Some rr /\
               status = statusCode_or_200 rr.
Proof.
  intros emu rq evs status body Hr.
  destruct (wire_ok_invoke emu rq evs) as [_ Hw].
  unfold reply in Hr.
  destruct (wire (res (invoke emu rq evs))) as [|[s hs|b|] w]; try discriminate.
  destruct (finished (res (invoke emu rq evs))); [|discriminate].
  inversion Hr; subst s. destruct Hw as [_ [->|(m & Hm & ->)]]; [left; reflexivity|].
  right. exists m. split; [|auto].
  destruct (runtimeRes_run evs _ _ Hm) as [Hb|Hin]; [|exact Hin].
  unfold handler_begin in Hb. destruct (parse_body (rawBody rq)); discriminate.
Qed.

Lemma reply_status_200_or_worker_witness :
  404 = 200 \/
  exists rr,
    In (ResHead rr)
       [PipeData Stdout ("triggers" ++ nl ++ "ready" ++ nl);
        ResHead missing_head; ResData "gone"; ResEnd] /\
    runtimeRes (@invoke sample_host sample_emulator echo_request
                  [PipeData Stdout ("triggers" ++ nl ++ "ready" ++ nl);
                   ResHead missing_head; ResData "gone"; ResEnd])
    = Some rr /\
    404 = statusCode_or_200 rr.
Proof.
  apply (@reply_status_200_or_worker sample_host sample_emulator echo_request
           [PipeData Stdout ("triggers" ++ nl ++ "ready" ++ nl);
            ResHead missing_head; ResData "gone"; ResEnd] 404 "gone").
  reflexivity.
Defined.

(** ** Streaming the worker's response *)

Lemma resume_proxy st :
  stable st -> runtimeReq st <> None ->
  res (resume st) = res st /\ runtimeReq (resume st) = runtimeReq st /\
  uncaught (resume st) = uncaught st.
Proof.
  intros Hst Hq. pose proof (st_phase _ Hst) as Hph.
  unfold phase_ok in Hph. unfold resume.
  destruct (phase st) as [| | | | |[]]; try tauto; try (repeat split; reflexivity).
  destruct (exit (runtime st)); repeat split; reflexivity.
Qed.

Lemma microtasks_proxy st :
  stable st -> runtimeReq st <> None ->
  res (microtasks st) = res st /\ uncaught (microtasks st) = uncaught st.
Proof.
  intros Hst Hq. unfold microtasks.
  pose proof (stable_then_ready _ Hst) as Hs0.
  assert (H0 : res (then_ready st) = res st /\
               runtimeReq (then_ready st) = runtimeReq st /\
               uncaught (then_ready st) = uncaught st).
  { unfold then_ready. destruct (readyLog (runtime st)); auto.
    destruct (ready (runtime st)); auto. }
  destruct H0 as (Hr0 & Hq0 & Hu0).
  assert (Hq0' : runtimeReq (then_ready st) <> None) by (rewrite Hq0; exact Hq).
  destruct (resume_proxy _ Hs0 Hq0') as (Hr1 & Hq1 & Hu1).
  pose proof (stable_resume _ Hs0) as Hs1.
  assert (Hq1' : runtimeReq (resume (then_ready st)) <> None) by (rewrite Hq1; exact Hq0').
  destruct (resume_proxy _ Hs1 Hq1') as (Hr2 & Hq2 & Hu2).
  pose proof (stable_resume _ Hs1) as Hs2.
  assert (Hq2' : runtimeReq (resume (resume (then_ready st))) <> None)
    by (rewrite Hq2; exact Hq1').
  destruct (resume_proxy _ Hs2 Hq2') as (Hr3 & Hq3 & Hu3).
  split; congruence.
Qed.

Lemma microtasks_runtimeRes st : runtimeRes (microtasks st) = runtimeRes st.
Proof. unfold microtasks. rewrite !runtimeRes_resume. apply runtimeRes_then_ready. Qed.

Lemma step_on_res `{External} st ev f r :
  stable st -> uncaught st = None -> runtimeRes st <> None ->
  callback ev st = on_res f st -> f (res st) = (r, None) ->
  let st' := step st ev in
  stable st' /\ uncaught st' = None /\ runtimeRes st' = runtimeRes st /\
  res st' = r.
Proof.
  intros Hst Hu Hrr Hcb Hf. cbv zeta.
  pose proof (stable_step st ev Hst) as Hst'.
  split; [exact Hst'|].
  pose proof (stable_callback ev st Hst) as Hsc.
  unfold step. rewrite Hu. cbv zeta. rewrite Hcb in *.
  unfold on_res in *. rewrite Hf in *. simpl. rewrite Hu.
  assert (Hq : runtimeReq (set_res r st) <> None).
  { simpl. apply (st_runtimeRes _ Hst), Hrr. }
  destruct (microtasks_proxy _ Hsc Hq) as [Hr Hun].
  rewrite microtasks_runtimeRes. simpl in *. rewrite Hr, Hun. auto.
Qed.

Lemma data_step `{External} rr st buf :
  streaming rr st ->
  exists r1,
    forwardStatusAndHeaders rr (res st) = Ok r1 /\
    streaming rr (step st (ResData buf)) /\
    headersSent (res (step st (ResData buf))) = true /\
    wire (res (step st (ResData buf)))
    = ((if headersSent (res st) then wire (res st)
        else wire (res st) ++ [Head (statusCode_or_200 rr) (headers r1)])
       ++ [Chunk buf])%list.
Proof.
  intros (Hst & Hu & Hrr & Hfin).
  destruct (forwardStatusAndHeaders_total rr (res st))
    as (r1 & Hf & Hs & Hfn & Hw & Hsc & _).
  exists r1. split; [exact Hf|].
  assert (Hne : runtimeRes st <> None) by congruence.
  assert (Hd : on_data rr buf (res st)
               = ({| statusCode := statusCode (flush_head r1);
                     headers := headers (flush_head r1);
                     headersSent := true; finished := false;
                     wire := wire (flush_head r1) ++ [Chunk buf] |}, None)).
  { unfold on_data. rewrite Hf. unfold res_write. rewrite Hfn, Hfin. reflexivity. }
  assert (Hcb : callback (ResData buf) st = on_res (on_data rr buf) st)
    by (simpl; rewrite Hrr; reflexivity).
  destruct (step_on_res st (ResData buf) (on_data rr buf) _ Hst Hu Hne Hcb Hd)
    as (S1 & S2 & S3 & S4).
  cbv zeta in *. rewrite S4. simpl. split; [|split; [reflexivity|]].
  - split; [exact S1|]. split; [exact S2|]. split; [congruence|].
    rewrite S4. reflexivity.
  - unfold flush_head. rewrite Hs. destruct (headersSent (res st)); simpl;
      rewrite Hw, ?Hsc; reflexivity.
Qed.

Lemma end_step `{External} rr st ev :
  ev = ResEnd \/ ev = ResClose ->
  streaming rr st ->
  exists r1,
    forwardStatusAndHeaders rr (res st) = Ok r1 /\
    uncaught (step st ev) = None /\
    finished (res (step st ev)) = true /\
    wire (res (step st ev))
    = ((if headersSent (res st) then wire (res st)
        else wire (res st) ++ [Head (statusCode_or_200 rr) (headers r1)])
       ++ [Fin])%list.
Proof.
  intros Hev (Hst & Hu & Hrr & Hfin).
  destruct (forwardStatusAndHeaders_total rr (res st))
    as (r1 & Hf & Hs & Hfn & Hw & Hsc & _).
  exists r1. split; [exact Hf|].
  assert (Hne : runtimeRes st <> None) by congruence.
  assert (Hd : on_close_or_end rr (res st)
               = ({| statusCode := statusCode (flush_head r1);
                     headers := headers (flush_head r1);
                     headersSent := true; finished := true;
                     wire := wire (flush_head r1) ++ [Fin] |}, None)).
  { unfold on_close_or_end. rewrite Hf. unfold res_end. rewrite Hfn, Hfin. reflexivity. }
  assert (Hcb : callback ev st = on_res (on_close_or_end rr) st)
    by (destruct Hev; subst ev; simpl; rewrite Hrr; reflexivity).
  destruct (step_on_res st ev (on_close_or_end rr) _ Hst Hu Hne Hcb Hd)
    as (S1 & S2 & S3 & S4).
  cbv zeta in *. rewrite S4. simpl. split; [exact S2|]. split; [reflexivity|].
  unfold flush_head. rewrite Hs. destruct (headersSent (res st)); simpl;
    rewrite Hw, ?Hsc; reflexivity.
Qed.

Lemma data_run `{External} rr bufs : forall st,
  streaming rr st -> headersSent (res st) = true ->
  streaming rr (run st (map ResData bufs)) /\
  headersSent (res (run st (map ResData bufs))) = true /\
  wire (res (run st (map ResData bufs))) = (wire (res st) ++ map Chunk bufs)%list.
Proof.
  unfold run. induction bufs as [|buf bufs IH]; intros st Hs Hh; simpl.
  - rewrite app_nil_r. auto.
  - destruct (data_step rr st buf Hs) as (r1 & _ & Hs' & Hh' & Hw').
    destruct (IH _ Hs' Hh') as (I1 & I2 & I3).
    split; [exact I1|]. split; [exact I2|].
    rewrite I3, Hw', Hh, <- app_assoc. reflexivity.
Qed.

Lemma body_of_chunks bufs :
  body_of (map Chunk bufs ++ [Fin]) = concat_bytes bufs.
Proof.
  induction bufs as [|b bufs IH]; [reflexivity|].
  change (b ++ body_of (map Chunk bufs ++ [Fin]) = b ++ concat_bytes bufs).
  rewrite IH. reflexivity.
Qed.

Lemma stream_run `{External} rr bufs ev st :
  ev = ResEnd \/ ev = ResClose ->
  streaming rr st -> wire (res st) = [] ->
  exists r1,
    forwardStatusAndHeaders rr (res st) = Ok r1 /\
    uncaught (run st (map ResData bufs ++ [ev])) = None /\
    finished (res (run st (map ResData bufs ++ [ev]))) = true /\
    wire (res (run st (map ResData bufs ++ [ev])))
    = (Head (statusCode_or_200 rr) (headers r1) :: map Chunk bufs ++ [Fin])%list.
Proof.
  intros Hev Hs Hw.
  assert (Hh : headersSent (res st) = false).
  { destruct Hs as (Hst & _). destruct (st_response _ Hst) as (_ & _ & Hc).
    rewrite Hw in Hc. destruct (headersSent (res st)); [discriminate|reflexivity]. }
  rewrite run_snoc.
  destruct bufs as [|buf bufs].
  - simpl. unfold run. simpl.
    destruct (end_step rr st ev Hev Hs) as (r1 & Hf & E1 & E2 & E3).
    exists r1. rewrite Hh, Hw in E3. auto.
  - simpl. unfold run. simpl. fold (run (step st (ResData buf)) (map ResData bufs)).
    destruct (data_step rr st buf Hs) as (r1 & Hf & Hs' & Hh' & Hw').
    destruct (data_run rr bufs _ Hs' Hh') as (I1 & I2 & I3).
    destruct (end_step rr _ ev Hev I1) as (r2 & _ & E1 & E2 & E3).
    exists r1. split; [exact Hf|]. split; [exact E1|]. split; [exact E2|].
    rewrite E3, I2, I3, Hw', Hh, Hw. reflexivity.
Qed.

(** X11: once the handler holds the head of the worker's response and
    nothing has gone out yet, the chunks of the worker followed by the end
    (or the close) of its response give the client exactly one reply: the
    status of the worker (200 when it gives none), the forwarded headers, and
    the chunks in order, byte for byte; no callback raises. *)
Theorem worker_response_streamed `{External} :
  forall emu rq evs rr bufs ev,
    let st := invoke emu rq evs in
    let st' := invoke emu rq (evs ++ map ResData bufs ++ [ev]) in
    ev = ResEnd \/ ev = ResClose ->
    uncaught st = None ->
    runtimeRes st = Some rr ->
    wire (res st) = [] ->
    exists r1,
      forwardStatusAndHeaders rr (res st) = Ok r1 /\
      wire (res st')
      = (Head (statusCode_or_200 rr) (headers r1) :: map Chunk bufs ++ [Fin])%list /\
      reply (res st') = Some (statusCode_or_200 rr, concat_bytes bufs) /\
      uncaught st' = None.
Proof.
  intros emu rq evs rr bufs ev st st' Hev Hu Hrr Hw.
  assert (Hs : streaming rr st).
  { split; [apply stable_invoke|]. split; [exact Hu|]. split; [exact Hrr|].
    destruct (st_response _ (stable_invoke emu rq evs)) as (_ & Hc & _).
    fold st in Hc. rewrite Hw in Hc.
    destruct (finished (res st)); [discriminate|reflexivity]. }
  destruct (stream_run rr bufs ev st Hev Hs Hw) as (r1 & Hf & S1 & S2 & S3).
  assert (Heq : st' = run st (map ResData bufs ++ [ev])).
  { unfold st', st, invoke, run. rewrite fold_left_app. reflexivity. }
  exists r1. rewrite Heq. split; [exact Hf|]. split; [exact S3|]. split; [|exact S1].
  unfold reply. rewrite S3, S2, body_of_chunks. reflexivity.
Qed.

Lemma worker_response_streamed_witness :
  exists r1,
    forwardStatusAndHeaders echo_head
      (res (@invoke sample_host sample_emulator echo_request
              [PipeData Stdout ("triggers" ++ nl ++ "ready" ++ nl);
               ResHead echo_head])) = Ok r1 /\
    wire (res (@invoke sample_host sample_emulator echo_request
                 ([PipeData Stdout ("triggers" ++ nl ++ "ready" ++ nl);
                   ResHead echo_head]
                  ++ map ResData ["hel"; "lo"] ++ [ResEnd])))
    = (Head (statusCode_or_200 echo_head) (headers r1)
         :: map Chunk ["hel"; "lo"] ++ [Fin])%list /\
    reply (res (@invoke sample_host sample_emulator echo_request
                  ([PipeData Stdout ("triggers" ++ nl ++ "ready" ++ nl);
                    ResHead echo_head]
                   ++ map ResData ["hel"; "lo"] ++ [ResEnd])))
    = Some (statusCode_or_200 echo_head, concat_bytes ["hel"; "lo"]) /\
    uncaught (@invoke sample_host sample_emulator echo_request
                ([PipeData Stdout ("triggers" ++ nl ++ "ready" ++ nl);
                  ResHead echo_head]
                 ++ map ResData ["hel"; "lo"] ++ [ResEnd])) = None.
Proof.
  apply (@worker_response_streamed sample_host sample_emulator echo_request
           [PipeData Stdout ("triggers" ++ nl ++ "ready" ++ nl); ResHead echo_head]
           echo_head ["hel"; "lo"] ResEnd).
  - left. reflexivity.
  - reflexivity.
  - reflexivity.
  - reflexivity.
Defined.

(** ** The log handlers *)

Lemma printed_refl e : printed e e [].
Proof. unfold printed. rewrite app_nil_r. reflexivity. Qed.

Lemma printed_trans e1 e2 e3 l1 l2 :
  printed e1 e2 l1 -> printed e2 e3 l2 -> printed e1 e3 (l1 ++ l2)%list.
Proof. unfold printed. intros H1 H2. rewrite H2, H1, app_assoc. reflexivity. Qed.

Lemma printed_this_log ty text e :
  printed e (this_log ty text e) (log (FunctionsEmulator.quiet e) ty text).
Proof. reflexivity. Qed.

Lemma printed_this_logLabeled ty label text e :
  printed e (this_logLabeled ty label text e)
          (logLabeled (FunctionsEmulator.quiet e) ty label text).
Proof. reflexivity. Qed.

Lemma quiet_log_debug ty text :
  ty <> USER -> log true ty text = [(logger_debug, text)].
Proof. intros Hty. destruct ty; try contradiction; reflexivity. Qed.

Lemma handleSystemLog_quiet `{Display} systemLog e :
  FunctionsEmulator.quiet e = true ->
  exists lines,
    printed e (handleSystemLog systemLog e) lines /\
    (type systemLog = "admin-not-initialized" ->
     lines = [(logWarning, admin_warning)]) /\
    (type systemLog <> "admin-not-initialized" ->
     Forall (fun l => fst l = logger_debug) lines).
Proof.
  intros Hq. unfold handleSystemLog. cbv zeta.
  repeat match goal with
  | |- context [String.eqb (type systemLog) ?s] =>
      destruct (String.eqb_spec (type systemLog) s)
  | |- context [String.eqb (text systemLog) ?s] =>
      destruct (String.eqb (text systemLog) s)
  end;
  try (eexists; split; [apply printed_this_log|]; rewrite Hq;
       split; [intros; congruence|]; intros _;
       rewrite quiet_log_debug by discriminate; repeat constructor);
  try (exists []; split; [apply printed_refl|];
       split; [intros; congruence|]; intros _; constructor).
  eexists. split; [reflexivity|]. split; [reflexivity|]. intros; congruence.
Qed.

(** What [handleRuntimeLog] prints with the quiet flag. *)
Lemma handleRuntimeLog_quiet `{Display} log e :
  FunctionsEmulator.quiet e = true ->
  exists lines,
    printed e (handleRuntimeLog log e) lines /\
    (level log = "USER" ->
     lines = [(logger_info, clc_blackBright "> " ++ " " ++ text log)]) /\
    (level log = "SYSTEM" -> type log = "admin-not-initialized" ->
     lines = [(logWarning, admin_warning)]) /\
    (level log <> "USER" ->
     (level log = "SYSTEM" -> type log <> "admin-not-initialized") ->
     Forall (fun l => fst l = logger_debug) lines).
Proof.
  intros Hq. unfold handleRuntimeLog. cbv zeta.
  destruct (String.eqb_spec (level log) "SYSTEM") as [Hsys|Hsys].
  - destruct (handleSystemLog_quiet log e Hq) as (lines & Hp & Hadm & Hdbg).
    exists lines. split; [exact Hp|]. split; [intros Hu; congruence|].
    split; [intros _; exact Hadm|]. intros _ Hty. apply Hdbg, Hty, Hsys.
  - repeat match goal with
    | |- context [String.eqb (level log) ?s] =>
        destruct (String.eqb_spec (level log) s)
    end;
    (eexists; split;
     [first [apply printed_this_log|apply printed_this_logLabeled]|];
     rewrite Hq; split; [|split; [intros; congruence|]]);
    try (intros; congruence); try (intros _; reflexivity);
    intros _ _; repeat constructor.
Qed.

(** X17: with the quiet flag, a record of a worker is printed through
    [logger.debug] only, with two exceptions, which are pinned: a USER record
    gives exactly one line through [logger.info], and the SYSTEM record
    [admin-not-initialized] gives exactly one line through
    [utils.logWarning], which its clause calls without [this.log]. *)
Theorem quiet_runtime_log_sinks `{Display} :
  forall (log : EmulatorLog) (e : FunctionsEmulator.t),
    FunctionsEmulator.quiet e = true ->
    exists lines,
      printed e (handleRuntimeLog log e) lines /\
      (level log = "USER" ->
       lines = [(logger_info, clc_blackBright "> " ++ " " ++ text log)]) /\
      (level log = "SYSTEM" -> type log = "admin-not-initialized" ->
       lines = [(logWarning, admin_warning)]) /\
      (level log <> "USER" ->
       (level log = "SYSTEM" -> type log <> "admin-not-initialized") ->
       Forall (fun l => fst l = logger_debug) lines).
Proof.
  intros log e Hq.
  destruct (handleRuntimeLog_quiet log e Hq) as (lines & Hp & Huser & Hadm & Hdbg).
  exists lines. split; [exact Hp|]. split; [exact Huser|].
  split; [exact Hadm|exact Hdbg].
Qed.

Lemma quiet_runtime_log_sinks_witness :
  exists lines,
    printed quiet_emulator (@handleRuntimeLog plain_display hello_log quiet_emulator)
            lines /\
    (level hello_log = "USER" ->
     lines = [(logger_info, @clc_blackBright plain_display "> " ++ " "
                              ++ text hello_log)]) /\
    (level hello_log = "SYSTEM" -> type hello_log = "admin-not-initialized" ->
     lines = [(logWarning, admin_warning)]) /\
    (level hello_log <> "USER" ->
     (level hello_log = "SYSTEM" -> type hello_log <> "admin-not-initialized") ->
     Forall (fun l => fst l = logger_debug) lines).
Proof.
  apply (@quiet_runtime_log_sinks plain_display hello_log quiet_emulator).
  reflexivity.
Defined.

(** [handleRuntimeLog] only prints. *)
Lemma handleRuntimeLog_adds `{Display} log e :
  exists lines,
    handleRuntimeLog log e
    = FunctionsEmulator.set_display (FunctionsEmulator.display e ++ lines) e.
Proof.
  assert (Hnone : e = FunctionsEmulator.set_display (FunctionsEmulator.display e ++ []) e).
  { destruct e. unfold FunctionsEmulator.set_display. simpl.
    rewrite app_nil_r. reflexivity. }
  unfold handleRuntimeLog, handleSystemLog, this_log, this_logLabeled,
    utils_logWarning. cbv zeta.
  repeat match goal with
  | |- context [if ?b then _ else _] => destruct b
  end; try (eexists; reflexivity); exists []; exact Hnone.
Qed.

Lemma display_all_snoc `{Display} els el e :
  display_all (els ++ [el]) e = handleRuntimeLog el (display_all els e).
Proof. unfold display_all. rewrite fold_left_app. reflexivity. Qed.

Lemma display_all_adds `{Display} els : forall e,
  exists lines,
    display_all els e
    = FunctionsEmulator.set_display (FunctionsEmulator.display e ++ lines) e.
Proof.
  induction els as [|el els IH] using rev_ind; intros e.
  - exists []. destruct e. unfold display_all, FunctionsEmulator.set_display. simpl.
    rewrite app_nil_r. reflexivity.
  - rewrite display_all_snoc. destruct (IH e) as (l1 & ->).
    destruct (handleRuntimeLog_adds el
                (FunctionsEmulator.set_display (FunctionsEmulator.display e ++ l1) e))
      as (l2 & ->).
    exists (l1 ++ l2)%list. unfold FunctionsEmulator.set_display. simpl.
    rewrite app_assoc. reflexivity.
Qed.

Lemma display_all_quiet `{Display} els e :
  FunctionsEmulator.quiet (display_all els e) = FunctionsEmulator.quiet e.
Proof. destruct (display_all_adds els e) as (l & ->). reflexivity. Qed.

(** X18: when no subscriber raises, a complete line of a worker pipe that
    carries a FATAL record makes [handleRuntimeLog], which listens to every
    record that the supervisor emits, print two warnings one after the
    other: the text of the record, and, for the record killed that follows
    it on the stream, that the function was killed. *)
Theorem fatal_line_displayed `{External} `{Display} :
  forall (st : Invocation) (p : Pipe) (buf line : string)
         (e : FunctionsEmulator.t),
    let value := buffer_value p (runtime st) ++ buf in
    let st' := on_pipe_data p buf st in
    In line (List.removelast (split_lines value)) ->
    level (fromJSON line) = "FATAL" ->
    uncaught st' = None ->
    exists before after,
      events (runtime st')
      = (events (runtime st) ++ before ++ [fromJSON line; killedLog] ++ after)%list /\
      printed (display_all (events (runtime st) ++ before) e)
              (display_all (events (runtime st) ++ before
                              ++ [fromJSON line; killedLog]) e)
              (log (FunctionsEmulator.quiet e) WARN (text (fromJSON line))
                 ++ log (FunctionsEmulator.quiet e) WARN killed_warning)%list.
Proof.
  intros st p buf line e value st' Hin Hfatal Halive.
  pose proof (removelast_In_length _ _ Hin) as Hlen.
  destruct (flat_map_split line_actions _ _ Hin) as (l1 & l2 & Hsplit).
  rewrite (line_actions_fatal _ Hfatal) in Hsplit.
  destruct (on_pipe_data_trace p buf st Halive) as [He _].
  fold value in He. unfold data_actions in He. cbv zeta in He.
  apply Nat.ltb_lt in Hlen. rewrite Hlen, Hsplit in He.
  rewrite !emitted_app in He. simpl in He.
  exists (emitted (flat_map line_actions l1)), (emitted (flat_map line_actions l2)).
  split; [exact He|].
  set (A := (events (runtime st) ++ emitted (flat_map line_actions l1))%list).
  replace (events (runtime st) ++ emitted (flat_map line_actions l1)
             ++ [fromJSON line; killedLog])%list
    with ((A ++ [fromJSON line]) ++ [killedLog])%list
    by (unfold A; rewrite <- !app_assoc; reflexivity).
  rewrite !display_all_snoc.
  rewrite <- (display_all_quiet A e).
  generalize (display_all A e). intros e0.
  unfold handleRuntimeLog at 2. cbv zeta. rewrite Hfatal. simpl.
  unfold printed. simpl. rewrite app_assoc. reflexivity.
Qed.

Lemma fatal_line_displayed_witness :
  exists before after,
    events (runtime (@on_pipe_data sample_host Stderr ("boom" ++ nl) onWrite_ready))
    = (events (runtime onWrite_ready) ++ before
         ++ [@fromJSON sample_host "boom"; killedLog] ++ after)%list /\
    printed (@display_all plain_display (events (runtime onWrite_ready) ++ before)
               sample_emulator)
            (@display_all plain_display
               (events (runtime onWrite_ready) ++ before
                  ++ [@fromJSON sample_host "boom"; killedLog]) sample_emulator)
            (log (FunctionsEmulator.quiet sample_emulator) WARN
                 (text (@fromJSON sample_host "boom"))
               ++ log (FunctionsEmulator.quiet sample_emulator) WARN killed_warning)%list.
Proof.
  apply (@fatal_line_displayed sample_host plain_display onWrite_ready Stderr
           ("boom" ++ nl) "boom" sample_emulator).
  - vm_compute. left. reflexivity.
  - reflexivity.
  - reflexivity.
Defined.

(** On the input of C1 and C7 the subscriber of the handler raises on the
    FATAL record: [handleRuntimeLog], which runs before it, has printed the
    text of the record, and the warning for the record killed never comes. *)
Example fatal_after_head_one_warning :
  let st := @invoke sample_host sample_emulator echo_request partial_then_fatal in
  events (runtime st) = [triggers_log; ready_log; boom_log] /\
  FunctionsEmulator.display
    (@display_all plain_display (events (runtime st)) sample_emulator)
  = [(logWarning, "boom")].
Proof. cbv zeta. split; reflexivity. Qed.

(** ** The choice of the node binary *)




(** ** More on the trigger loader *)

(** A name that every object inherits counts as known before any reload:
    the filter of the loader drops the Firestore trigger [toString], so that
    the loader sends no PUT for it, though the Firestore emulator would
    refuse it, and sets up [echo] only. *)
Example inherited_name_is_skipped :
  let out := @loadTriggers refusing_host inherited_name_log sample_emulator in
  toSetup_of (FunctionsEmulator.knownTriggerIDs sample_emulator)
             [toString_definition; echo_definition] = [echo_definition] /\
  snd out = Resolved tt /\
  FunctionsEmulator.knownTriggerIDs (fst out) = {[ "echo" := true ]} /\
  map fst (FunctionsEmulator.display (fst out)) = [logLabeledBullet "functions"].
Proof. cbv zeta. repeat split; reflexivity. Qed.

Lemma hushed_log quiet ty text :
  ty <> USER -> hushed quiet (log quiet ty text).
Proof.
  intros Hty Hq. subst quiet. unfold log.
  destruct ty; try contradiction; simpl; repeat constructor.
Qed.

Lemma hushed_logLabeled quiet ty label text :
  hushed quiet (logLabeled quiet ty label text).
Proof. intros Hq. subst quiet. simpl. repeat constructor. Qed.

Lemma hushed_app quiet l1 l2 :
  hushed quiet l1 -> hushed quiet l2 -> hushed quiet (l1 ++ l2)%list.
Proof. intros H1 H2 Hq. apply Forall_app. split; auto. Qed.

Lemma hushed_nil quiet : hushed quiet [].
Proof. intros _. constructor. Qed.

Lemma setup_trigger_printed `{External} d e :
  exists lines,
    printed e (fst (setup_trigger d e)) lines /\
    hushed (FunctionsEmulator.quiet e) lines.
Proof.
  unfold setup_trigger, addFirestoreTrigger, this_log, this_logLabeled, printed.
  assert (Hdbg : hushed (FunctionsEmulator.quiet e) [(logger_debug, "addFirestoreTrigger")]).
  { intros _. repeat constructor. }
  repeat (case_match; simpl); rewrite <- ?app_assoc;
    eexists; (split; [reflexivity|]);
    repeat apply hushed_app;
    try apply hushed_logLabeled; try (apply hushed_log; discriminate);
    try exact Hdbg.
Qed.

(** The loop with set-ups that all end well. *)
Lemma setup_triggers_resolves `{External} toSetup : forall e,
  forallb (setup_ok (FunctionsEmulator.projectId e)) toSetup = true ->
  snd (setup_triggers toSetup e) = Resolved tt /\
  FunctionsEmulator.knownTriggerIDs (fst (setup_triggers toSetup e))
    = add_known (FunctionsEmulator.knownTriggerIDs e) toSetup /\
  FunctionsEmulator.triggers (fst (setup_triggers toSetup e))
    = FunctionsEmulator.triggers e.
Proof.
  induction toSetup as [|d ds IH]; intros e Hok; simpl; [auto|].
  simpl in Hok. apply andb_prop in Hok as [Hd Hds].
  pose proof (setup_ok_resolves d e Hd) as Hres.
  destruct (setup_trigger_fields d e) as (Hpid & Hkn & Htr & _).
  destruct (setup_trigger d e) as [e1 r]. simpl in *. subst r.
  match goal with
  | |- context [setup_triggers ds ?e2] =>
      destruct (IH e2) as (I1 & I2 & I3); [simpl; rewrite Hpid; exact Hds|]
  end.
  split; [exact I1|]. split.
  - rewrite I2. simpl. rewrite Hkn. reflexivity.
  - rewrite I3. exact Htr.
Qed.


Lemma toSetup_of_known known defs :
  (forall d, In d defs -> is_known known (name d) = true) ->
  toSetup_of known defs = [].
Proof.
  intros Hall. unfold toSetup_of.
  induction defs as [|d ds IH]; simpl; [reflexivity|].
  rewrite (Hall d) by (left; reflexivity). simpl.
  apply IH. intros x Hin. apply Hall. right. exact Hin.
Qed.

Lemma set_triggers_same e :
  FunctionsEmulator.set_triggers (FunctionsEmulator.triggers e) e = e.
Proof. destruct e. reflexivity. Qed.




(** X14: without a Firestore emulator (no port, or port 0) no set-up can
    fail or hang: every reload on a record that carries definitions
    completes. *)
Theorem reload_without_firestore_completes `{External} :
  forall (triggerParseEvent : EmulatorLog) defs (e : FunctionsEmulator.t),
    firestorePort = None \/ firestorePort = Some 0 ->
    triggerDefinitions (data triggerParseEvent) = Some defs ->
    snd (loadTriggers triggerParseEvent e) = Resolved tt.
Proof.
  intros ev defs e Hport Hdefs. unfold loadTriggers. rewrite Hdefs.
  apply setup_triggers_resolves.
  apply forallb_forall. intros d _. unfold setup_ok.
  destruct Hport as [->| ->]; simpl;
    destruct (httpsTrigger d), (String.eqb (service_of d) SERVICE_FIRESTORE);
    reflexivity.
Qed.

Lemma reload_without_firestore_completes_witness :
  snd (@loadTriggers offline_host three_triggers_log sample_emulator) = Resolved tt.
Proof.
  apply (@reload_without_firestore_completes offline_host three_triggers_log
           [echo_definition; onWrite_definition; onAuth_definition] sample_emulator).
  - left. reflexivity.
  - reflexivity.
Defined.

(** ** The reload callback by callback *)

(** The two halves of [addFirestoreTrigger] make the whole. *)
Lemma setup_trigger_put `{External} d fp e :
  put_port d = Some fp ->
  setup_trigger d e
  = put_callback (FunctionsEmulator.projectId e) fp d (put_request d e).
Proof.
  unfold put_port, setup_trigger, addFirestoreTrigger, put_callback, put_request.
  destruct (httpsTrigger d); [discriminate|].
  destruct (String.eqb (service_of d) SERVICE_FIRESTORE); [|discriminate].
  destruct firestorePort as [p|]; [|discriminate].
  destruct (p =? 0); [discriminate|]. intros Hp. inversion Hp; subst p.
  reflexivity.
Qed.

Lemma setup_trigger_no_put `{External} d e :
  put_port d = None -> snd (setup_trigger d e) = Resolved tt.
Proof.
  unfold put_port, setup_trigger, addFirestoreTrigger.
  destruct (httpsTrigger d); [reflexivity|].
  destruct (String.eqb (service_of d) SERVICE_FIRESTORE); [|reflexivity].
  destruct firestorePort as [p|]; [|reflexivity].
  destruct (p =? 0); [reflexivity|discriminate].
Qed.

Lemma put_request_fields d e :
  FunctionsEmulator.projectId (put_request d e) = FunctionsEmulator.projectId e /\
  FunctionsEmulator.knownTriggerIDs (put_request d e)
    = FunctionsEmulator.knownTriggerIDs e /\
  FunctionsEmulator.triggers (put_request d e) = FunctionsEmulator.triggers e /\
  FunctionsEmulator.quiet (put_request d e) = FunctionsEmulator.quiet e.
Proof. repeat split. Qed.

Lemma put_callback_fields `{External} pid fp d e :
  let e1 := fst (put_callback pid fp d e) in
  FunctionsEmulator.projectId e1 = FunctionsEmulator.projectId e /\
  FunctionsEmulator.knownTriggerIDs e1 = FunctionsEmulator.knownTriggerIDs e /\
  FunctionsEmulator.triggers e1 = FunctionsEmulator.triggers e /\
  FunctionsEmulator.quiet e1 = FunctionsEmulator.quiet e.
Proof.
  unfold put_callback. repeat (case_match; simpl); repeat split.
Qed.

Lemma put_request_printed d e :
  exists lines,
    printed e (put_request d e) lines /\ hushed (FunctionsEmulator.quiet e) lines.
Proof.
  unfold put_request, this_logLabeled, printed. simpl. rewrite <- app_assoc.
  eexists. split; [reflexivity|].
  apply hushed_app; [apply hushed_logLabeled|]. intros _. repeat constructor.
Qed.

Lemma put_callback_printed `{External} pid fp d e :
  exists lines,
    printed e (fst (put_callback pid fp d e)) lines /\
    hushed (FunctionsEmulator.quiet e) lines.
Proof.
  unfold put_callback, this_log, this_logLabeled, printed.
  repeat (case_match; simpl);
    first [ exists []; split; [rewrite app_nil_r; reflexivity|apply hushed_nil]
          | eexists; split; [reflexivity|];
            first [apply hushed_logLabeled|apply hushed_log; discriminate] ].
Qed.

Lemma reload_step_PutDone_idle `{External} `{Display} r :
  (forall fp d rest, rl_phase r <> AwaitPut fp d rest) ->
  reload_step r PutDone = r.
Proof.
  intros Hph. unfold reload_step, reload_put_done.
  destruct (rl_phase r) as [|fp d rest| | |]; try reflexivity.
  destruct (Hph fp d rest). reflexivity.
Qed.

Lemma reload_drain_idle `{External} `{Display} n : forall r,
  (forall fp d rest, rl_phase r <> AwaitPut fp d rest) ->
  fold_left reload_step (repeat PutDone n) r = r.
Proof.
  induction n as [|n IH]; intros r Hph; simpl; [reflexivity|].
  rewrite reload_step_PutDone_idle by exact Hph. apply IH, Hph.
Qed.

Lemma reload_step_put `{External} `{Display} r fp d rest :
  rl_phase r = AwaitPut fp d rest ->
  reload_step r PutDone
  = match put_callback (FunctionsEmulator.projectId (rl_emu r)) fp d (rl_emu r) with
    | (e1, Resolved _) =>
        let out := loader_loop rest
                     (FunctionsEmulator.set_knownTriggerIDs
                        (mark_known (name d) (FunctionsEmulator.knownTriggerIDs e1))
                        e1) in
        rl_set_phase (snd out) (rl_set_emu (fst out) r)
    | (e1, Rejected err) => rl_set_phase (LoadFailed err) (rl_set_emu e1 r)
    | (e1, Pending) => rl_set_phase (PutRaised SyntaxError) (rl_set_emu e1 r)
    end.
Proof. intros Hph. unfold reload_step, reload_put_done. rewrite Hph. reflexivity. Qed.

(** When the answers to the PUTs arrive and the worker emits nothing in
    between, the loop of the closure ends as [setup_triggers] says. *)
Lemma loader_loop_drain `{External} `{Display} toSetup : forall e r0 n,
  (length toSetup <= n)%nat ->
  let out := loader_loop toSetup e in
  let r := fold_left reload_step (repeat PutDone n)
             (rl_set_phase (snd out) (rl_set_emu (fst out) r0)) in
  rl_emu r = fst (setup_triggers toSetup e) /\
  promise_of (rl_phase r) = snd (setup_triggers toSetup e).
Proof.
  induction toSetup as [|d rest IH]; intros e r0 n Hn; cbv zeta.
  - simpl. rewrite reload_drain_idle by (intros; discriminate). split; reflexivity.
  - cbn [loader_loop setup_triggers]. destruct (put_port d) as [fp|] eqn:Hp.
    + destruct n as [|n]; [simpl in Hn; lia|]. simpl in Hn.
      cbn [repeat fold_left fst snd].
      rewrite (reload_step_put _ fp d rest) by reflexivity.
      cbn [rl_emu rl_set_phase rl_set_emu].
      destruct (put_request_fields d e) as (Hpid & _).
      rewrite Hpid, <- (setup_trigger_put d fp e Hp).
      destruct (setup_trigger d e) as [e1 [|u|err]].
      * rewrite reload_drain_idle by (intros; discriminate). split; reflexivity.
      * cbv zeta.
        pose proof (IH (FunctionsEmulator.set_knownTriggerIDs
                          (mark_known (name d) (FunctionsEmulator.knownTriggerIDs e1))
                          e1)
                       (rl_set_phase (AwaitPut fp d rest)
                          (rl_set_emu (put_request d e) r0)) n) as IH'.
        cbv zeta in IH'. apply IH'. lia.
      * rewrite reload_drain_idle by (intros; discriminate). split; reflexivity.
    + pose proof (setup_trigger_no_put d e Hp) as Hres.
      destruct (setup_trigger d e) as [e1 p]. simpl in *. subst p.
      apply (IH _ r0 n). lia.
Qed.

(** The closure from the triggers-parsed record on is [loadTriggers], when
    the answers to the PUTs arrive and the worker emits nothing more. *)
Lemma reload_is_loadTriggers `{External} `{Display} r triggerParseEvent n :
  rl_phase r = AwaitParsed ->
  rl_parsed r = Resolved triggerParseEvent ->
  (length (default [] (triggerDefinitions (data triggerParseEvent))) <= n)%nat ->
  let r' := fold_left reload_step (repeat PutDone n) (reload_resume r) in
  rl_emu r' = fst (loadTriggers triggerParseEvent (rl_emu r)) /\
  promise_of (rl_phase r') = snd (loadTriggers triggerParseEvent (rl_emu r)).
Proof.
  intros Hph Hpa Hn. cbv zeta. unfold reload_resume, loadTriggers.
  rewrite Hph, Hpa.
  destruct (triggerDefinitions (data triggerParseEvent)) as [defs|]; simpl in *.
  - apply (loader_loop_drain _ _ r n).
    unfold toSetup_of. etransitivity; [apply filter_length_le|exact Hn].
  - rewrite reload_drain_idle by (intros; discriminate). split; reflexivity.
Qed.

(** The PUT that meets a transport error, callback by callback: the warning
    is the last line printed, the closure has raised, and neither the
    trigger table nor the known names have changed; in particular the
    failing trigger has not been marked. *)
Lemma put_error_fails_reload `{External} `{Display} r fp d rest err :
  rl_phase r = AwaitPut fp d rest ->
  request_put (firestore_url fp (FunctionsEmulator.projectId (rl_emu r)) (name d))
              (stringify_bundle (eventTrigger d)) = PutError err ->
  let r' := reload_step r PutDone in
  rl_phase r' = LoadFailed NoReason /\
  promise_of (rl_phase r') = Rejected NoReason /\
  printed (rl_emu r) (rl_emu r')
          (log (FunctionsEmulator.quiet (rl_emu r)) WARN
               ("Error adding trigger: " ++ err)) /\
  FunctionsEmulator.knownTriggerIDs (rl_emu r')
    = FunctionsEmulator.knownTriggerIDs (rl_emu r) /\
  FunctionsEmulator.triggers (rl_emu r') = FunctionsEmulator.triggers (rl_emu r).
Proof.
  intros Hph Hput. cbv zeta. rewrite (reload_step_put r fp d rest Hph).
  unfold put_callback. rewrite Hput. simpl. repeat split.
Qed.

(** *** What a callback of the diagnostic worker changes *)

Lemma display_all_app `{Display} l1 l2 e :
  display_all (l1 ++ l2) e = display_all l2 (display_all l1 e).
Proof. unfold display_all. apply fold_left_app. Qed.

Lemma listener_keeps lvl ty filter el ev :
  waitForLog_listener lvl ty filter el (Resolved ev) = Resolved ev.
Proof.
  destruct (listener_cases lvl ty filter el (Resolved ev)) as [Hs|(Hp & _)];
    [exact Hs|discriminate].
Qed.

Lemma listener_not_rejected lvl ty filter el p :
  (forall e, p <> Rejected e) ->
  forall e, waitForLog_listener lvl ty filter el p <> Rejected e.
Proof.
  intros Hp e. destruct (listener_cases lvl ty filter el p) as [->|(_ & _ & ->)];
    [apply Hp|discriminate].
Qed.

Lemma reload_script_trace `{Display} script : forall r,
  let r' := fold_left reload_perform script r in
  rl_emu r' = display_all (emitted script) (rl_emu r) /\
  events (rl_runtime r') = (events (rl_runtime r) ++ emitted script)%list /\
  rl_phase r' = rl_phase r /\
  (forall ev, rl_parsed r = Resolved ev -> rl_parsed r' = Resolved ev) /\
  ((forall e, rl_parsed r <> Rejected e) -> forall e, rl_parsed r' <> Rejected e).
Proof.
  induction script as [|a script IH]; intros r; cbv zeta.
  - simpl. rewrite app_nil_r. repeat split; auto.
  - cbn [fold_left]. destruct (IH (reload_perform r a)) as (I1 & I2 & I3 & I4 & I5).
    destruct a as [el|sg].
    + rewrite I1, I2, I3. simpl. rewrite <- app_assoc. repeat split.
      * intros ev Hev. apply I4. simpl. rewrite Hev. apply listener_keeps.
      * intros Hn. apply I5. simpl. apply listener_not_rejected, Hn.
    + rewrite I1, I2, I3. simpl. repeat split.
      * intros ev Hev. apply I4. exact Hev.
      * intros Hn. apply I5. exact Hn.
Qed.

Lemma events_set_buffer p v rt : events (set_buffer p v rt) = events rt.
Proof. destruct p; reflexivity. Qed.

(** A "data" callback of the diagnostic worker with the promise jobs that
    the waiter of [ready] makes runnable: [handleRuntimeLog] has been called
    on the records of the complete lines, in order, and nothing else of the
    emulator has changed. *)
Lemma reload_data_trace `{External} `{Display} p buf r :
  let r' := reload_then_ready (reload_data p buf r) in
  exists els,
    rl_emu r' = display_all els (rl_emu r) /\
    events (rl_runtime r') = (events (rl_runtime r) ++ els)%list /\
    rl_phase r' = rl_phase r /\
    (forall ev, rl_parsed r = Resolved ev -> rl_parsed r' = Resolved ev) /\
    ((forall e, rl_parsed r <> Rejected e) -> forall e, rl_parsed r' <> Rejected e).
Proof.
  cbv zeta. unfold reload_data. cbv zeta.
  set (value := buffer_value p (rl_runtime r) ++ buf).
  set (r1 := rl_set_runtime (set_buffer p value (rl_runtime r)) r).
  destruct (reload_script_trace (data_actions value) r1) as (T1 & T2 & T3 & T4 & T5).
  cbv zeta in *.
  set (r2 := fold_left reload_perform (data_actions value) r1) in *.
  exists (emitted (data_actions value)).
  assert (Hthen : forall x,
            rl_emu (reload_then_ready x) = rl_emu x /\
            events (rl_runtime (reload_then_ready x)) = events (rl_runtime x) /\
            rl_phase (reload_then_ready x) = rl_phase x /\
            rl_parsed (reload_then_ready x) = rl_parsed x).
  { intros x. unfold reload_then_ready.
    destruct (readyLog (rl_runtime x)); try (repeat split; reflexivity).
    destruct (ready (rl_runtime x)); repeat split; reflexivity. }
  destruct (Hthen (rl_set_runtime (set_buffer p (last_line value) (rl_runtime r2)) r2))
    as (H1 & H2 & H3 & H4).
  rewrite H1, H2, H3, H4. simpl. rewrite ?events_set_buffer, T1, T2, T3.
  unfold r1. simpl. rewrite ?events_set_buffer. repeat split; auto.
Qed.

Lemma handleRuntimeLog_fields `{Display} el e :
  FunctionsEmulator.knownTriggerIDs (handleRuntimeLog el e)
    = FunctionsEmulator.knownTriggerIDs e /\
  FunctionsEmulator.triggers (handleRuntimeLog el e) = FunctionsEmulator.triggers e /\
  FunctionsEmulator.quiet (handleRuntimeLog el e) = FunctionsEmulator.quiet e.
Proof. destruct (handleRuntimeLog_adds el e) as (l & ->). repeat split. Qed.

Lemma display_all_fields `{Display} els e :
  FunctionsEmulator.knownTriggerIDs (display_all els e)
    = FunctionsEmulator.knownTriggerIDs e /\
  FunctionsEmulator.triggers (display_all els e) = FunctionsEmulator.triggers e /\
  FunctionsEmulator.quiet (display_all els e) = FunctionsEmulator.quiet e.
Proof. destruct (display_all_adds els e) as (l & ->). repeat split. Qed.

(** *** What a reload prints with the quiet flag *)

Lemma quiet_line_more `{Display} els els' l :
  (forall el, In el els -> In el els') -> quiet_line els l -> quiet_line els' l.
Proof.
  intros Hsub [Hd|[(el & Hin & Hl)|(el & Hin & Hl)]].
  - left. exact Hd.
  - right. left. exists el. split; [apply Hsub, Hin|exact Hl].
  - right. right. exists el. split; [apply Hsub, Hin|exact Hl].
Qed.

(** Lines that the loader prints itself. *)
Lemma quietly_hushed `{Display} e0 e e' els lines :
  quietly e0 e els ->
  FunctionsEmulator.quiet e' = FunctionsEmulator.quiet e ->
  printed e e' lines ->
  hushed (FunctionsEmulator.quiet e) lines ->
  quietly e0 e' els.
Proof.
  intros (Hq & l0 & Hp & Hall) Hq' Hp' Hh. split; [congruence|].
  exists (l0 ++ lines)%list. split; [eapply printed_trans; eassumption|].
  intros Hq0. destruct (Hall Hq0) as [Hsinks Hloud]. split.
  - apply Forall_app. split; [exact Hsinks|].
    rewrite Hq in Hh. eapply Forall_impl; [exact (Hh Hq0)|].
    intros l Hl. left. exact Hl.
  - intros el Hin. destruct (Hloud el Hin) as [Hu Ha]. split.
    + intros Hlv. apply in_or_app. left. apply Hu, Hlv.
    + intros Hlv Hty. apply in_or_app. left. apply Ha; assumption.
Qed.

(** The line of a record of the worker. *)
Lemma quietly_handle `{Display} e0 e els el :
  quietly e0 e els -> quietly e0 (handleRuntimeLog el e) (els ++ [el]).
Proof.
  intros (Hq & l0 & Hp & Hall).
  destruct (handleRuntimeLog_fields el e) as (_ & _ & Hq').
  split; [congruence|].
  destruct (handleRuntimeLog_adds el e) as (l2 & Hadds).
  assert (Hp2 : printed e (handleRuntimeLog el e) l2) by (rewrite Hadds; reflexivity).
  exists (l0 ++ l2)%list. split; [eapply printed_trans; eassumption|].
  intros Hq0. destruct (Hall Hq0) as [Hsinks Hloud].
  assert (Hqe : FunctionsEmulator.quiet e = true) by congruence.
  destruct (handleRuntimeLog_quiet el e Hqe) as (l3 & Hp3 & Huser & Hadm & Hdbg).
  assert (l3 = l2) as ->.
  { unfold printed in Hp2, Hp3. rewrite Hp3 in Hp2.
    apply app_inv_head in Hp2. exact Hp2. }
  assert (Hin : In el (els ++ [el])) by (apply in_or_app; right; left; reflexivity).
  split.
  - apply Forall_app. split.
    + eapply Forall_impl; [exact Hsinks|]. intros l.
      apply quiet_line_more. intros x Hx. apply in_or_app. left. exact Hx.
    + destruct (String.eqb_spec (level el) "USER") as [Hu|Hu].
      { rewrite (Huser Hu). constructor; [|constructor].
        right. left. exists el. auto. }
      destruct (String.eqb_spec (level el) "SYSTEM") as [Hs|Hs].
      * destruct (String.eqb_spec (type el) "admin-not-initialized") as [Ht|Ht].
        -- rewrite (Hadm Hs Ht). constructor; [|constructor].
           right. right. exists el. auto.
        -- eapply Forall_impl; [apply (Hdbg Hu); intros _; exact Ht|].
           intros l Hl. left. exact Hl.
      * eapply Forall_impl; [apply (Hdbg Hu); intros Hc; contradiction|].
        intros l Hl. left. exact Hl.
  - intros x Hx. apply in_app_or in Hx. destruct Hx as [Hx|[<-|[]]].
    + destruct (Hloud x Hx) as [Hu Ha]. split.
      * intros Hlv. apply in_or_app. left. apply Hu, Hlv.
      * intros Hlv Hty. apply in_or_app. left. apply Ha; assumption.
    + split.
      * intros Hlv. apply in_or_app. right. rewrite (Huser Hlv). left. reflexivity.
      * intros Hlv Hty. apply in_or_app. right. rewrite (Hadm Hlv Hty).
        left. reflexivity.
Qed.

Lemma quietly_display_all `{Display} e0 new : forall e els,
  quietly e0 e els -> quietly e0 (display_all new e) (els ++ new).
Proof.
  induction new as [|el new IH]; intros e els Hq.
  - rewrite app_nil_r. exact Hq.
  - change (display_all (el :: new) e) with (display_all new (handleRuntimeLog el e)).
    replace (els ++ el :: new)%list with ((els ++ [el]) ++ new)%list
      by (rewrite <- app_assoc; reflexivity).
    apply IH, quietly_handle, Hq.
Qed.

Lemma loader_loop_printed `{External} toSetup : forall e,
  exists lines,
    printed e (fst (loader_loop toSetup e)) lines /\
    hushed (FunctionsEmulator.quiet e) lines /\
    FunctionsEmulator.quiet (fst (loader_loop toSetup e)) = FunctionsEmulator.quiet e.
Proof.
  induction toSetup as [|d rest IH]; intros e; cbn [loader_loop].
  - exists []. split; [apply printed_refl|]. split; [apply hushed_nil|reflexivity].
  - destruct (put_port d) as [fp|].
    + destruct (put_request_printed d e) as (l & Hp & Hh).
      exists l. split; [exact Hp|]. split; [exact Hh|reflexivity].
    + destruct (setup_trigger_printed d e) as (l1 & Hp1 & Hh1).
      destruct (setup_trigger_fields d e) as (_ & _ & _ & Hq).
      cbv zeta in Hq.
      match goal with
      | |- context [loader_loop rest ?e2] =>
          destruct (IH e2) as (l2 & Hp2 & Hh2 & Hq2)
      end.
      simpl in Hh2, Hq2. rewrite Hq in Hh2, Hq2.
      exists (l1 ++ l2)%list. split; [|split].
      * eapply printed_trans; [exact Hp1|exact Hp2].
      * apply hushed_app; assumption.
      * exact Hq2.
Qed.

Lemma quietly_step `{External} `{Display} e0 r ev :
  quietly e0 (rl_emu r) (events (rl_runtime r)) ->
  quietly e0 (rl_emu (reload_step r ev)) (events (rl_runtime (reload_step r ev))).
Proof.
  intros Hq. unfold reload_step.
  destruct (rl_phase r) eqn:Hph; try exact Hq;
    (destruct ev as [p buf|];
     [ destruct (reload_data_trace p buf r) as (els & T1 & T2 & T3 & _ & _);
       cbv zeta in *;
       set (r1 := reload_then_ready (reload_data p buf r)) in *;
       assert (Hq1 : quietly e0 (rl_emu r1) (events (rl_runtime r1)))
         by (rewrite T1, T2; apply quietly_display_all, Hq);
       unfold reload_resume; rewrite T3, Hph
     | unfold reload_put_done; rewrite Hph ]);
    try exact Hq; try exact Hq1.
  - (* the closure resumes after the triggers-parsed record *)
    destruct (rl_parsed r1) as [|ev|e]; try exact Hq1.
    destruct (triggerDefinitions (data ev)) as [defs|]; [|exact Hq1].
    cbv zeta. simpl.
    match goal with
    | |- context [loader_loop ?ts ?e2] =>
        destruct (loader_loop_printed ts e2) as (l & Hp & Hh & Hq2)
    end.
    eapply quietly_hushed; [exact Hq1| | |].
    + rewrite Hq2. reflexivity.
    + exact Hp.
    + exact Hh.
  - (* the callback of the PUT *)
    destruct (put_callback_printed (FunctionsEmulator.projectId (rl_emu r)) fp d
                (rl_emu r)) as (l1 & Hp1 & Hh1).
    destruct (put_callback_fields (FunctionsEmulator.projectId (rl_emu r)) fp d
                (rl_emu r)) as (_ & _ & _ & Hq1).
    cbv zeta in Hq1.
    destruct (put_callback (FunctionsEmulator.projectId (rl_emu r)) fp d (rl_emu r))
      as [e1 [|u|err]]; simpl in *.
    + eapply quietly_hushed; [exact Hq|exact Hq1|exact Hp1|exact Hh1].
    + match goal with
      | |- context [loader_loop ?ts ?e2] =>
          destruct (loader_loop_printed ts e2) as (l2 & Hp2 & Hh2 & Hq2)
      end.
      simpl in Hh2, Hq2.
      eapply quietly_hushed;
        [eapply quietly_hushed; [exact Hq|exact Hq1|exact Hp1|exact Hh1]
        |exact Hq2|exact Hp2|exact Hh2].
    + eapply quietly_hushed; [exact Hq|exact Hq1|exact Hp1|exact Hh1].
Qed.

Lemma quietly_reload `{External} `{Display} e evs :
  quietly e (rl_emu (reload e evs)) (events (rl_runtime (reload e evs))).
Proof.
  unfold reload.
  assert (Hb : quietly e (rl_emu (reload_begin e)) (events (rl_runtime (reload_begin e)))).
  { split; [reflexivity|]. exists []. split; [apply printed_refl|].
    intros _. split; [constructor|intros el []]. }
  revert Hb. generalize (reload_begin e).
  induction evs as [|ev evs IH]; intros r Hq; simpl; [exact Hq|].
  apply IH, quietly_step, Hq.
Qed.

(** X15: a reload, followed callback by callback with its diagnostic
    worker, only adds lines to what the emulator has printed.  With the
    quiet flag every line that it adds goes to [logger.debug], except that
    every USER record of the worker has its line through [logger.info] and
    every record admin-not-initialized its warning through
    [utils.logWarning]; no other line leaves [logger.debug]. *)
Theorem quiet_reload_lines `{External} `{Display} :
  forall (e : FunctionsEmulator.t) (evs : list ReloadEvent),
    FunctionsEmulator.quiet e = true ->
    exists lines,
      printed e (rl_emu (reload e evs)) lines /\
      Forall (quiet_line (events (rl_runtime (reload e evs)))) lines /\
      loud_lines (events (rl_runtime (reload e evs))) lines.
Proof.
  intros e evs Hq. destruct (quietly_reload e evs) as (_ & lines & Hp & Hall).
  exists lines. split; [exact Hp|]. apply Hall, Hq.
Qed.

Lemma quiet_reload_lines_witness :
  exists lines,
    printed quiet_emulator
      (rl_emu (@reload reload_host plain_display quiet_emulator
                 [DiagData Stdout ("hello" ++ nl ++ "three" ++ nl); PutDone]))
      lines /\
    Forall (@quiet_line plain_display
              (events (rl_runtime
                 (@reload reload_host plain_display quiet_emulator
                    [DiagData Stdout ("hello" ++ nl ++ "three" ++ nl); PutDone]))))
           lines /\
    @loud_lines plain_display
      (events (rl_runtime
         (@reload reload_host plain_display quiet_emulator
            [DiagData Stdout ("hello" ++ nl ++ "three" ++ nl); PutDone])))
      lines.
Proof.
  apply (@quiet_reload_lines reload_host plain_display quiet_emulator
           [DiagData Stdout ("hello" ++ nl ++ "three" ++ nl); PutDone]).
  reflexivity.
Defined.

(** A quiet reload on the sample host: the USER record is printed through
    [logger.info], everything else through [logger.debug]. *)
Example quiet_reload_sample :
  let r := @reload reload_host plain_display quiet_emulator
             [DiagData Stdout ("hello" ++ nl ++ "three" ++ nl); PutDone] in
  rl_phase r = Loaded /\
  map fst (FunctionsEmulator.display (rl_emu r))
  = [logger_info; logger_debug; logger_debug; logger_debug; logger_debug;
     logger_debug; logger_debug].
Proof. cbv zeta. split; reflexivity. Qed.

(** *** A reload after a completed one *)

Lemma loader_loop_ok `{External} toSetup : forall e,
  (forall x, In x (FunctionsEmulator.triggers e) ->
             is_known (FunctionsEmulator.knownTriggerIDs e) (name x) = true \/
             In x toSetup) ->
  let out := loader_loop toSetup e in
  FunctionsEmulator.triggers (fst out) = FunctionsEmulator.triggers e /\
  match snd out with
  | AwaitPut _ d rest =>
      forall x, In x (FunctionsEmulator.triggers e) ->
                is_known (FunctionsEmulator.knownTriggerIDs (fst out)) (name x) = true \/
                In x (d :: rest)
  | Loaded =>
      forall x, In x (FunctionsEmulator.triggers e) ->
                is_known (FunctionsEmulator.knownTriggerIDs (fst out)) (name x) = true
  | _ => False
  end.
Proof.
  induction toSetup as [|d rest IH]; intros e Hall; cbv zeta; cbn [loader_loop].
  - simpl. split; [reflexivity|]. intros x Hx.
    destruct (Hall x Hx) as [Hk|[]]. exact Hk.
  - destruct (put_port d) as [fp|].
    + simpl. split; [reflexivity|exact Hall].
    + destruct (setup_trigger_fields d e) as (_ & Hkn & Htr & _). cbv zeta in Hkn, Htr.
      match goal with
      | |- context [loader_loop rest ?e2] =>
          destruct (IH e2) as (I1 & I2)
      end.
      * simpl. rewrite Htr, Hkn. intros x Hx. rewrite is_known_mark_known.
        destruct (Hall x Hx) as [Hk|[Hd|Hr]].
        -- left. rewrite Hk. apply orb_true_r.
        -- left. subst x. rewrite String.eqb_refl. reflexivity.
        -- right. exact Hr.
      * cbv zeta in I1, I2. simpl in I1, I2. rewrite Htr in I1, I2.
        split; [exact I1|exact I2].
Qed.

Lemma loader_ok_step `{External} `{Display} r ev :
  loader_ok r -> loader_ok (reload_step r ev).
Proof.
  intros Hok. unfold reload_step.
  destruct (rl_phase r) eqn:Hph; try exact Hok;
    (destruct ev as [p buf|];
     [ destruct (reload_data_trace p buf r) as (els & T1 & T2 & T3 & _ & _);
       cbv zeta in *;
       set (r1 := reload_then_ready (reload_data p buf r)) in *;
       destruct (display_all_fields els (rl_emu r)) as (F1 & F2 & _);
       assert (Hok1 : loader_ok r1)
         by (unfold loader_ok in *; cbv zeta in *;
             rewrite T1, T3, F1, F2, Hph; rewrite Hph in Hok; exact Hok);
       unfold reload_resume; rewrite T3, Hph
     | unfold reload_put_done; rewrite Hph ]);
    try exact Hok; try exact Hok1.
  - destruct (rl_parsed r1) as [|tpe|e]; try exact Hok1.
    destruct (triggerDefinitions (data tpe)) as [defs|];
      [|unfold loader_ok; simpl; exact I].
    cbv zeta.
    match goal with
    | |- context [loader_loop ?ts ?e2] =>
        destruct (loader_loop_ok ts e2) as (L1 & L2)
    end.
    + simpl. intros x Hx.
      destruct (is_known (FunctionsEmulator.knownTriggerIDs (rl_emu r1)) (name x)) eqn:Hk;
        [left; reflexivity|right].
      unfold toSetup_of. apply filter_In. split; [exact Hx|]. rewrite Hk. reflexivity.
    + cbv zeta in L1, L2. unfold loader_ok. simpl. rewrite L1.
      match goal with
      | |- context [snd ?o] => destruct (snd o)
      end; auto.
  - destruct (put_callback_fields (FunctionsEmulator.projectId (rl_emu r)) fp d
                (rl_emu r)) as (_ & Hkn & Htr & _).
    cbv zeta in Hkn, Htr.
    destruct (put_callback (FunctionsEmulator.projectId (rl_emu r)) fp d (rl_emu r))
      as [e1 [|u|err]]; simpl in *; try (unfold loader_ok; simpl; exact I).
    unfold loader_ok in Hok. cbv zeta in Hok. rewrite Hph in Hok.
    match goal with
    | |- context [loader_loop ?ts ?e2] =>
        destruct (loader_loop_ok ts e2) as (L1 & L2)
    end.
    + simpl. rewrite Htr, Hkn. intros x Hx. rewrite is_known_mark_known.
      destruct (Hok x Hx) as [Hk|[Hd|Hr]].
      * left. rewrite Hk. apply orb_true_r.
      * left. subst x. rewrite String.eqb_refl. reflexivity.
      * right. exact Hr.
    + cbv zeta in L1, L2. simpl in L1, L2. unfold loader_ok. simpl.
      rewrite L1, Htr. rewrite Htr in L2.
      match goal with
      | |- context [snd ?o] => destruct (snd o)
      end; auto.
Qed.

Lemma loader_ok_reload `{External} `{Display} e evs : loader_ok (reload e evs).
Proof.
  unfold reload.
  assert (Hb : loader_ok (reload_begin e)) by exact I.
  revert Hb. generalize (reload_begin e).
  induction evs as [|ev evs IH]; intros r Hok; simpl; [exact Hok|].
  apply IH, loader_ok_step, Hok.
Qed.

(** The waiter of triggers-parsed keeps the record that resolved it. *)
Lemma parsed_step `{External} `{Display} r ev tpe :
  rl_parsed r = Resolved tpe -> rl_parsed (reload_step r ev) = Resolved tpe.
Proof.
  intros Hp. unfold reload_step.
  destruct (rl_phase r) eqn:Hph; try exact Hp;
    (destruct ev as [p buf|];
     [ destruct (reload_data_trace p buf r) as (els & _ & _ & T3 & T4 & _);
       cbv zeta in *; specialize (T4 tpe Hp);
       unfold reload_resume; rewrite T3, Hph
     | unfold reload_put_done; rewrite Hph ]);
    try exact Hp; try exact T4.
  - rewrite T4. destruct (triggerDefinitions (data tpe)); exact T4.
  - destruct (put_callback _ _ _ _) as [e1 [|u|err]]; exact Hp.
Qed.

Lemma parsed_run `{External} `{Display} evs : forall r tpe,
  rl_parsed r = Resolved tpe ->
  rl_parsed (fold_left reload_step evs r) = Resolved tpe.
Proof.
  induction evs as [|ev evs IH]; intros r tpe Hp; simpl; [exact Hp|].
  apply IH, parsed_step, Hp.
Qed.

Lemma only_prints_step `{External} `{Display} e1 r ev :
  (forall x, In x (FunctionsEmulator.triggers e1) ->
             is_known (FunctionsEmulator.knownTriggerIDs e1) (name x) = true) ->
  (forall tpe, rl_parsed (reload_step r ev) = Resolved tpe ->
               triggerDefinitions (data tpe) = Some (FunctionsEmulator.triggers e1)) ->
  only_prints e1 r -> only_prints e1 (reload_step r ev).
Proof.
  intros Hknown Hdefs [Hemu Hph]. revert Hdefs. unfold reload_step.
  destruct Hph as [[Hph Hpa]|[Hph (tpe0 & Hpa)]]; rewrite Hph.
  - destruct ev as [p buf|]; [|intros _; unfold reload_put_done; rewrite Hph;
                                split; [exact Hemu|left; auto]].
    destruct (reload_data_trace p buf r) as (els & T1 & T2 & T3 & _ & T5).
    cbv zeta in *.
    set (r1 := reload_then_ready (reload_data p buf r)) in *.
    assert (Hemu1 : rl_emu r1 = display_all (events (rl_runtime r1)) e1)
      by (rewrite T1, T2, display_all_app, Hemu; reflexivity).
    unfold reload_resume. rewrite T3, Hph.
    destruct (rl_parsed r1) as [|tpe|e] eqn:Hp1.
    + intros _. split; [exact Hemu1|left; rewrite T3; auto].
    + destruct (triggerDefinitions (data tpe)) as [defs|] eqn:Hd.
      * cbv zeta. intros Hdefs.
        specialize (Hdefs tpe Hp1). rewrite Hd in Hdefs.
        inversion Hdefs; subst defs.
        destruct (display_all_fields (events (rl_runtime r1)) e1) as (F1 & F2 & _).
        assert (Hsame : FunctionsEmulator.set_triggers (FunctionsEmulator.triggers e1)
                          (rl_emu r1) = rl_emu r1).
        { rewrite <- F2, <- Hemu1. apply set_triggers_same. }
        rewrite toSetup_of_known.
        -- cbn [loader_loop fst snd]. rewrite Hsame.
           split; [exact Hemu1|]. right. split; [reflexivity|]. exists tpe. exact Hp1.
        -- intros d Hin. rewrite Hemu1, F1. apply Hknown, Hin.
      * intros Hdefs. specialize (Hdefs tpe Hp1). congruence.
    + destruct (T5 ltac:(rewrite Hpa; discriminate) e). reflexivity.
  - intros _. destruct ev as [p buf|];
      [|unfold reload_put_done; rewrite Hph; split; [exact Hemu|right; eauto]].
    destruct (reload_data_trace p buf r) as (els & T1 & T2 & T3 & T4 & _).
    cbv zeta in *.
    set (r1 := reload_then_ready (reload_data p buf r)) in *.
    unfold reload_resume. rewrite T3, Hph.
    split; [rewrite T1, T2, display_all_app, Hemu; reflexivity|].
    right. split; [rewrite T3; exact Hph|]. exists tpe0. apply T4, Hpa.
Qed.

Lemma only_prints_run `{External} `{Display} e1 evs : forall r,
  (forall x, In x (FunctionsEmulator.triggers e1) ->
             is_known (FunctionsEmulator.knownTriggerIDs e1) (name x) = true) ->
  (forall tpe, rl_parsed (fold_left reload_step evs r) = Resolved tpe ->
               triggerDefinitions (data tpe) = Some (FunctionsEmulator.triggers e1)) ->
  only_prints e1 r -> only_prints e1 (fold_left reload_step evs r).
Proof.
  induction evs as [|ev evs IH]; intros r Hknown Hdefs Hop; simpl in *; [exact Hop|].
  apply IH; [exact Hknown|exact Hdefs|].
  apply only_prints_step; [exact Hknown| |exact Hop].
  intros tpe Hp. apply Hdefs. apply parsed_run, Hp.
Qed.

(** X13: after a reload that has completed, a further reload whose worker
    reports the same definitions sets nothing up.  Whatever the worker logs
    and whenever, the closure waits for the triggers-parsed record and
    returns as soon as that has arrived; it is never suspended at a PUT, and
    the emulator is the one that the first reload left, after
    [handleRuntimeLog] has printed the records of the second worker (the
    first worker being silent by then): the loader itself prints nothing. *)
Theorem second_reload_only_prints `{External} `{Display} :
  forall (e : FunctionsEmulator.t) (evs1 evs2 : list ReloadEvent),
    let e1 := rl_emu (reload e evs1) in
    let r2 := reload e1 evs2 in
    rl_phase (reload e evs1) = Loaded ->
    (forall triggerParseEvent,
       rl_parsed r2 = Resolved triggerParseEvent ->
       triggerDefinitions (data triggerParseEvent) = Some (getTriggers e1)) ->
    rl_emu r2 = display_all (events (rl_runtime r2)) e1 /\
    ((rl_phase r2 = AwaitParsed /\ rl_parsed r2 = Pending) \/
     (rl_phase r2 = Loaded /\
      exists triggerParseEvent, rl_parsed r2 = Resolved triggerParseEvent)).
Proof.
  intros e evs1 evs2 e1 r2 Hloaded Hdefs.
  pose proof (loader_ok_reload e evs1) as Hok.
  unfold loader_ok in Hok. cbv zeta in Hok. rewrite Hloaded in Hok. fold e1 in Hok.
  assert (Hop : only_prints e1 r2).
  { unfold r2, reload. apply only_prints_run; [exact Hok| |].
    - intros tpe Hp. apply Hdefs. exact Hp.
    - split; [reflexivity|left; split; reflexivity]. }
  exact Hop.
Qed.

Lemma second_reload_only_prints_witness :
  rl_emu
    (@reload reload_host plain_display
       (rl_emu (@reload reload_host plain_display sample_emulator
                  [DiagData Stdout ("three" ++ nl); PutDone]))
       [DiagData Stdout ("hello" ++ nl ++ "three" ++ nl); PutDone;
        DiagData Stderr ("hello" ++ nl)])
  = @display_all plain_display
      (events (rl_runtime
         (@reload reload_host plain_display
            (rl_emu (@reload reload_host plain_display sample_emulator
                       [DiagData Stdout ("three" ++ nl); PutDone]))
            [DiagData Stdout ("hello" ++ nl ++ "three" ++ nl); PutDone;
             DiagData Stderr ("hello" ++ nl)])))
      (rl_emu (@reload reload_host plain_display sample_emulator
                 [DiagData Stdout ("three" ++ nl); PutDone])) /\
  ((rl_phase
      (@reload reload_host plain_display
         (rl_emu (@reload reload_host plain_display sample_emulator
                    [DiagData Stdout ("three" ++ nl); PutDone]))
         [DiagData Stdout ("hello" ++ nl ++ "three" ++ nl); PutDone;
          DiagData Stderr ("hello" ++ nl)]) = AwaitParsed /\
    rl_parsed
      (@reload reload_host plain_display
         (rl_emu (@reload reload_host plain_display sample_emulator
                    [DiagData Stdout ("three" ++ nl); PutDone]))
         [DiagData Stdout ("hello" ++ nl ++ "three" ++ nl); PutDone;
          DiagData Stderr ("hello" ++ nl)]) = Pending) \/
   (rl_phase
      (@reload reload_host plain_display
         (rl_emu (@reload reload_host plain_display sample_emulator
                    [DiagData Stdout ("three" ++ nl); PutDone]))
         [DiagData Stdout ("hello" ++ nl ++ "three" ++ nl); PutDone;
          DiagData Stderr ("hello" ++ nl)]) = Loaded /\
    exists triggerParseEvent,
      rl_parsed
        (@reload reload_host plain_display
           (rl_emu (@reload reload_host plain_display sample_emulator
                      [DiagData Stdout ("three" ++ nl); PutDone]))
           [DiagData Stdout ("hello" ++ nl ++ "three" ++ nl); PutDone;
            DiagData Stderr ("hello" ++ nl)]) = Resolved triggerParseEvent)).
Proof.
  apply (@second_reload_only_prints reload_host plain_display sample_emulator
           [DiagData Stdout ("three" ++ nl); PutDone]
           [DiagData Stdout ("hello" ++ nl ++ "three" ++ nl); PutDone;
            DiagData Stderr ("hello" ++ nl)]).
  - reflexivity.
  - intros triggerParseEvent Hp. vm_compute in Hp.
    inversion Hp. reflexivity.
Defined.

(** Two reloads on the sample host: the first sets up three triggers with
    one PUT; the second prints the two USER records of its worker and
    nothing else. *)
Example second_reload_sample :
  let r1 := @reload reload_host plain_display sample_emulator
              [DiagData Stdout ("three" ++ nl); PutDone] in
  let r2 := @reload reload_host plain_display (rl_emu r1)
              [DiagData Stdout ("hello" ++ nl ++ "three" ++ nl); PutDone;
               DiagData Stderr ("hello" ++ nl)] in
  rl_phase r1 = Loaded /\
  map fst (FunctionsEmulator.display (rl_emu r1))
  = [logLabeledBullet "functions"; logLabeledBullet "functions"; logger_debug;
     logLabeledSuccess "functions"; logger_debug; logWarning] /\
  FunctionsEmulator.display (rl_emu r2)
  = (FunctionsEmulator.display (rl_emu r1)
       ++ [(logger_info, ">  hello"); (logger_info, ">  hello")])%list /\
  FunctionsEmulator.knownTriggerIDs (rl_emu r2)
  = FunctionsEmulator.knownTriggerIDs (rl_emu r1).
Proof. cbv zeta. repeat split; reflexivity. Qed.

(** ** The response before anything has gone out *)

Lemma app_not_nil {A} (l : list A) x : (l ++ [x])%list <> [].
Proof. destruct l; discriminate. Qed.

Lemma untouched_send body r r' :
  res_send body r = Ok r' -> untouched_or_sent r'.
Proof.
  unfold res_send. destruct (headersSent r); [discriminate|].
  intros Hs. inversion Hs. right. simpl. destruct (wire r); discriminate.
Qed.

Lemma untouched_end r : untouched_or_sent r -> untouched_or_sent (res_end r).
Proof.
  intros Hu. unfold res_end. destruct (finished r); [exact Hu|].
  right. simpl. apply app_not_nil.
Qed.

Lemma untouched_on_data rr buf r :
  untouched_or_sent r -> untouched_or_sent (fst (on_data rr buf r)).
Proof.
  intros Hu. unfold on_data.
  destruct (forwardStatusAndHeaders_total rr r) as (r1 & -> & _ & Hfin & Hw & _).
  unfold res_write. rewrite Hfin.
  destruct (finished r) eqn:Hf; simpl.
  - right. rewrite Hw. destruct Hu as [->|Hu]; [discriminate Hf|exact Hu].
  - right. apply app_not_nil.
Qed.

Lemma untouched_on_close_or_end rr r :
  untouched_or_sent r -> untouched_or_sent (fst (on_close_or_end rr r)).
Proof.
  intros Hu. unfold on_close_or_end.
  destruct (forwardStatusAndHeaders_total rr r) as (r1 & -> & _ & Hfin & Hw & _).
  simpl. unfold res_end. rewrite Hfin.
  destruct (finished r) eqn:Hf; simpl.
  - right. rewrite Hw. destruct Hu as [->|Hu]; [discriminate Hf|exact Hu].
  - right. apply app_not_nil.
Qed.

Lemma untouched_emit el st :
  untouched_or_sent (res st) -> untouched_or_sent (res (emit el st)).
Proof.
  intros Hu. unfold emit, fatal_subscriber. simpl.
  destruct (String.eqb (level el) "FATAL"); simpl; [|exact Hu].
  destruct (res_send (text el) (res st)) as [r|e] eqn:Hs; simpl; [|exact Hu].
  eapply untouched_send; eassumption.
Qed.

Lemma untouched_script script : forall st,
  untouched_or_sent (res st) ->
  untouched_or_sent (res (fold_left perform script st)).
Proof.
  induction script as [|a script IH]; intros st Hu; simpl; [exact Hu|].
  apply IH. unfold perform. destruct (uncaught st); [exact Hu|].
  destruct a as [el|sg]; [apply untouched_emit, Hu|exact Hu].
Qed.

Lemma untouched_callback `{External} ev st :
  untouched_or_sent (res st) -> untouched_or_sent (res (callback ev st)).
Proof.
  intros Hu. destruct ev as [p buf|code|rr|buf| | | | ]; simpl.
  - unfold on_pipe_data. cbv zeta.
    match goal with
    | |- context [fold_left perform ?s ?x] =>
        pose proof (untouched_script s x Hu) as Hs;
        destruct (uncaught (fold_left perform s x)); exact Hs
    end.
  - exact Hu.
  - repeat case_match; exact Hu.
  - destruct (runtimeRes st) as [rr|]; [|exact Hu].
    pose proof (untouched_on_data rr buf _ Hu) as Hd.
    unfold on_res. destruct (on_data rr buf (res st)) as [r [e|]]; exact Hd.
  - destruct (runtimeRes st) as [rr|]; [|exact Hu].
    pose proof (untouched_on_close_or_end rr _ Hu) as Hd.
    unfold on_res. destruct (on_close_or_end rr (res st)) as [r [e|]]; exact Hd.
  - destruct (runtimeRes st) as [rr|]; [|exact Hu].
    pose proof (untouched_on_close_or_end rr _ Hu) as Hd.
    unfold on_res. destruct (on_close_or_end rr (res st)) as [r [e|]]; exact Hd.
  - destruct (runtimeReq st); [|exact Hu]. simpl. apply untouched_end, Hu.
  - destruct (runtimeReq st); [|exact Hu]. simpl. apply untouched_end, Hu.
Qed.

Lemma untouched_resume st :
  untouched_or_sent (res st) -> untouched_or_sent (res (resume st)).
Proof.
  intros Hu. unfold resume.
  destruct (phase st); try exact Hu.
  - destruct (ready (runtime st)); exact Hu.
  - destruct (triggerLog st) as [|el|e]; try exact Hu.
    unfold after_triggerLog. destruct (triggers (data el)) as [tm|]; [|exact Hu].
    destruct (tm !! trigger_name (req st)) as [t|]; [|exact Hu].
    destruct (httpsTrigger (definition t)); exact Hu.
  - destruct (exit (runtime st)); try exact Hu.
    unfold res_json.
    destruct (res_send acknowledged (res st)) as [r|e] eqn:Hs; [|exact Hu].
    simpl. eapply untouched_send; eassumption.
  - destruct (exit (runtime st)); exact Hu.
Qed.

Lemma untouched_step `{External} st ev :
  untouched_or_sent (res st) -> untouched_or_sent (res (step st ev)).
Proof.
  intros Hu. unfold step. destruct (uncaught st); [exact Hu|]. cbv zeta.
  pose proof (untouched_callback ev st Hu) as Hc.
  destruct (uncaught (callback ev st)); [exact Hc|].
  unfold microtasks.
  apply untouched_resume, untouched_resume, untouched_resume.
  unfold then_ready. destruct (readyLog (runtime (callback ev st))); try exact Hc.
  destruct (ready (runtime (callback ev st))); exact Hc.
Qed.

Lemma untouched_invoke `{External} emu rq evs :
  untouched_or_sent (res (invoke emu rq evs)).
Proof.
  unfold invoke, run.
  assert (H0 : untouched_or_sent (res (handler_begin emu rq))).
  { left. unfold handler_begin. destruct (parse_body (rawBody rq)); reflexivity. }
  revert H0. generalize (handler_begin emu rq).
  induction evs as [|ev evs IH]; intros st Hu; simpl; [exact Hu|].
  apply IH, untouched_step, Hu.
Qed.

(** X20: when the connection to the worker of an HTTP trigger fails (the
    "error" event of the request or of the pipe into it) before anything has
    gone out, the handler ends the response as it is: the client receives
    status 200, the CORS headers and an empty body, not an error status. *)
Theorem worker_error_gives_empty_200 `{External} :
  forall emu rq evs ev,
    let st := invoke emu rq evs in
    let st' := invoke emu rq (evs ++ [ev]) in
    is_error ev = true ->
    uncaught st = None ->
    runtimeReq st <> None ->
    wire (res st) = [] ->
    wire (res st') = [Head 200 cors_headers; Fin] /\
    reply (res st') = Some (200, EmptyString) /\
    uncaught st' = None.
Proof.
  intros emu rq evs ev st st' Hev Hu Hq Hw.
  assert (Hfresh : res st = fresh_response).
  { destruct (untouched_invoke emu rq evs) as [Hf|Hn]; [exact Hf|].
    fold st in Hn. contradiction. }
  pose proof (stable_invoke emu rq evs) as Hst. fold st in Hst.
  assert (Heq : st' = step st ev).
  { unfold st', st, invoke. apply run_snoc. }
  assert (Hcb : callback ev st = set_res (res_end (res st)) st).
  { destruct ev; try discriminate; simpl; destruct (runtimeReq st); congruence. }
  pose proof (stable_callback ev st Hst) as Hsc.
  assert (Hq' : runtimeReq (callback ev st) <> None) by (rewrite Hcb; exact Hq).
  destruct (microtasks_proxy _ Hsc Hq') as [Hr Hun].
  assert (Hres : res st' = res_end fresh_response /\ uncaught st' = None).
  { rewrite Heq. unfold step. rewrite Hu. cbv zeta.
    rewrite Hcb in *. simpl in *. rewrite Hu in *. rewrite Hr, Hun, Hfresh. auto. }
  destruct Hres as [-> ->]. repeat split; reflexivity.
Qed.

Lemma worker_error_gives_empty_200_witness :
  wire (res (@invoke sample_host sample_emulator echo_request
               ([PipeData Stdout ("triggers" ++ nl ++ "ready" ++ nl)] ++ [ReqError])))
  = [Head 200 cors_headers; Fin] /\
  reply (res (@invoke sample_host sample_emulator echo_request
                ([PipeData Stdout ("triggers" ++ nl ++ "ready" ++ nl)] ++ [ReqError])))
  = Some (200, EmptyString) /\
  uncaught (@invoke sample_host sample_emulator echo_request
              ([PipeData Stdout ("triggers" ++ nl ++ "ready" ++ nl)] ++ [ReqError]))
  = None.
Proof.
  apply (@worker_error_gives_empty_200 sample_host sample_emulator echo_request
           [PipeData Stdout ("triggers" ++ nl ++ "ready" ++ nl)] ReqError).
  - reflexivity.
  - reflexivity.
  - discriminate.
  - reflexivity.
Defined.

(** X21: for an HTTP trigger the exit of the worker sends nothing: once the
    request to the worker is open, the "exit" callback leaves the outbound
    response as it is, so a client whose worker exits without an answer keeps
    waiting. *)
Theorem worker_exit_sends_nothing `{External} :
  forall emu rq evs code,
    let st := invoke emu rq evs in
    runtimeReq st <> None ->
    res (invoke emu rq (evs ++ [WorkerExit code])) = res st.
Proof.
  intros emu rq evs code st Hq.
  pose proof (stable_invoke emu rq evs) as Hst. fold st in Hst.
  unfold invoke. rewrite run_snoc. fold (invoke emu rq evs). fold st.
  unfold step. destruct (uncaught st) eqn:Hu; [reflexivity|]. cbv zeta.
  pose proof (stable_callback (WorkerExit code) st Hst) as Hsc.
  assert (Hq' : runtimeReq (callback (WorkerExit code) st) <> None) by exact Hq.
  destruct (microtasks_proxy _ Hsc Hq') as [Hr Hun].
  destruct (uncaught (callback (WorkerExit code) st)); [reflexivity|].
  rewrite Hr. reflexivity.
Qed.

Lemma worker_exit_sends_nothing_witness :
  res (@invoke sample_host sample_emulator echo_request
         ([PipeData Stdout ("triggers" ++ nl ++ "ready" ++ nl)] ++ [WorkerExit 1]))
  = res (@invoke sample_host sample_emulator echo_request
           [PipeData Stdout ("triggers" ++ nl ++ "ready" ++ nl)]).
Proof.
  apply (@worker_exit_sends_nothing sample_host sample_emulator echo_request
           [PipeData Stdout ("triggers" ++ nl ++ "ready" ++ nl)] 1).
  discriminate.
Defined.
